(** * SUPERFAST track manager: the track ledger model

    A shallow embedding of the client logic of the track manager
    (React components [CreateTrack], [TrackDetail], [TrackList] and
    [Dashboard]) together with the part of the record store they talk to
    (the tables, constraints, row-level policies and trigger of the schema
    migration), and the properties of the track lifecycle proved over it.

    Conventions of the embedding.
    - JavaScript strings are [string]s.  The built-ins of the engine that
      depend on the text and on the locale, the case mapping [toLowerCase]
      and the collation [localeCompare] of [TrackList], are parameters of
      the component that calls them.  [toUpperCase] is only applied to the
      output of [toString(36)] (digits, [a..z] and the point), where it is
      the mapping of the ASCII letters.
    - Instants (the [timestamptz] columns, [Date.now()]) are integers:
      milliseconds since the epoch, which is what
      [new Date(row.updated_at).getTime()] reads back from a row.
    - A handler of a component is a function of the values captured by the
      render that created it; it threads the outside world (the record store
      and the requests sent to it) through a state monad.
    - The arrays of [TrackList] live in a heap of arrays, so that copying
      ([[...tracks]]), [filter] (a new array) and [sort] (in place) are told
      apart. *)

From Stdlib Require Import ZArith NArith String Ascii List Lia Bool.
From Stdlib Require Import Permutation Sorted.
From stdpp Require Import base list strings.

Local Open Scope Z_scope.

(* ===================================================================== *)
(** * Strings as the engine provides them *)
(* ===================================================================== *)

Module JsString.

(** [c] is one of the ASCII letters [a..z] / [A..Z]. *)
Definition is_lower (c : ascii) : bool :=
  let n := nat_of_ascii c in (97 <=? n)%nat && (n <=? 122)%nat.
Definition is_upper (c : ascii) : bool :=
  let n := nat_of_ascii c in (65 <=? n)%nat && (n <=? 90)%nat.

Definition upper_ascii (c : ascii) : ascii :=
  if is_lower c then ascii_of_nat (nat_of_ascii c - 32) else c.
Definition lower_ascii (c : ascii) : ascii :=
  if is_upper c then ascii_of_nat (nat_of_ascii c + 32) else c.

Fixpoint map_string (f : ascii -> ascii) (s : string) : string :=
  match s with
  | EmptyString => EmptyString
  | String c s' => String (f c) (map_string f s')
  end.

(** [s.toUpperCase()], for a string [s] of ASCII characters. *)
Definition toUpperCase (s : string) : string := map_string upper_ascii s.

(** [s.substring(start, end)]: both indices are clamped to the length of
    [s] and swapped when [start > end]. *)
Definition substring (s : string) (start end_ : nat) : string :=
  let len := String.length s in
  let a := Nat.min start len in
  let b := Nat.min end_ len in
  String.substring (Nat.min a b) (Nat.max a b - Nat.min a b) s.

(** [q] is a prefix of [s]. *)
Fixpoint startsWith (s q : string) : bool :=
  match q, s with
  | EmptyString, _ => true
  | String _ _, EmptyString => false
  | String a q', String b s' => if Ascii.eqb a b then startsWith s' q' else false
  end.

(** [s.includes(q)]: [q] occurs in [s] as a contiguous run. *)
Fixpoint includes (s q : string) : bool :=
  if startsWith s q then true
  else match s with
       | EmptyString => false
       | String _ s' => includes s' q
       end.

(** [s.replace(pat, by)] with a one-character string pattern: only the
    first occurrence is replaced. *)
Fixpoint replace_char (s : string) (pat by_ : ascii) : string :=
  match s with
  | EmptyString => EmptyString
  | String c s' =>
      if Ascii.eqb c pat then String by_ s' else String c (replace_char s' pat by_)
  end.

(** A string used as a condition: the empty string is falsy. *)
Definition truthy (s : string) : bool :=
  match s with EmptyString => false | String _ _ => true end.

(** The characters of a string, for statements about each of them. *)
Definition chars (s : string) : list ascii := list_ascii_of_string s.

End JsString.

(* ===================================================================== *)
(** * Radix 36 *)
(* ===================================================================== *)

Module Radix36.

(** The digit characters of [Number.prototype.toString(36)]:
    [0..9] then [a..z]. *)
Definition digitChar (d : N) : ascii :=
  if (d <? 10)%N then ascii_of_N (48 + d) else ascii_of_N (87 + d).

(** Digits of a natural number, most significant first.  The engine
    divides until the quotient is zero; [fuel] bounds the number of
    divisions (see [toString_nat] for the bound used). *)
Fixpoint digits_from (fuel : nat) (n : N) (acc : string) : string :=
  match fuel with
  | O => acc
  | S fuel' =>
      let acc' := String (digitChar (n mod 36)) acc in
      if (n / 36 =? 0)%N then acc' else digits_from fuel' (n / 36) acc'
  end.

Definition toString_nat (n : N) : string :=
  digits_from (S (N.to_nat (N.log2 n))) n EmptyString.

(** [x.toString(36)] for an integral number [x]. *)
Definition toString (x : Z) : string :=
  if x <? 0 then String "-" (toString_nat (Z.abs_N x))
  else toString_nat (Z.to_N x).

(** [x.toString(36)] for a number [0 <= x < 1], given by the digits the
    engine prints after the point ([[]] for [x = 0], which prints as
    ["0"]). *)
Definition toString_fraction (ds : list N) : string :=
  match ds with
  | [] => "0"%string
  | _ => String "0" (String "." (string_of_list_ascii (map digitChar ds)))
  end.

(** The value of an upper-case digit character, and of a digit string. *)
Definition upperDigitValue (c : ascii) : option N :=
  let n := N_of_ascii c in
  if ((48 <=? n) && (n <=? 57))%N then Some (n - 48)%N
  else if ((65 <=? n) && (n <=? 90))%N then Some (n - 55)%N
  else None.

Definition is_upper_digit (c : ascii) : bool :=
  match upperDigitValue c with Some _ => true | None => false end.

Fixpoint value_from (acc : N) (s : string) : option N :=
  match s with
  | EmptyString => Some acc
  | String c s' =>
      match upperDigitValue c with
      | Some d => value_from (acc * 36 + d)%N s'
      | None => None
      end
  end.

(** Reading an upper-case base-36 numeral. *)
Definition parse_upper (s : string) : option N :=
  match s with
  | EmptyString => None
  | _ => value_from 0%N s
  end.

End Radix36.

(* ===================================================================== *)
(** * CreateTrack: the tracking-number generator *)
(* ===================================================================== *)

(** [generateTrackingNumber], as a function of what it reads from its
    environment: [now] is [Date.now()] and [rnd] gives the digits after the
    point of [Math.random().toString(36)]. *)
Definition generateTrackingNumber (now : Z) (rnd : list N) : string :=
  let prefix := "TRK"%string in
  let timestamp := JsString.toUpperCase (Radix36.toString now) in
  let random :=
    JsString.toUpperCase
      (JsString.substring (Radix36.toString_fraction rnd) 2 6) in
  (prefix +:+ "-" +:+ timestamp +:+ "-" +:+ random)%string.


(* ===================================================================== *)
(** * Ordering rows *)
(* ===================================================================== *)

(** A stable sort by a comparator in the style of [Array.prototype.sort]:
    [cmp a b <= 0] keeps [a] before [b].  It is also used for the store's
    [ORDER BY], where rows with equal keys then come in table order (the
    store itself promises no order among them). *)
Fixpoint insert_by {A : Type} (cmp : A -> A -> Z) (x : A) (l : list A) : list A :=
  match l with
  | [] => [x]
  | y :: l' => if cmp x y <=? 0 then x :: l else y :: insert_by cmp x l'
  end.

Definition stable_sort {A : Type} (cmp : A -> A -> Z) (l : list A) : list A :=
  fold_right (insert_by cmp) [] l.

(* ===================================================================== *)
(** * The record store *)
(* ===================================================================== *)

(** Rows of the [tracks] table. *)
Module Track.
Record t := mk {
  id : string;
  title : string;
  description : string;
  category_id : option string;
  status : string;
  priority : string;
  tracking_number : string;
  user_id : string;
  created_at : Z;
  updated_at : Z;
}.
End Track.

(** Rows of the [track_updates] table. *)
Module TrackUpdate.
Record t := mk {
  id : string;
  track_id : string;
  status : string;
  message : string;
  location : string;
  user_id : string;
  created_at : Z;
}.
End TrackUpdate.

(** The object given to [from('tracks').insert(...)] by [CreateTrack]. *)
Module TrackInsert.
Record t := mk {
  title : string;
  description : string;
  status : string;
  priority : string;
  tracking_number : string;
  user_id : string;
}.
End TrackInsert.

(** The object given to [from('track_updates').insert(...)]. *)
Module TrackUpdateInsert.
Record t := mk {
  track_id : string;
  status : string;
  message : string;
  location : string;
  user_id : string;
}.
End TrackUpdateInsert.

(** The object given to [from('tracks').update(...)]: every column is
    optional (type [Update] of the [tracks] table), an absent column keeps
    its value. *)
Module TrackPatch.
Record t := mk {
  id : option string;
  title : option string;
  description : option string;
  category_id : option (option string);
  status : option string;
  priority : option string;
  tracking_number : option string;
  user_id : option string;
  created_at : option Z;
  updated_at : option Z;
}.

(** The patch that names no column. *)
Definition empty : t := mk None None None None None None None None None None.

Definition apply (p : t) (r : Track.t) : Track.t :=
  {| Track.id := default (Track.id r) (id p);
     Track.title := default (Track.title r) (title p);
     Track.description := default (Track.description r) (description p);
     Track.category_id := default (Track.category_id r) (category_id p);
     Track.status := default (Track.status r) (status p);
     Track.priority := default (Track.priority r) (priority p);
     Track.tracking_number := default (Track.tracking_number r) (tracking_number p);
     Track.user_id := default (Track.user_id r) (user_id p);
     Track.created_at := default (Track.created_at r) (created_at p);
     Track.updated_at := default (Track.updated_at r) (updated_at p) |}.
End TrackPatch.

Module Store.

Record Database := mkDatabase {
  tracks : list Track.t;
  track_updates : list TrackUpdate.t;
}.

(** What the store contributes to one request: whether the request
    reaches it at all, its clock ([now()]) and the identifier it draws for
    a new row ([gen_random_uuid()]). *)
Record Env := mkEnv {
  reachable : bool;
  now : Z;
  uuid : string;
}.

(** [{ data, error }] as the client returns it. *)
Record Response (A : Type) := mkResponse {
  data : option A;
  error : option string;
}.
Arguments mkResponse {A} _ _.
Arguments data {A} _.
Arguments error {A} _.

Definition ok {A} (a : option A) : Response A := mkResponse a None.
Definition failed {A} (msg : string) : Response A := mkResponse None (Some msg).

(** No two equal values in a column ([PRIMARY KEY], [UNIQUE]). *)
Fixpoint distinct (l : list string) : bool :=
  match l with
  | [] => true
  | x :: l' => negb (existsb (String.eqb x) l') && distinct l'
  end.

(** Trigger [update_tracks_updated_at], run before each row update. *)
Definition update_updated_at_column (e : Env) (r : Track.t) : Track.t :=
  {| Track.id := Track.id r;
     Track.title := Track.title r;
     Track.description := Track.description r;
     Track.category_id := Track.category_id r;
     Track.status := Track.status r;
     Track.priority := Track.priority r;
     Track.tracking_number := Track.tracking_number r;
     Track.user_id := Track.user_id r;
     Track.created_at := Track.created_at r;
     Track.updated_at := now e |}.

(** Policies of [tracks]: a row is visible to, and writable by, its
    owner only. *)
Definition owns_track (uid : string) (r : Track.t) : bool :=
  String.eqb uid (Track.user_id r).

(** The condition of the policies of [track_updates] on the parent track
    ("Users can view updates for own tracks", "Users can insert updates for
    own tracks"): the track the update refers to exists and belongs to the
    session's user. *)
Definition owns_parent_track (uid : string) (d : Database) (u : TrackUpdate.t) : bool :=
  existsb (fun r => String.eqb (Track.id r) (TrackUpdate.track_id u)
                    && String.eqb (Track.user_id r) uid)
          (tracks d).

(** [INSERT INTO tracks]: the columns the client leaves out take their
    defaults.  Rejected by the insert policy, by the primary key or by the
    uniqueness of [tracking_number]. *)
Definition insert_track (uid : string) (row : TrackInsert.t) (e : Env) (d : Database)
  : option Database :=
  let r := {| Track.id := uuid e;
              Track.title := TrackInsert.title row;
              Track.description := TrackInsert.description row;
              Track.category_id := None;
              Track.status := TrackInsert.status row;
              Track.priority := TrackInsert.priority row;
              Track.tracking_number := TrackInsert.tracking_number row;
              Track.user_id := TrackInsert.user_id row;
              Track.created_at := now e;
              Track.updated_at := now e |} in
  if String.eqb uid (TrackInsert.user_id row)
     && distinct (map Track.id (tracks d ++ [r]))
     && distinct (map Track.tracking_number (tracks d ++ [r]))
  then Some {| tracks := tracks d ++ [r]; track_updates := track_updates d |}
  else None.

(** [INSERT INTO track_updates]: rejected by the insert policy (the
    author is the session's user and owns the referenced track, which
    implies the foreign key) or by the primary key. *)
Definition insert_track_update (uid : string) (row : TrackUpdateInsert.t) (e : Env)
    (d : Database) : option Database :=
  let u := {| TrackUpdate.id := uuid e;
              TrackUpdate.track_id := TrackUpdateInsert.track_id row;
              TrackUpdate.status := TrackUpdateInsert.status row;
              TrackUpdate.message := TrackUpdateInsert.message row;
              TrackUpdate.location := TrackUpdateInsert.location row;
              TrackUpdate.user_id := TrackUpdateInsert.user_id row;
              TrackUpdate.created_at := now e |} in
  if String.eqb uid (TrackUpdateInsert.user_id row)
     && owns_parent_track uid d u
     && distinct (map TrackUpdate.id (track_updates d ++ [u]))
  then Some {| tracks := tracks d; track_updates := track_updates d ++ [u] |}
  else None.

(** [UPDATE tracks SET ... WHERE id = ...]: the rows the session's user
    owns and that carry the identifier are patched, then stamped by the
    trigger; the others are left as they are.  Rejected when a new row
    fails the policy's check or a key stops being unique. *)
Definition update_row (uid : string) (patch : TrackPatch.t) (track_id : string) (e : Env)
    (r : Track.t) : Track.t :=
  if owns_track uid r && String.eqb (Track.id r) track_id
  then update_updated_at_column e (TrackPatch.apply patch r)
  else r.

Definition update_tracks (uid : string) (patch : TrackPatch.t) (track_id : string)
    (e : Env) (d : Database) : option Database :=
  let rows := map (update_row uid patch track_id e) (tracks d) in
  if forallb (fun r => implb (owns_track uid r && String.eqb (Track.id r) track_id)
                             (owns_track uid (TrackPatch.apply patch r)))
             (tracks d)
     && distinct (map Track.id rows)
     && distinct (map Track.tracking_number rows)
  then Some {| tracks := rows; track_updates := track_updates d |}
  else None.

(** [SELECT * FROM tracks WHERE id = ... AND user_id = ...], through the
    select policy. *)
Definition select_track (uid track_id user_id : string) (d : Database) : list Track.t :=
  List.filter (fun r => owns_track uid r
                        && String.eqb (Track.id r) track_id
                        && String.eqb (Track.user_id r) user_id)
              (tracks d).

(** [SELECT * FROM tracks WHERE user_id = ... ORDER BY created_at DESC]. *)
Definition select_tracks (uid user_id : string) (d : Database) : list Track.t :=
  stable_sort (fun a b => Track.created_at b - Track.created_at a)
    (List.filter (fun r => owns_track uid r && String.eqb (Track.user_id r) user_id)
                 (tracks d)).

(** [SELECT status FROM tracks WHERE user_id = ...]: rows with the single
    column [status]. *)
Record StatusRow := mkStatusRow { status : string }.

Definition select_track_status (uid user_id : string) (d : Database) : list StatusRow :=
  map (fun r => mkStatusRow (Track.status r))
      (List.filter (fun r => owns_track uid r && String.eqb (Track.user_id r) user_id)
                   (tracks d)).

(** [SELECT * FROM track_updates WHERE track_id = ... ORDER BY created_at
    DESC], through the select policy. *)
Definition select_track_updates (uid track_id : string) (d : Database)
  : list TrackUpdate.t :=
  stable_sort (fun a b => TrackUpdate.created_at b - TrackUpdate.created_at a)
    (List.filter (fun u => owns_parent_track uid d u
                           && String.eqb (TrackUpdate.track_id u) track_id)
                 (track_updates d)).

End Store.

(* ===================================================================== *)
(** * The outside world and the requests sent to it *)
(* ===================================================================== *)

(** The requests the components send. *)
Inductive Request :=
| InsertTrack (row : TrackInsert.t)
| InsertTrackUpdate (row : TrackUpdateInsert.t)
| UpdateTracks (patch : TrackPatch.t) (id : string)
| SelectTrack (id user_id : string)
| SelectTracks (user_id : string)
| SelectTrackStatus (user_id : string)
| SelectTrackUpdates (track_id : string).

(** The world a handler runs in: the store's contents, what the store will
    contribute to the coming requests (one [Env] each; a request beyond the
    script does not reach the store), and the requests sent so far, each
    with whether it came back without error. *)
Record World := mkWorld {
  db : Store.Database;
  script : list Store.Env;
  sent : list (Request * bool);
}.

(** Computations over the world. *)
Definition M (A : Type) : Type := World -> A * World.

Definition ret {A} (a : A) : M A := fun w => (a, w).
Definition bind {A B} (m : M A) (k : A -> M B) : M B :=
  fun w => let (a, w') := m w in k a w'.

Notation "x <- m ;; k" := (bind m (fun x => k))
  (at level 100, m at next level, right associativity).

Definition is_ok {A} (r : Store.Response A) : bool :=
  match Store.error r with None => true | Some _ => false end.

(** Sending a request: [exec] is what the store does with it once it is
    reached. *)
Definition send {A} (r : Request)
    (exec : Store.Env -> Store.Database -> Store.Response A * Store.Database)
  : M (Store.Response A) :=
  fun w =>
    match script w with
    | e :: rest =>
        if Store.reachable e then
          let (resp, d) := exec e (db w) in
          (resp, {| db := d; script := rest; sent := sent w ++ [(r, is_ok resp)] |})
        else
          (Store.failed "Failed to fetch",
           {| db := db w; script := rest; sent := sent w ++ [(r, false)] |})
    | [] =>
        (Store.failed "Failed to fetch",
         {| db := db w; script := []; sent := sent w ++ [(r, false)] |})
    end.

(** A write: no row is returned; a rejected write leaves the store as it
    was. *)
Definition write (f : Store.Env -> Store.Database -> option Store.Database)
  : Store.Env -> Store.Database -> Store.Response unit * Store.Database :=
  fun e d =>
    match f e d with
    | Some d' => (Store.ok None, d')
    | None => (Store.failed "new row violates a constraint or policy", d)
    end.

(** The client, for the session of the user [uid]. *)
Module supabase.

Definition insert_track (uid : string) (row : TrackInsert.t) : M (Store.Response unit) :=
  send (InsertTrack row) (write (Store.insert_track uid row)).

Definition insert_track_update (uid : string) (row : TrackUpdateInsert.t)
  : M (Store.Response unit) :=
  send (InsertTrackUpdate row) (write (Store.insert_track_update uid row)).

Definition update_tracks (uid : string) (patch : TrackPatch.t) (id : string)
  : M (Store.Response unit) :=
  send (UpdateTracks patch id) (write (Store.update_tracks uid patch id)).

(** [.maybeSingle()]: no row is no data and no error; several rows are an
    error. *)
Definition select_track_maybeSingle (uid id user_id : string)
  : M (Store.Response Track.t) :=
  send (SelectTrack id user_id)
       (fun _ d =>
          match Store.select_track uid id user_id d with
          | [] => (Store.ok None, d)
          | [r] => (Store.ok (Some r), d)
          | _ => (Store.failed "multiple rows returned", d)
          end).

Definition select_tracks (uid user_id : string) : M (Store.Response (list Track.t)) :=
  send (SelectTracks user_id)
       (fun _ d => (Store.ok (Some (Store.select_tracks uid user_id d)), d)).

Definition select_track_status (uid user_id : string)
  : M (Store.Response (list Store.StatusRow)) :=
  send (SelectTrackStatus user_id)
       (fun _ d => (Store.ok (Some (Store.select_track_status uid user_id d)), d)).

Definition select_track_updates (uid track_id : string)
  : M (Store.Response (list TrackUpdate.t)) :=
  send (SelectTrackUpdates track_id)
       (fun _ d => (Store.ok (Some (Store.select_track_updates uid track_id d)), d)).

End supabase.

(** The signed-in user, as [useAuth()] gives it. *)
Record User := mkUser { user_id : string }.

(* ===================================================================== *)
(** * CreateTrack *)
(* ===================================================================== *)

Module CreateTrack.

Module Form.
Record t := mk {
  title : string;
  description : string;
  status : string;
  priority : string;
}.
End Form.

Record State := mkState {
  loading : bool;
  error : option string;
  form : Form.t;
}.

Definition initial : State :=
  {| loading := false;
     error := None;
     form := Form.mk "" "" "pending" "medium" |}.

Definition setLoading (v : bool) (s : State) : State :=
  {| loading := v; error := error s; form := form s |}.
Definition setError (v : option string) (s : State) : State :=
  {| loading := loading s; error := v; form := form s |}.
Definition setForm (v : Form.t) (s : State) : State :=
  {| loading := loading s; error := error s; form := v |}.

(** What a run of a handler leaves: the component's state and whether the
    [onBack] callback was called. *)
Record Outcome := mkOutcome {
  state : State;
  onBack_called : bool;
}.

(** [handleSubmit], the [onSubmit] handler of the form.  [now] and [rnd]
    are what [generateTrackingNumber] reads; the client reports failures
    in [error] and does not throw, so the [catch] branch is not taken. *)
Definition handleSubmit (user : option User) (now : Z) (rnd : list N) (s : State)
  : M Outcome :=
  match user with
  | None => ret (mkOutcome s false)
  | Some user =>
      let s := setError None s in
      let s := setLoading true s in
      let trackingNumber := generateTrackingNumber now rnd in
      r <- supabase.insert_track (user_id user)
             {| TrackInsert.title := Form.title (form s);
                TrackInsert.description := Form.description (form s);
                TrackInsert.status := Form.status (form s);
                TrackInsert.priority := Form.priority (form s);
                TrackInsert.tracking_number := trackingNumber;
                TrackInsert.user_id := user_id user |} ;;
      match Store.error r with
      | Some message => ret (mkOutcome (setLoading false (setError (Some message) s)) false)
      | None => ret (mkOutcome (setLoading false s) true)
      end
  end.

(** A control of the form with what the markup declares for it: its [id],
    its current value and whether it carries [required]. *)
Record Control := mkControl {
  id : string;
  value : string;
  required : bool;
}.

(** The controls the component renders inside its [<form>]: the title
    input (required), the description textarea and the two selects. *)
Definition controls (s : State) : list Control :=
  [ mkControl "title" (Form.title (form s)) true;
    mkControl "description" (Form.description (form s)) false;
    mkControl "status" (Form.status (form s)) false;
    mkControl "priority" (Form.priority (form s)) false ].

(** A control suffers from a missing value when it is required and its
    value is the empty string. *)
Definition valueMissing (c : Control) : bool :=
  required c && negb (JsString.truthy (value c)).

(** The form is valid when none of its controls is invalid. *)
Definition checkValidity (cs : list Control) : bool :=
  forallb (fun c => negb (valueMissing c)) cs.

(** Pressing the submit button of [<form onSubmit={handleSubmit}>]: the
    browser first validates the constraints declared on the controls and
    fires the submit event only when they hold; otherwise it reports the
    invalid control and the handler never runs. *)
Definition submit (user : option User) (now : Z) (rnd : list N) (s : State) : M Outcome :=
  if checkValidity (controls s) then handleSubmit user now rnd s
  else ret (mkOutcome s false).

End CreateTrack.

(* ===================================================================== *)
(** * TrackDetail *)
(* ===================================================================== *)

Module TrackDetail.

Module UpdateForm.
Record t := mk {
  status : string;
  message : string;
  location : string;
}.
End UpdateForm.

Module EditForm.
Record t := mk {
  title : string;
  description : string;
  status : string;
  priority : string;
}.
End EditForm.

Record State := mkState {
  track : option Track.t;
  updates : list TrackUpdate.t;
  loading : bool;
  showUpdateForm : bool;
  updateForm : UpdateForm.t;
  isEditing : bool;
  editForm : EditForm.t;
}.

Definition initial : State :=
  {| track := None;
     updates := [];
     loading := true;
     showUpdateForm := false;
     updateForm := UpdateForm.mk "" "" "";
     isEditing := false;
     editForm := EditForm.mk "" "" "" "" |}.

Definition setTrack (v : option Track.t) (s : State) : State :=
  mkState v (updates s) (loading s) (showUpdateForm s) (updateForm s) (isEditing s)
          (editForm s).
Definition setUpdates (v : list TrackUpdate.t) (s : State) : State :=
  mkState (track s) v (loading s) (showUpdateForm s) (updateForm s) (isEditing s)
          (editForm s).
Definition setLoading (v : bool) (s : State) : State :=
  mkState (track s) (updates s) v (showUpdateForm s) (updateForm s) (isEditing s)
          (editForm s).
Definition setShowUpdateForm (v : bool) (s : State) : State :=
  mkState (track s) (updates s) (loading s) v (updateForm s) (isEditing s) (editForm s).
Definition setUpdateForm (v : UpdateForm.t) (s : State) : State :=
  mkState (track s) (updates s) (loading s) (showUpdateForm s) v (isEditing s)
          (editForm s).
Definition setIsEditing (v : bool) (s : State) : State :=
  mkState (track s) (updates s) (loading s) (showUpdateForm s) (updateForm s) v
          (editForm s).
Definition setEditForm (v : EditForm.t) (s : State) : State :=
  mkState (track s) (updates s) (loading s) (showUpdateForm s) (updateForm s)
          (isEditing s) v.

Section Handlers.

(** The values every handler of a render closes over besides the state:
    the signed-in user and the [trackId] prop. *)
Variable user : option User.
Variable trackId : string.

(** [loadTrackDetails].  [captured] is the state of the render whose
    closure runs (its [updateForm] is spread into the new one); the
    setters act on [cur], the state being built. *)
Definition loadTrackDetails (captured cur : State) : M State :=
  match user with
  | None => ret cur
  | Some user =>
      let cur := setLoading true cur in
      trackRes <- supabase.select_track_maybeSingle (user_id user) trackId (user_id user) ;;
      updatesRes <- supabase.select_track_updates (user_id user) trackId ;;
      let cur :=
        match Store.data trackRes with
        | Some trackData =>
            let cur := setTrack (Some trackData) cur in
            let cur := setEditForm
                         {| EditForm.title := Track.title trackData;
                            EditForm.description := Track.description trackData;
                            EditForm.status := Track.status trackData;
                            EditForm.priority := Track.priority trackData |} cur in
            setUpdateForm
              {| UpdateForm.status := Track.status trackData;
                 UpdateForm.message := UpdateForm.message (updateForm captured);
                 UpdateForm.location := UpdateForm.location (updateForm captured) |} cur
        | None => cur
        end in
      let cur :=
        match Store.data updatesRes with
        | Some updatesData => setUpdates updatesData cur
        | None => cur
        end in
      ret (setLoading false cur)
  end.

(** [handleAddUpdate], run by the render with state [s]. *)
Definition handleAddUpdate (s : State) : M State :=
  match user, track s with
  | Some user, Some _ =>
      res <- supabase.insert_track_update (user_id user)
               {| TrackUpdateInsert.track_id := trackId;
                  TrackUpdateInsert.status := UpdateForm.status (updateForm s);
                  TrackUpdateInsert.message := UpdateForm.message (updateForm s);
                  TrackUpdateInsert.location := UpdateForm.location (updateForm s);
                  TrackUpdateInsert.user_id := user_id user |} ;;
      match Store.error res with
      | None =>
          _ <- supabase.update_tracks (user_id user)
                 {| TrackPatch.id := None;
                    TrackPatch.title := None;
                    TrackPatch.description := None;
                    TrackPatch.category_id := None;
                    TrackPatch.status := Some (UpdateForm.status (updateForm s));
                    TrackPatch.priority := None;
                    TrackPatch.tracking_number := None;
                    TrackPatch.user_id := None;
                    TrackPatch.created_at := None;
                    TrackPatch.updated_at := None |}
                 trackId ;;
          let cur := setUpdateForm
                       {| UpdateForm.status := UpdateForm.status (updateForm s);
                          UpdateForm.message := "";
                          UpdateForm.location := "" |} s in
          let cur := setShowUpdateForm false cur in
          loadTrackDetails s cur
      | Some _ => ret s
      end
  | _, _ => ret s
  end.

(** [handleUpdateTrack], run by the render with state [s]. *)
Definition handleUpdateTrack (s : State) : M State :=
  match user with
  | None => ret s
  | Some user =>
      res <- supabase.update_tracks (user_id user)
               {| TrackPatch.id := None;
                  TrackPatch.title := Some (EditForm.title (editForm s));
                  TrackPatch.description := Some (EditForm.description (editForm s));
                  TrackPatch.category_id := None;
                  TrackPatch.status := Some (EditForm.status (editForm s));
                  TrackPatch.priority := Some (EditForm.priority (editForm s));
                  TrackPatch.tracking_number := None;
                  TrackPatch.user_id := None;
                  TrackPatch.created_at := None;
                  TrackPatch.updated_at := None |}
               trackId ;;
      match Store.error res with
      | None => loadTrackDetails s (setIsEditing false s)
      | Some _ => ret s
      end
  end.

End Handlers.

Definition getStatusColor (status : string) : string :=
  if String.eqb status "pending" then "bg-yellow-100 text-yellow-800 border-yellow-200"
  else if String.eqb status "in_progress" then "bg-blue-100 text-blue-800 border-blue-200"
  else if String.eqb status "completed" then "bg-green-100 text-green-800 border-green-200"
  else if String.eqb status "cancelled" then "bg-gray-100 text-gray-800 border-gray-200"
  else "bg-gray-100 text-gray-800 border-gray-200".

(** A status badge: the colour classes and the text shown. *)
Record Badge := mkBadge {
  className : string;
  text : string;
}.

Definition statusBadge (status : string) : Badge :=
  {| className := getStatusColor status;
     text := JsString.replace_char status "_" " " |}.

(** What the component renders, as far as the track's data goes: the
    spinner; the "Track not found" panel; or the page of the track.  The
    first card of the page is chosen by [isEditing]: the edit form with the
    values of [editForm] (it shows no badge), or else the track's title,
    tracking number, status badge and priority.  The second card, the
    timeline of the updates (each with its own badge), is rendered in both
    cases. *)
Inductive View :=
| Spinner
| TrackNotFound
| Editing (form : EditForm.t) (timeline : list Badge)
| Details (title tracking_number : string) (status : Badge) (priority : string)
          (timeline : list Badge).

Definition render (s : State) : View :=
  if loading s then Spinner
  else match track s with
       | None => TrackNotFound
       | Some track =>
           let timeline :=
             map (fun update => statusBadge (TrackUpdate.status update)) (updates s) in
           if isEditing s then Editing (editForm s) timeline
           else
             Details (Track.title track) (Track.tracking_number track)
                     (statusBadge (Track.status track))
                     (Track.priority track)
                     timeline
       end.

End TrackDetail.

(* ===================================================================== *)
(** * Dashboard *)
(* ===================================================================== *)

Module Dashboard.

Record Stats := mkStats {
  total : nat;
  pending : nat;
  inProgress : nat;
  completed : nat;
}.

Definition initial : Stats := mkStats 0 0 0 0.

(** [loadStats]; [stats] is the current value of the state it sets. *)
Definition loadStats (user : option User) (stats : Stats) : M Stats :=
  match user with
  | None => ret stats
  | Some user =>
      res <- supabase.select_track_status (user_id user) (user_id user) ;;
      match Store.data res with
      | Some tracks =>
          ret {| total := length tracks;
                 pending :=
                   length (List.filter (fun t => String.eqb (Store.status t) "pending")
                                       tracks);
                 inProgress :=
                   length (List.filter (fun t => String.eqb (Store.status t) "in_progress")
                                       tracks);
                 completed :=
                   length (List.filter (fun t => String.eqb (Store.status t) "completed")
                                       tracks) |}
      | None => ret stats
      end
  end.

(** The numbers the four cards of the dashboard show. *)
Definition cards (stats : Stats) : list nat :=
  [total stats; pending stats; inProgress stats; completed stats].

End Dashboard.

(* ===================================================================== *)
(** * TrackList *)
(* ===================================================================== *)

(** Arrays of tracks are objects: a value of type [ref] names an array in
    the heap. *)
Module Heap.

Abbreviation ref := nat (only parsing).
Abbreviation t := (list (list Track.t)) (only parsing).

Definition read (r : ref) (h : t) : list Track.t := default [] (h !! r).
Definition alloc (v : list Track.t) (h : t) : ref * t := (length h, h ++ [v]).
Definition write (r : ref) (v : list Track.t) (h : t) : t := <[r := v]> h.

(** [[...a]]: a new array with the elements of [a]. *)
Definition spread (a : ref) (h : t) : ref * t := alloc (read a h) h.

(** [a.filter(p)]: a new array. *)
Definition filter (p : Track.t -> bool) (a : ref) (h : t) : ref * t :=
  alloc (List.filter p (read a h)) h.

(** [a.sort(cmp)]: sorts [a] itself. *)
Definition sort (cmp : Track.t -> Track.t -> Z) (a : ref) (h : t) : t :=
  write a (stable_sort cmp (read a h)) h.

End Heap.

Module TrackList.

Inductive SortBy := date | title.

Record State := mkState {
  tracks : Heap.ref;
  filteredTracks : Heap.ref;
  loading : bool;
  searchQuery : string;
  statusFilter : string;
  priorityFilter : string;
  sortBy : SortBy;
}.

Definition setFilteredTracks (v : Heap.ref) (s : State) : State :=
  mkState (tracks s) v (loading s) (searchQuery s) (statusFilter s) (priorityFilter s)
          (sortBy s).

Section Engine.

(** [s.toLowerCase()]: the lower-case mapping of the engine. *)
Variable toLowerCase : string -> string.

(** [a.localeCompare(b)]: the collation of the engine's locale, negative,
    zero or positive. *)
Variable localeCompare : string -> string -> Z.

(** The predicate of the free-text filter, for the lower-cased query. *)
Definition matchesQuery (query : string) (track : Track.t) : bool :=
  JsString.includes (toLowerCase (Track.title track)) query
  || JsString.includes (toLowerCase (Track.tracking_number track)) query
  || JsString.includes (toLowerCase (Track.description track)) query.

(** The comparator given to [sort]. *)
Definition compareTracks (sortBy : SortBy) (a b : Track.t) : Z :=
  match sortBy with
  | date => Track.updated_at b - Track.updated_at a
  | title => localeCompare (Track.title a) (Track.title b)
  end.

(** [filterAndSortTracks], run by the render with state [s]. *)
Definition filterAndSortTracks (s : State) (h : Heap.t) : State * Heap.t :=
  let '(filtered, h) := Heap.spread (tracks s) h in
  let '(filtered, h) :=
    if JsString.truthy (searchQuery s) then
      let query := toLowerCase (searchQuery s) in
      Heap.filter (matchesQuery query) filtered h
    else (filtered, h) in
  let '(filtered, h) :=
    if negb (String.eqb (statusFilter s) "all") then
      Heap.filter (fun track => String.eqb (Track.status track) (statusFilter s))
                  filtered h
    else (filtered, h) in
  let '(filtered, h) :=
    if negb (String.eqb (priorityFilter s) "all") then
      Heap.filter (fun track => String.eqb (Track.priority track) (priorityFilter s))
                  filtered h
    else (filtered, h) in
  let h := Heap.sort (compareTracks (sortBy s)) filtered h in
  (setFilteredTracks filtered s, h).

(** The tracks the list shows after [filterAndSortTracks]. *)
Definition shown (s : State) (h : Heap.t) : list Track.t :=
  let (s', h') := filterAndSortTracks s h in Heap.read (filteredTracks s') h'.

End Engine.

End TrackList.

(** A collation to run examples with: code-unit order. *)
Definition codeUnitCompare (a b : string) : Z :=
  match String.compare a b with
  | Lt => -1
  | Eq => 0
  | Gt => 1
  end.

(** A case mapping to run examples with: the letters [A..Z] to [a..z],
    every other character kept, which is what the engine's [toLowerCase]
    does on ASCII text. *)
Definition asciiToLowerCase (s : string) : string :=
  JsString.map_string JsString.lower_ascii s.

(* ===================================================================== *)
(** * Notions used to state the properties *)
(* ===================================================================== *)

(** The requests sent between the world [w] and a later world [w']. *)
Definition issued (w w' : World) : list (Request * bool) :=
  drop (length (sent w)) (sent w').

(** [q] occurs in [s]: some characters, then [q], then some characters. *)
Definition Substring (q s : string) : Prop :=
  exists pre post : string, s = (pre +:+ q +:+ post)%string.

(** A comparator that orders: any two elements are comparable and being
    "not after" is transitive. *)
Definition Consistent {A : Type} (cmp : A -> A -> Z) : Prop :=
  (forall a b, cmp a b <= 0 \/ cmp b a <= 0)
  /\ (forall a b c, cmp a b <= 0 -> cmp b c <= 0 -> cmp a c <= 0).

(** The requests that write to the store. *)
Definition is_write (r : Request) : bool :=
  match r with
  | InsertTrack _ | InsertTrackUpdate _ | UpdateTracks _ _ => true
  | _ => false
  end.

(** The objects the detail view sends: the row of an append, and the
    patches of an append and of an edit. *)
Definition append_row (trackId : string) (s : TrackDetail.State) (u : User)
  : TrackUpdateInsert.t :=
  {| TrackUpdateInsert.track_id := trackId;
     TrackUpdateInsert.status := TrackDetail.UpdateForm.status (TrackDetail.updateForm s);
     TrackUpdateInsert.message := TrackDetail.UpdateForm.message (TrackDetail.updateForm s);
     TrackUpdateInsert.location := TrackDetail.UpdateForm.location (TrackDetail.updateForm s);
     TrackUpdateInsert.user_id := user_id u |}.

Definition append_patch (s : TrackDetail.State) : TrackPatch.t :=
  {| TrackPatch.id := None;
     TrackPatch.title := None;
     TrackPatch.description := None;
     TrackPatch.category_id := None;
     TrackPatch.status := Some (TrackDetail.UpdateForm.status (TrackDetail.updateForm s));
     TrackPatch.priority := None;
     TrackPatch.tracking_number := None;
     TrackPatch.user_id := None;
     TrackPatch.created_at := None;
     TrackPatch.updated_at := None |}.

Definition edit_patch (s : TrackDetail.State) : TrackPatch.t :=
  {| TrackPatch.id := None;
     TrackPatch.title := Some (TrackDetail.EditForm.title (TrackDetail.editForm s));
     TrackPatch.description :=
       Some (TrackDetail.EditForm.description (TrackDetail.editForm s));
     TrackPatch.category_id := None;
     TrackPatch.status := Some (TrackDetail.EditForm.status (TrackDetail.editForm s));
     TrackPatch.priority := Some (TrackDetail.EditForm.priority (TrackDetail.editForm s));
     TrackPatch.tracking_number := None;
     TrackPatch.user_id := None;
     TrackPatch.created_at := None;
     TrackPatch.updated_at := None |}.

(** The actions of the detail view on a track once it exists: saving the
    edit form and adding an update, each run by some render of the view
    (its user, its [trackId], its state). *)
Inductive Action :=
| EditTrackFields (user : option User) (trackId : string) (s : TrackDetail.State)
| AppendUpdate (user : option User) (trackId : string) (s : TrackDetail.State).

Definition perform (a : Action) : M TrackDetail.State :=
  match a with
  | EditTrackFields user trackId s => TrackDetail.handleUpdateTrack user trackId s
  | AppendUpdate user trackId s => TrackDetail.handleAddUpdate user trackId s
  end.

Fixpoint perform_all (l : list Action) (w : World) : World :=
  match l with
  | [] => w
  | a :: l' => perform_all l' (perform a w).2
  end.

(** The status of the latest ledger entry among the updates a view holds
    (they are loaded newest first). *)
Definition latest_status (s : TrackDetail.State) : option string :=
  match TrackDetail.updates s with
  | [] => None
  | u :: _ => Some (TrackUpdate.status u)
  end.

(** The status badge a view presents for its track (the edit form shows
    none). *)
Definition presented_status (v : TrackDetail.View) : option TrackDetail.Badge :=
  match v with
  | TrackDetail.Details _ _ status _ _ => Some status
  | _ => None
  end.

(** The reading of the detail view "the ledger is authoritative": when the
    loaded track's status differs from the latest entry's, the entry's
    status is the one presented. *)
Definition prefers_ledger (user : option User) (trackId : string)
    (s : TrackDetail.State) (w : World) : Prop :=
  let s' := (TrackDetail.loadTrackDetails user trackId s s w).1 in
  forall T S,
    TrackDetail.track s' = Some T ->
    latest_status s' = Some S ->
    Track.status T <> S ->
    presented_status (TrackDetail.render s') = Some (TrackDetail.statusBadge S).

(** The reading of the free-text filter in which the query alone decides:
    with a non-empty query, a loaded track is shown exactly when the
    lower-cased query occurs in its lower-cased title, tracking number or
    description. *)
Definition query_alone_decides (toLowerCase : string -> string)
    (localeCompare : string -> string -> Z) (s : TrackList.State) (h : Heap.t)
    (T : Track.t) : Prop :=
  TrackList.searchQuery s <> ""%string ->
  In T (Heap.read (TrackList.tracks s) h) ->
  let query := toLowerCase (TrackList.searchQuery s) in
  In T (TrackList.shown toLowerCase localeCompare s h)
  <-> (Substring query (toLowerCase (Track.title T))
       \/ Substring query (toLowerCase (Track.tracking_number T))
       \/ Substring query (toLowerCase (Track.description T))).

(** A text of ASCII characters only. *)
Definition is_ascii_text (s : string) : bool :=
  forallb (fun c => (nat_of_ascii c <? 128)%nat) (JsString.chars s).

(** What [toLowerCase] does on ASCII text: the letters [A..Z] become
    [a..z], every other character stays. *)
Definition LowersAscii (toLowerCase : string -> string) : Prop :=
  forall s, is_ascii_text s = true ->
            toLowerCase s = JsString.map_string JsString.lower_ascii s.

(** Two characters that are equal, or the upper-case and the lower-case
    form of one ASCII letter. *)
Definition same_letter (a b : ascii) : Prop :=
  a = b
  \/ (JsString.is_upper a = true /\ nat_of_ascii b = (nat_of_ascii a + 32)%nat)
  \/ (JsString.is_upper b = true /\ nat_of_ascii a = (nat_of_ascii b + 32)%nat).

(** [q] occurs in [s] up to the case of the letters: some characters, then
    as many characters as [q] has, each the same letter as the one of [q]
    at its place, then some characters. *)
Definition OccursIgnoringCase (q s : string) : Prop :=
  exists pre mid post : string,
    s = (pre +:+ mid +:+ post)%string
    /\ Forall2 same_letter (JsString.chars q) (JsString.chars mid).

(** The tracks that pass the filters of the list, in the order of the
    array they are taken from. *)
Definition selected (toLowerCase : string -> string)
    (s : TrackList.State) (l : list Track.t) : list Track.t :=
  let l :=
    if JsString.truthy (TrackList.searchQuery s)
    then List.filter
           (TrackList.matchesQuery toLowerCase (toLowerCase (TrackList.searchQuery s))) l
    else l in
  let l :=
    if negb (String.eqb (TrackList.statusFilter s) "all")
    then List.filter (fun t => String.eqb (Track.status t) (TrackList.statusFilter s)) l
    else l in
  if negb (String.eqb (TrackList.priorityFilter s) "all")
  then List.filter (fun t => String.eqb (Track.priority t) (TrackList.priorityFilter s)) l
  else l.

(** "A count for the status [st]": one of the numbers returned is the
    number of rows whose status is [st]. *)
Definition returns_count_of (st : string) (statuses : list string)
    (stats : Dashboard.Stats) : Prop :=
  In (count_occ String.string_dec statuses st) (Dashboard.cards stats).

(** ** Data for the examples *)

Module Ex.

Definition alice : User := mkUser "u-alice".

Definition widget : Track.t :=
  {| Track.id := "t-1";
     Track.title := "Ship widget";
     Track.description := "two boxes";
     Track.category_id := None;
     Track.status := "pending";
     Track.priority := "medium";
     Track.tracking_number := "TRK-LOYW3V28-12ZA";
     Track.user_id := "u-alice";
     Track.created_at := 1700000000000;
     Track.updated_at := 1700000000000 |}.

Definition gadget : Track.t :=
  {| Track.id := "t-2";
     Track.title := "Return gadget";
     Track.description := "";
     Track.category_id := None;
     Track.status := "completed";
     Track.priority := "high";
     Track.tracking_number := "PKG-77";
     Track.user_id := "u-alice";
     Track.created_at := 1700000001000;
     Track.updated_at := 1700000005000 |}.

Definition store : Store.Database :=
  {| Store.tracks := [widget; gadget]; Store.track_updates := [] |}.

(** The store answers every request of the script. *)
Definition online (t : Z) (id : string) : Store.Env :=
  {| Store.reachable := true; Store.now := t; Store.uuid := id |}.
Definition offline : Store.Env :=
  {| Store.reachable := false; Store.now := 0; Store.uuid := "" |}.

Definition world (script : list Store.Env) : World :=
  {| db := store; script := script; sent := [] |}.

(** Four requests, all answered. *)
Definition four_answers : list Store.Env :=
  [online 1700000009000 "id-1"; online 1700000009001 "id-2";
   online 1700000009002 "id-3"; online 1700000009003 "id-4"].

(** The detail view of [widget], loaded, with "completed" chosen in the
    update form. *)
Definition detail : TrackDetail.State :=
  {| TrackDetail.track := Some widget;
     TrackDetail.updates := [];
     TrackDetail.loading := false;
     TrackDetail.showUpdateForm := true;
     TrackDetail.updateForm := TrackDetail.UpdateForm.mk "completed" "delivered" "Oslo";
     TrackDetail.isEditing := false;
     TrackDetail.editForm :=
       TrackDetail.EditForm.mk "Ship widget" "two boxes" "pending" "medium" |}.

Definition statuses (l : list string) : list Track.t :=
  map (fun st =>
         {| Track.id := ""; Track.title := ""; Track.description := "";
            Track.category_id := None; Track.status := st; Track.priority := "low";
            Track.tracking_number := ""; Track.user_id := "u-alice";
            Track.created_at := 0; Track.updated_at := 0 |}) l.

Definition list_state (query status priority : string) (by_ : TrackList.SortBy)
  : TrackList.State :=
  {| TrackList.tracks := 0%nat;
     TrackList.filteredTracks := 1%nat;
     TrackList.loading := false;
     TrackList.searchQuery := query;
     TrackList.statusFilter := status;
     TrackList.priorityFilter := priority;
     TrackList.sortBy := by_ |}.

Definition heap : Heap.t := [[widget; gadget]; []].

(** The creation form filled in, and a world to submit it in. *)
Definition create_form : CreateTrack.State :=
  {| CreateTrack.loading := false;
     CreateTrack.error := None;
     CreateTrack.form := CreateTrack.Form.mk "Ship gizmo" "" "pending" "medium" |}.

Definition blank_form : CreateTrack.State :=
  {| CreateTrack.loading := false;
     CreateTrack.error := None;
     CreateTrack.form := CreateTrack.Form.mk "" "no title given" "pending" "medium" |}.

(** An append on the created track, then an edit of [widget] that
    changes its status, with a store that answers all but one request. *)
Definition later_actions : list Action :=
  [AppendUpdate (Some alice) "t-3" detail;
   EditTrackFields (Some alice) "t-1" detail].

Definition nine_answers : list Store.Env :=
  [online 1700000010000 "t-3";
   online 1700000011000 "up-1"; offline; online 1700000011002 ""; online 1700000011003 "";
   online 1700000012000 ""; online 1700000012001 ""; online 1700000012002 "";
   online 1700000012003 ""].

(** A store where the insert of an append is stored and its track-status
    write is lost, and which answers the reads that follow. *)
Definition lagging_script : list Store.Env :=
  [online 1700000009000 "up-1"; offline; offline; offline;
   online 1700000009500 ""; online 1700000009501 ""].

(** The world after an append whose insert was stored and whose
    track-status write did not reach the store. *)
Definition lagging : World :=
  (TrackDetail.handleAddUpdate (Some alice) "t-1" detail (world lagging_script)).2.

(** Five tracks of alice, two of them cancelled. *)
Definition five : World :=
  {| db := {| Store.tracks :=
                statuses ["cancelled"; "pending"; "cancelled"; "pending"; "pending"];
              Store.track_updates := [] |};
     script := [online 1700000000000 ""];
     sent := [] |}.

(** The scenario of the specification: create "Ship widget" as pending,
    open its detail view, add the update "in_progress", then the update
    "completed"; the store answers every request. *)
Definition fresh : World :=
  {| db := {| Store.tracks := []; Store.track_updates := [] |};
     script := [online 100 "t-1";
                online 200 ""; online 201 "";
                online 300 "up-1"; online 301 ""; online 302 ""; online 303 "";
                online 400 "up-2"; online 401 ""; online 402 ""; online 403 ""];
     sent := [] |}.

Definition widget_form : CreateTrack.State :=
  CreateTrack.setForm (CreateTrack.Form.mk "Ship widget" "" "pending" "medium")
                      CreateTrack.initial.

(** The user fills in the update form. *)
Definition fill (status message : string) (s : TrackDetail.State) : TrackDetail.State :=
  TrackDetail.setUpdateForm (TrackDetail.UpdateForm.mk status message "") s.

Definition created : World :=
  (CreateTrack.submit (Some alice) 1700000000000 [1; 2; 35; 10; 7]%N widget_form fresh).2.

Definition opened : TrackDetail.State * World :=
  TrackDetail.loadTrackDetails (Some alice) "t-1" TrackDetail.initial TrackDetail.initial
    created.

Definition first_update : TrackDetail.State * World :=
  TrackDetail.handleAddUpdate (Some alice) "t-1"
    (fill "in_progress" "left warehouse" opened.1) opened.2.

Definition second_update : TrackDetail.State * World :=
  TrackDetail.handleAddUpdate (Some alice) "t-1"
    (fill "completed" "" first_update.1) first_update.2.

End Ex.

(* ===================================================================== *)
(** * The rest of the components *)
(* ===================================================================== *)

(** ** TrackDetail: deleting a track *)

(** [DELETE FROM tracks WHERE id = ...]: the rows that carry the identifier
    and that the session's user owns (delete policy) are removed, and with
    each removed row the updates that refer to it ([ON DELETE CASCADE],
    which no policy filters).  Removing no row is not an error. *)
Definition delete_tracks (uid track_id : string) (d : Store.Database) : Store.Database :=
  let deleted r := Store.owns_track uid r && String.eqb (Track.id r) track_id in
  let gone := List.filter deleted (Store.tracks d) in
  {| Store.tracks := List.filter (fun r => negb (deleted r)) (Store.tracks d);
     Store.track_updates :=
       List.filter
         (fun u => negb (existsb (fun r => String.eqb (Track.id r) (TrackUpdate.track_id u))
                                 gone))
         (Store.track_updates d) |}.

(** [handleDeleteTrack]: its single request is answered by [e] on the
    store [d]; [confirm] is the answer to the confirmation dialog, asked
    only of a signed-in user.  The result is the store afterwards and
    whether [onBack] was called. *)
Definition handleDeleteTrack (user : option User) (trackId : string) (confirm : bool)
    (e : Store.Env) (d : Store.Database) : Store.Database * bool :=
  match user with
  | None => (d, false)
  | Some user =>
      if negb confirm then (d, false)
      else if Store.reachable e
           then (delete_tracks (user_id user) trackId d, true)
           else (d, false)
  end.

(** ** TrackList: loading the tracks *)

Definition setTracks (v : Heap.ref) (s : TrackList.State) : TrackList.State :=
  TrackList.mkState v (TrackList.filteredTracks s) (TrackList.loading s)
    (TrackList.searchQuery s) (TrackList.statusFilter s) (TrackList.priorityFilter s)
    (TrackList.sortBy s).

Definition setListLoading (v : bool) (s : TrackList.State) : TrackList.State :=
  TrackList.mkState (TrackList.tracks s) (TrackList.filteredTracks s) v
    (TrackList.searchQuery s) (TrackList.statusFilter s) (TrackList.priorityFilter s)
    (TrackList.sortBy s).

Definition setSearchQuery (v : string) (s : TrackList.State) : TrackList.State :=
  TrackList.mkState (TrackList.tracks s) (TrackList.filteredTracks s) (TrackList.loading s)
    v (TrackList.statusFilter s) (TrackList.priorityFilter s) (TrackList.sortBy s).

(** [loadTracks]: the rows the store returns arrive as a new array. *)
Definition loadTracks (user : option User) (s : TrackList.State) (h : Heap.t)
  : M (TrackList.State * Heap.t) :=
  match user with
  | None => ret (s, h)
  | Some user =>
      let s := setListLoading true s in
      res <- supabase.select_tracks (user_id user) (user_id user) ;;
      let '(s, h) :=
        match Store.data res, Store.error res with
        | Some data, None =>
            let '(a, h) := Heap.alloc data h in (setTracks a s, h)
        | _, _ => (s, h)
        end in
      ret (setListLoading false s, h)
  end.

(** The two effects of the list after a refresh: [loadTracks], then, the
    tracks having changed, [filterAndSortTracks]. *)
Definition refresh (toLowerCase : string -> string)
    (localeCompare : string -> string -> Z) (user : option User)
    (s : TrackList.State) (h : Heap.t) : M (TrackList.State * Heap.t) :=
  r <- loadTracks user s h ;;
  ret (TrackList.filterAndSortTracks toLowerCase localeCompare r.1 r.2).

(** ** Dashboard: which screen is shown *)

Module DashboardView.

Inductive View := ListView | DetailView | CreateView.

Record State := mkState {
  view : View;
  selectedTrack : option string;
  refreshKey : Z;
}.

Definition initial : State := mkState ListView None 0.

Definition handleViewTrack (trackId : string) (s : State) : State :=
  {| view := DetailView; selectedTrack := Some trackId; refreshKey := refreshKey s |}.

Definition handleBack (s : State) : State :=
  {| view := ListView; selectedTrack := None; refreshKey := refreshKey s + 1 |}.

(** The "New Track" button: [setView('create')]. *)
Definition newTrack (s : State) : State :=
  {| view := CreateView; selectedTrack := selectedTrack s; refreshKey := refreshKey s |}.

(** What the main area mounts: the list (with the refresh key it is given),
    the detail of a track, the creation form, or nothing. *)
Inductive Screen :=
| TrackListScreen (refreshKey : Z)
| TrackDetailScreen (trackId : string)
| CreateTrackScreen
| Blank.

Definition mounted (s : State) : Screen :=
  match view s with
  | ListView => TrackListScreen (refreshKey s)
  | DetailView =>
      match selectedTrack s with
      | Some trackId => if JsString.truthy trackId then TrackDetailScreen trackId else Blank
      | None => Blank
      end
  | CreateView => CreateTrackScreen
  end.

(** What the user and the mounted screens do to the dashboard. *)
Inductive Event :=
| ViewTrack (trackId : string)
| Back
| NewTrack.

Definition step (s : State) (ev : Event) : State :=
  match ev with
  | ViewTrack trackId => handleViewTrack trackId s
  | Back => handleBack s
  | NewTrack => newTrack s
  end.

Definition run (evs : list Event) (s : State) : State := fold_left step evs s.

(** The identifier an event carries is not the empty string. *)
Definition carries_id (ev : Event) : Prop :=
  match ev with
  | ViewTrack trackId => trackId <> ""%string
  | _ => True
  end.

Definition is_back (ev : Event) : bool :=
  match ev with Back => true | _ => false end.

(** A dashboard on the detail screen has a non-empty identifier selected. *)
Definition Selected (s : State) : Prop :=
  view s = DetailView ->
  exists trackId, selectedTrack s = Some trackId /\ trackId <> ""%string.

End DashboardView.

(** ** Data for more examples *)

Module More.

(** The detail view of [widget] with the edit form open: another title and
    the status "cancelled" typed in. *)
Definition editing : TrackDetail.State :=
  TrackDetail.setIsEditing true
    (TrackDetail.setEditForm
       (TrackDetail.EditForm.mk "Ship two widgets" "two boxes" "cancelled" "medium")
       Ex.detail).

(** A track of another user, and a store that holds it next to [widget]. *)
Definition crate : Track.t :=
  {| Track.id := "t-9";
     Track.title := "Crate";
     Track.description := "";
     Track.category_id := None;
     Track.status := "pending";
     Track.priority := "low";
     Track.tracking_number := "TRK-BOB";
     Track.user_id := "u-bob";
     Track.created_at := 1700000002000;
     Track.updated_at := 1700000002000 |}.

Definition twelve_answers : list Store.Env :=
  [Ex.online 1700000020000 "n-1"; Ex.online 1700000020001 "n-2";
   Ex.online 1700000020002 "n-3"; Ex.online 1700000020003 "n-4";
   Ex.online 1700000020004 "n-5"; Ex.online 1700000020005 "n-6";
   Ex.online 1700000020006 "n-7"; Ex.online 1700000020007 "n-8";
   Ex.online 1700000020008 "n-9"; Ex.online 1700000020009 "n-10";
   Ex.online 1700000020010 "n-11"; Ex.online 1700000020011 "n-12"].

Definition shared : World :=
  {| db := {| Store.tracks := [Ex.widget; crate]; Store.track_updates := [] |};
     script := twelve_answers;
     sent := [] |}.

(** Alice's view pointed at the identifier of [crate]: an edit and an
    append. *)
Definition on_crate : list Action :=
  [EditTrackFields (Some Ex.alice) "t-9" editing;
   AppendUpdate (Some Ex.alice) "t-9" Ex.detail].

Definition three_actions : list Action :=
  [AppendUpdate (Some Ex.alice) "t-1" Ex.detail;
   EditTrackFields (Some Ex.alice) "t-1" editing;
   AppendUpdate (Some Ex.alice) "t-2" Ex.detail].

(** The store of the scenario after its two updates, answering again. *)
Definition after_scenario : World :=
  {| db := db Ex.second_update.2; script := twelve_answers; sent := [] |}.

End More.

(** ** Notions for the properties of these *)

(** The rows of [tracks] a user owns, in table order. *)
Definition owned_tracks (uid : string) (d : Store.Database) : list Track.t :=
  List.filter (fun r => String.eqb (Track.user_id r) uid) (Store.tracks d).

(** Every action of the list is run for the user [u]. *)
Definition run_by (u : User) (a : Action) : Prop :=
  match a with
  | EditTrackFields user _ _ | AppendUpdate user _ _ => user = Some u
  end.

(** The edit form with another title. *)
Definition retitle (title : string) (s : TrackDetail.State) : TrackDetail.State :=
  TrackDetail.setEditForm
    {| TrackDetail.EditForm.title := title;
       TrackDetail.EditForm.description :=
         TrackDetail.EditForm.description (TrackDetail.editForm s);
       TrackDetail.EditForm.status := TrackDetail.EditForm.status (TrackDetail.editForm s);
       TrackDetail.EditForm.priority :=
         TrackDetail.EditForm.priority (TrackDetail.editForm s) |} s.


(* ===================================================================== *)
(** * Requests: what sending one does to the world *)
(* ===================================================================== *)

Section SendFacts.

Context {A : Type}.
Implicit Types (r : Request) (w : World).

Lemma send_sent r
    (exec : Store.Env -> Store.Database -> Store.Response A * Store.Database) w :
  sent (send r exec w).2 = sent w ++ [(r, is_ok (send r exec w).1)].
Proof.
  unfold send. destruct (script w) as [|e rest]; [reflexivity|].
  destruct (Store.reachable e); [|reflexivity].
  destruct (exec e (db w)); reflexivity.
Qed.

Lemma send_read_db r
    (exec : Store.Env -> Store.Database -> Store.Response A * Store.Database) w :
  (forall e d, (exec e d).2 = d) -> db (send r exec w).2 = db w.
Proof.
  intros Hexec. unfold send. destruct (script w) as [|e rest]; [reflexivity|].
  destruct (Store.reachable e); [|reflexivity].
  specialize (Hexec e (db w)). destruct (exec e (db w)); simpl in *; congruence.
Qed.

End SendFacts.

(** A write either is stored and acknowledged, or comes back with an error
    and the store is as before. *)
Lemma send_write_cases r f w :
  (exists e rest d',
      script w = e :: rest /\ Store.reachable e = true /\ f e (db w) = Some d'
      /\ send r (write f) w
         = (Store.ok None, {| db := d'; script := rest; sent := sent w ++ [(r, true)] |}))
  \/ (exists msg,
         send r (write f) w
         = (Store.failed msg,
            {| db := db w; script := tail (script w); sent := sent w ++ [(r, false)] |})).
Proof.
  unfold send, write. destruct (script w) as [|e rest]; [right; eauto|].
  destruct (Store.reachable e) eqn:He; [|right; eauto].
  destruct (f e (db w)) as [d'|] eqn:Hf.
  - left. exists e, rest, d'. auto.
  - right. eauto.
Qed.

Lemma issued_app w w' l : sent w' = sent w ++ l -> issued w w' = l.
Proof. intros H. unfold issued. rewrite H. apply drop_app_length. Qed.

Lemma issued_refl w : issued w w = [].
Proof. apply issued_app. symmetry. apply app_nil_r. Qed.

(* ===================================================================== *)
(** * The store: what a patch leaves alone *)
(* ===================================================================== *)

Lemma update_row_inv uid patch trackId e r :
  TrackPatch.id patch = None ->
  TrackPatch.tracking_number patch = None ->
  TrackPatch.user_id patch = None ->
  TrackPatch.created_at patch = None ->
  let r' := Store.update_row uid patch trackId e r in
  Track.id r' = Track.id r
  /\ Track.tracking_number r' = Track.tracking_number r
  /\ Track.user_id r' = Track.user_id r
  /\ Track.created_at r' = Track.created_at r.
Proof.
  intros Hid Htn Hu Hc. unfold Store.update_row.
  destruct (_ && _); simpl; [|auto].
  rewrite Hid, Htn, Hu, Hc. auto.
Qed.

Lemma update_tracks_updates uid patch trackId e d d' :
  Store.update_tracks uid patch trackId e d = Some d' ->
  Store.track_updates d' = Store.track_updates d
  /\ Store.tracks d' = map (Store.update_row uid patch trackId e) (Store.tracks d).
Proof.
  unfold Store.update_tracks. destruct (_ && _); [|discriminate].
  intros [= <-]. auto.
Qed.

Lemma insert_track_update_tracks uid row e d d' :
  Store.insert_track_update uid row e d = Some d' ->
  Store.tracks d' = Store.tracks d
  /\ exists u, Store.track_updates d' = Store.track_updates d ++ [u]
               /\ TrackUpdate.status u = TrackUpdateInsert.status row
               /\ TrackUpdate.track_id u = TrackUpdateInsert.track_id row.
Proof.
  unfold Store.insert_track_update. destruct (_ && _); [|discriminate].
  intros [= <-]. simpl. eauto.
Qed.

(* ===================================================================== *)
(** * TrackDetail: loading, appending, editing *)
(* ===================================================================== *)

Lemma bind_run {A B} (m : M A) (k : A -> M B) w : bind m k w = k (m w).1 (m w).2.
Proof. unfold bind. destruct (m w). reflexivity. Qed.

Lemma select_track_run uid id user_id w :
  db (supabase.select_track_maybeSingle uid id user_id w).2 = db w
  /\ sent (supabase.select_track_maybeSingle uid id user_id w).2
     = sent w ++ [(SelectTrack id user_id,
                   is_ok (supabase.select_track_maybeSingle uid id user_id w).1)].
Proof.
  unfold supabase.select_track_maybeSingle. split; [|apply send_sent].
  apply send_read_db. intros e d.
  destruct (Store.select_track uid id user_id d) as [|? [|? ?]]; reflexivity.
Qed.

Lemma select_track_updates_run uid id w :
  db (supabase.select_track_updates uid id w).2 = db w
  /\ sent (supabase.select_track_updates uid id w).2
     = sent w ++ [(SelectTrackUpdates id, is_ok (supabase.select_track_updates uid id w).1)].
Proof.
  unfold supabase.select_track_updates. split; [|apply send_sent].
  apply send_read_db. reflexivity.
Qed.

(** Loading the details only reads: the store is as before and the
    requests sent are selects. *)
Lemma loadTrackDetails_reads user trackId captured cur w :
  let w' := (TrackDetail.loadTrackDetails user trackId captured cur w).2 in
  db w' = db w
  /\ exists l, sent w' = sent w ++ l /\ Forall (fun x => is_write x.1 = false) l.
Proof.
  unfold TrackDetail.loadTrackDetails. destruct user as [u|]; simpl.
  - rewrite !bind_run. simpl.
    set (w1 := (supabase.select_track_maybeSingle _ _ _ w).2).
    destruct (select_track_run (user_id u) trackId (user_id u) w) as [Hd1 Hs1].
    destruct (select_track_updates_run (user_id u) trackId w1) as [Hd2 Hs2].
    fold w1 in Hd1, Hs1. split; [congruence|].
    eexists. split.
    + rewrite Hs2, Hs1, <- app_assoc. reflexivity.
    + repeat constructor.
  - split; [reflexivity|]. exists []. split; [symmetry; apply app_nil_r|constructor].
Qed.

(** The shape of a run of [handleAddUpdate]: nothing is sent (no user or
    no track loaded); or the insert comes back with an error and that is
    all; or the insert is stored, the track-status write follows, and the
    details are loaded again. *)
Lemma handleAddUpdate_cases user trackId s w :
  let r := TrackDetail.handleAddUpdate user trackId s w in
  (r = (s, w) /\ (user = None \/ TrackDetail.track s = None))
  \/ (exists u,
         user = Some u
         /\ r.1 = s /\ db r.2 = db w
         /\ sent r.2 = sent w ++ [(InsertTrackUpdate (append_row trackId s u), false)])
  \/ (exists u e rest d1 (ok : bool) d2 l,
         user = Some u
         /\ script w = e :: rest /\ Store.reachable e = true
         /\ Store.insert_track_update (user_id u) (append_row trackId s u) e (db w)
            = Some d1
         /\ (if ok
             then exists e2 rest2,
                 rest = e2 :: rest2 /\ Store.reachable e2 = true
                 /\ Store.update_tracks (user_id u) (append_patch s) trackId e2 d1
                    = Some d2
             else d2 = d1)
         /\ db r.2 = d2
         /\ sent r.2 = sent w ++ (InsertTrackUpdate (append_row trackId s u), true)
                                  :: (UpdateTracks (append_patch s) trackId, ok) :: l
         /\ Forall (fun x => is_write x.1 = false) l).
Proof.
  intros r. subst r. unfold TrackDetail.handleAddUpdate.
  destruct user as [u|]; [|left; auto].
  destruct (TrackDetail.track s) as [t|]; [|left; auto].
  right. fold (append_row trackId s u). fold (append_patch s).
  set (row := append_row trackId s u). set (patch := append_patch s).
  unfold supabase.insert_track_update. rewrite bind_run.
  destruct (send_write_cases (InsertTrackUpdate row)
              (Store.insert_track_update (user_id u) row) w)
    as [(e & rest & d1 & Hs & He & Hf & Hrun) | (msg & Hrun)]; rewrite Hrun;
    cbn [fst snd Store.error Store.ok Store.failed].
  - right. unfold supabase.update_tracks. rewrite bind_run.
    set (w1 := {| db := d1; script := rest;
                  sent := sent w ++ [(InsertTrackUpdate row, true)] |}).
    destruct (send_write_cases (UpdateTracks patch trackId)
                (Store.update_tracks (user_id u) patch trackId) w1)
      as [(e2 & rest2 & d2 & Hs2 & He2 & Hf2 & Hrun2) | (msg & Hrun2)]; rewrite Hrun2;
      cbn [fst snd].
    + match goal with |- context [TrackDetail.loadTrackDetails ?a ?b ?c ?d ?w2] =>
        destruct (loadTrackDetails_reads a b c d w2) as (Hdb & l & Hsent & Hl) end.
      cbn [db sent] in Hdb, Hsent.
      exists u, e, rest, d1, true, d2, l. repeat split; auto.
      * exists e2, rest2. auto.
      * rewrite Hsent. subst w1. cbn [sent]. rewrite <- !app_assoc. reflexivity.
    + match goal with |- context [TrackDetail.loadTrackDetails ?a ?b ?c ?d ?w2] =>
        destruct (loadTrackDetails_reads a b c d w2) as (Hdb & l & Hsent & Hl) end.
      cbn [db sent] in Hdb, Hsent.
      exists u, e, rest, d1, false, d1, l. repeat split; auto.
      rewrite Hsent. subst w1. cbn [sent]. rewrite <- !app_assoc. reflexivity.
  - left. exists u. auto.
Qed.

Lemma distinct_inj {A} (f : A -> string) (l : list A) a b :
  Store.distinct (map f l) = true -> In a l -> In b l -> f a = f b -> a = b.
Proof.
  induction l as [|x l IH]; simpl; [tauto|].
  intros H Ha Hb Hf. apply andb_prop in H as [Hx Hl].
  assert (Hfresh : forall c, In c l -> f x <> f c).
  { intros c Hc Heq. apply negb_true_iff in Hx.
    assert (existsb (String.eqb (f x)) (map f l) = true); [|congruence].
    apply existsb_exists. exists (f c). split; [apply in_map, Hc|].
    rewrite Heq. apply String.eqb_refl. }
  destruct Ha as [->|Ha], Hb as [->|Hb]; auto.
  - exfalso. eapply Hfresh; eauto.
  - exfalso. eapply Hfresh; eauto.
Qed.

Lemma map_update_row_ids uid patch trackId e l :
  TrackPatch.id patch = None ->
  map Track.id (map (Store.update_row uid patch trackId e) l) = map Track.id l.
Proof.
  intros Hid. rewrite map_map. apply map_ext. intros r.
  unfold Store.update_row. destruct (_ && _); simpl; [rewrite Hid|]; reflexivity.
Qed.

(** The policy of [track_updates]: an insert is stored only for a track
    the author owns. *)
Lemma insert_track_update_owner uid row e d d' :
  Store.insert_track_update uid row e d = Some d' ->
  exists r, In r (Store.tracks d)
            /\ Track.id r = TrackUpdateInsert.track_id row
            /\ Track.user_id r = uid.
Proof.
  unfold Store.insert_track_update.
  destruct (String.eqb uid _) eqn:Hu; [|discriminate]; simpl.
  destruct (Store.owns_parent_track _ _ _) eqn:Hv; [|discriminate].
  intros _. unfold Store.owns_parent_track in Hv.
  apply existsb_exists in Hv as (r & Hin & Hr).
  apply andb_prop in Hr as [H1 H2].
  apply String.eqb_eq in H1, H2. exists r. simpl in H1. auto.
Qed.

(** C1 (append sets the status).  When an append of status [S] on the track
    [T] completes successfully, that is when both its insert and its
    track-status write come back without error, the row of [T] in the store
    has status [S] (and its other columns, [updated_at] apart, are as
    before), and the ledger has gained one entry with status [S] for
    [T]. *)
Theorem handleAddUpdate_sets_status user trackId s w i T S :
  let r := TrackDetail.handleAddUpdate user trackId s w in
  TrackDetail.UpdateForm.status (TrackDetail.updateForm s) = S ->
  Store.tracks (db w) !! i = Some T ->
  Track.id T = trackId ->
  (exists row patch rest,
      issued w r.2
      = (InsertTrackUpdate row, true) :: (UpdateTracks patch trackId, true) :: rest) ->
  (exists T',
      Store.tracks (db r.2) !! i = Some T'
      /\ Track.status T' = S
      /\ Track.id T' = Track.id T
      /\ Track.title T' = Track.title T
      /\ Track.description T' = Track.description T
      /\ Track.priority T' = Track.priority T
      /\ Track.tracking_number T' = Track.tracking_number T)
  /\ (exists u,
         Store.track_updates (db r.2) = Store.track_updates (db w) ++ [u]
         /\ TrackUpdate.status u = S
         /\ TrackUpdate.track_id u = trackId).
Proof.
  intros r HS HT Hid (row0 & patch0 & rest0 & Hissued). subst r.
  destruct (handleAddUpdate_cases user trackId s w)
    as [[Hr _] | [(u & _ & _ & _ & Hsent) | Hstored]].
  3: destruct Hstored
       as (u & e & rest & d1 & ok & d2 & l & Hu & Hs & He & Hins & Hupd & Hdb & Hsent & Hl).
  - rewrite Hr in Hissued. cbn [snd] in Hissued. rewrite issued_refl in Hissued. discriminate.
  - apply issued_app in Hsent. rewrite Hsent in Hissued. discriminate.
  - apply issued_app in Hsent. rewrite Hsent in Hissued.
    injection Hissued as _ _ Hok _. subst ok.
    destruct Hupd as (e2 & rest2 & _ & _ & Hupd).
    destruct (insert_track_update_tracks _ _ _ _ _ Hins) as (Htr & upd & Hupds & Hst & Htid).
    destruct (insert_track_update_owner _ _ _ _ _ Hins) as (own & Hin & Hownid & Hown).
    pose proof Hupd as Hupd'. apply update_tracks_updates in Hupd' as [Hu2 Ht2].
    assert (Hdist : Store.distinct (map Track.id (Store.tracks d1)) = true).
    { revert Hupd. unfold Store.update_tracks.
      destruct (forallb _ _); [|discriminate]; simpl.
      destruct (Store.distinct (map Track.id _)) eqn:Hd; [|discriminate].
      intros _. rewrite map_update_row_ids in Hd; auto. }
    assert (HTown : Track.user_id T = user_id u).
    { rewrite <- Hown. f_equal.
      apply (distinct_inj Track.id (Store.tracks d1)); auto.
      - rewrite Htr. apply list_elem_of_In. eapply list_elem_of_lookup_2; eauto.
      - rewrite Htr. auto.
      - simpl in Hownid. congruence. }
    rewrite Hdb. split.
    + exists (Store.update_row (user_id u) (append_patch s) trackId e2 T).
      split.
      * rewrite Ht2, Htr. rewrite list_lookup_fmap_Some. eauto.
      * unfold Store.update_row, Store.owns_track.
        rewrite HTown, Hid, !String.eqb_refl. simpl. repeat split; auto.
    + exists upd. rewrite Hu2. simpl in Hst, Htid. repeat split; congruence.
Qed.

(** An instance: alice appends "completed" to her track [widget] and the
    store answers every request. *)
Lemma handleAddUpdate_sets_status_witness :
  exists T',
    Store.tracks
      (db (TrackDetail.handleAddUpdate (Some Ex.alice) "t-1" Ex.detail
             (Ex.world Ex.four_answers)).2) !! 0%nat = Some T'
    /\ Track.status T' = "completed"%string.
Proof.
  destruct (handleAddUpdate_sets_status (Some Ex.alice) "t-1" Ex.detail
              (Ex.world Ex.four_answers) 0%nat Ex.widget "completed")
    as [(T' & Hlook & Hstatus & _) _].
  - reflexivity.
  - reflexivity.
  - reflexivity.
  - eexists _, _, _. vm_compute. reflexivity.
  - exists T'. split; assumption.
Defined.

(** C2 (the insert comes first and gates the track-status write).  In a
    run of the append: the first request sent, if any, is the insert of the
    update row; a write to [tracks] is sent only directly after that insert,
    and only when the insert was stored; and when the insert comes back with
    an error nothing else is sent, the store is as before and so is the
    state of the view. *)
Theorem handleAddUpdate_insert_gates_status_write user trackId s w :
  let r := TrackDetail.handleAddUpdate user trackId s w in
  (issued w r.2 = [] /\ r.1 = s /\ db r.2 = db w
   \/ exists row ok rest, issued w r.2 = (InsertTrackUpdate row, ok) :: rest)
  /\ (forall pre patch id ok post,
         issued w r.2 = pre ++ (UpdateTracks patch id, ok) :: post ->
         exists row, pre = [(InsertTrackUpdate row, true)])
  /\ (forall row rest,
         issued w r.2 = (InsertTrackUpdate row, false) :: rest ->
         rest = [] /\ db r.2 = db w /\ r.1 = s).
Proof.
  intros r. subst r.
  destruct (handleAddUpdate_cases user trackId s w)
    as [[Hr _] | [(u & _ & Hst & Hdb & Hsent) | Hstored]].
  3: destruct Hstored
       as (u & e & rest & d1 & ok & d2 & l & Hu & Hs & He & Hins & Hupd & Hdb & Hsent & Hl).
  - rewrite Hr. cbn [fst snd]. rewrite issued_refl. split; [|split].
    + left. auto.
    + intros pre ? ? ? ? H. destruct pre; discriminate.
    + discriminate.
  - apply issued_app in Hsent. rewrite Hsent. split; [|split].
    + right. eauto.
    + intros [|x [|y pre]] ? ? ? ? H; discriminate.
    + intros row rest [= _ <-]. auto.
  - apply issued_app in Hsent. rewrite Hsent. split; [|split].
    + right. eauto.
    + intros [|x [|y pre]] patch id ok' post H.
      * discriminate.
      * injection H as Hx _. subst x. eauto.
      * exfalso. injection H as _ _ H. rewrite H in Hl.
        apply Forall_app in Hl as [_ Hl]. inversion Hl as [|? ? Hw _]. discriminate.
    + discriminate.
Qed.

(** The shape of a run of [handleUpdateTrack]. *)
Lemma handleUpdateTrack_cases user trackId s w :
  let patch := edit_patch s in
  let r := TrackDetail.handleUpdateTrack user trackId s w in
  (r = (s, w) /\ user = None)
  \/ (r.1 = s /\ db r.2 = db w /\ sent r.2 = sent w ++ [(UpdateTracks patch trackId, false)])
  \/ (exists u e rest l,
        user = Some u /\ script w = e :: rest /\ Store.reachable e = true
        /\ Store.update_tracks (user_id u) patch trackId e (db w) = Some (db r.2)
        /\ sent r.2 = sent w ++ (UpdateTracks patch trackId, true) :: l
        /\ Forall (fun x => is_write x.1 = false) l).
Proof.
  intros patch r. subst r patch. unfold TrackDetail.handleUpdateTrack.
  destruct user as [u|]; [|left; auto].
  right. fold (edit_patch s). set (patch := edit_patch s).
  unfold supabase.update_tracks. rewrite bind_run.
  destruct (send_write_cases (UpdateTracks patch trackId)
              (Store.update_tracks (user_id u) patch trackId) w)
    as [(e & rest & d1 & Hs & He & Hf & Hrun) | (msg & Hrun)]; rewrite Hrun;
    cbn [fst snd Store.error Store.ok Store.failed].
  - right.
    match goal with |- context [TrackDetail.loadTrackDetails ?a ?b ?c ?d ?w2] =>
      destruct (loadTrackDetails_reads a b c d w2) as (Hdb & l & Hsent & Hl) end.
    cbn [db sent] in Hdb, Hsent.
    exists u, e, rest, l. rewrite Hdb. repeat split; auto.
    rewrite Hsent, <- app_assoc. reflexivity.
  - left. auto.
Qed.

(* ===================================================================== *)
(** * Editing leaves the ledger alone *)
(* ===================================================================== *)

Lemma owns_parent_track_patched uid d d' u (g : Track.t -> Track.t) :
  Store.tracks d' = map g (Store.tracks d) ->
  (forall r, Track.id (g r) = Track.id r /\ Track.user_id (g r) = Track.user_id r) ->
  Store.owns_parent_track uid d' u = Store.owns_parent_track uid d u.
Proof.
  intros Ht Hg. unfold Store.owns_parent_track. rewrite Ht. clear Ht.
  induction (Store.tracks d) as [|r l IH]; simpl; [reflexivity|].
  destruct (Hg r) as [-> ->]. rewrite IH. reflexivity.
Qed.

Lemma select_track_updates_patched uid track_id d d' (g : Track.t -> Track.t) :
  Store.tracks d' = map g (Store.tracks d) ->
  Store.track_updates d' = Store.track_updates d ->
  (forall r, Track.id (g r) = Track.id r /\ Track.user_id (g r) = Track.user_id r) ->
  Store.select_track_updates uid track_id d' = Store.select_track_updates uid track_id d.
Proof.
  intros Ht Hu Hg. unfold Store.select_track_updates. rewrite Hu. f_equal.
  apply filter_ext. intros u. rewrite (owns_parent_track_patched uid d d' u g); auto.
Qed.

(** C7 (an edit writes no ledger entry).  Saving the edit form, whatever
    it holds (a changed status included) and whatever the store answers,
    sends no insert, leaves the table of updates as it was, and every
    reader is given the same updates, in the same order, for every track
    as before the edit. *)
Theorem handleUpdateTrack_keeps_ledger user trackId s w :
  let w' := (TrackDetail.handleUpdateTrack user trackId s w).2 in
  Store.track_updates (db w') = Store.track_updates (db w)
  /\ (forall uid track_id,
         Store.select_track_updates uid track_id (db w')
         = Store.select_track_updates uid track_id (db w))
  /\ Forall (fun x => forall row, x.1 <> InsertTrackUpdate row) (issued w w').
Proof.
  intros w'. subst w'.
  assert (Hnowrite : forall l : list (Request * bool),
             Forall (fun x => is_write x.1 = false) l ->
             Forall (fun x => forall row, x.1 <> InsertTrackUpdate row) l).
  { intros l Hl. eapply Forall_impl; [exact Hl|].
    intros [rq ok] Hw row Heq. cbn [fst] in *. subst rq. discriminate. }
  destruct (handleUpdateTrack_cases user trackId s w)
    as [[Hr _] | [(_ & Hdb & Hsent) | (u & e & rest & l & _ & _ & _ & Hupd & Hsent & Hl)]].
  - rewrite Hr. cbn [snd]. rewrite issued_refl. auto.
  - apply issued_app in Hsent. rewrite Hsent, Hdb.
    split; [reflexivity|]. split; [reflexivity|].
    constructor; [|constructor]. discriminate.
  - apply issued_app in Hsent. rewrite Hsent.
    apply update_tracks_updates in Hupd as [Hu Ht].
    split; [exact Hu|]. split.
    + intros uid track_id.
      eapply select_track_updates_patched; eauto.
      intros r. edestruct update_row_inv as (H1 & _ & H3 & _); [..|split; [exact H1|exact H3]];
        reflexivity.
    + constructor; [discriminate|auto].
Qed.

(* ===================================================================== *)
(** * The tracking number is written once *)
(* ===================================================================== *)

(** The identity columns of the rows of [tracks], in table order. *)
Lemma perform_keeps_tracking_numbers a w :
  map (fun r => (Track.id r, Track.tracking_number r)) (Store.tracks (db (perform a w).2))
  = map (fun r => (Track.id r, Track.tracking_number r)) (Store.tracks (db w)).
Proof.
  assert (Hmap : forall uid patch trackId e d d',
             TrackPatch.id patch = None -> TrackPatch.tracking_number patch = None ->
             TrackPatch.user_id patch = None -> TrackPatch.created_at patch = None ->
             Store.update_tracks uid patch trackId e d = Some d' ->
             map (fun r => (Track.id r, Track.tracking_number r)) (Store.tracks d')
             = map (fun r => (Track.id r, Track.tracking_number r)) (Store.tracks d)).
  { intros uid patch trackId e d d' H1 H2 H3 H4 Hupd.
    apply update_tracks_updates in Hupd as [_ ->]. rewrite map_map.
    apply map_ext. intros r.
    destruct (update_row_inv uid patch trackId e r H1 H2 H3 H4) as (-> & -> & _).
    reflexivity. }
  destruct a as [user trackId s | user trackId s]; cbn [perform].
  - destruct (handleUpdateTrack_cases user trackId s w)
      as [[Hr _] | [(_ & Hdb & _) | (u & e & rest & l & _ & _ & _ & Hupd & _)]].
    + rewrite Hr. reflexivity.
    + rewrite Hdb. reflexivity.
    + eapply Hmap; [..|exact Hupd]; reflexivity.
  - destruct (handleAddUpdate_cases user trackId s w)
      as [[Hr _] | [(u & _ & _ & Hdb & _) | Hstored]].
    + rewrite Hr. reflexivity.
    + rewrite Hdb. reflexivity.
    + destruct Hstored
        as (u & e & rest & d1 & ok & d2 & l & _ & _ & _ & Hins & Hupd & Hdb & _).
      rewrite Hdb. apply insert_track_update_tracks in Hins as [Ht _]. rewrite <- Ht.
      destruct ok.
      * destruct Hupd as (e2 & rest2 & _ & _ & Hupd).
        eapply Hmap; [..|exact Hupd]; reflexivity.
      * subst d2. reflexivity.
Qed.

Lemma perform_all_keeps_tracking_numbers actions w :
  map (fun r => (Track.id r, Track.tracking_number r))
      (Store.tracks (db (perform_all actions w)))
  = map (fun r => (Track.id r, Track.tracking_number r)) (Store.tracks (db w)).
Proof.
  revert w. induction actions as [|a actions IH]; intros w; simpl; [reflexivity|].
  rewrite IH. apply perform_keeps_tracking_numbers.
Qed.

(** A creation that ends with [onBack()] stored one new row, the last of
    the table, carrying the generated tracking number. *)
Lemma handleSubmit_created user now rnd cs w :
  let r := CreateTrack.handleSubmit user now rnd cs w in
  CreateTrack.onBack_called r.1 = true ->
  exists e rest T,
    script w = e :: rest
    /\ Store.tracks (db r.2) = Store.tracks (db w) ++ [T]
    /\ Store.track_updates (db r.2) = Store.track_updates (db w)
    /\ Track.id T = Store.uuid e
    /\ Track.tracking_number T = generateTrackingNumber now rnd
    /\ Track.title T = CreateTrack.Form.title (CreateTrack.form cs)
    /\ Track.status T = CreateTrack.Form.status (CreateTrack.form cs).
Proof.
  intros r. subst r. unfold CreateTrack.handleSubmit.
  destruct user as [u|]; [|discriminate].
  unfold supabase.insert_track. rewrite bind_run.
  match goal with |- context [send ?rq (write ?f) w] =>
    destruct (send_write_cases rq f w)
      as [(e & rest & d1 & Hs & He & Hf & Hrun) | (msg & Hrun)]; rewrite Hrun end;
    cbn [fst snd Store.error Store.ok Store.failed ret CreateTrack.onBack_called db];
    [|discriminate].
  intros _. unfold Store.insert_track in Hf.
  destruct (_ && _) in Hf; [|discriminate]. injection Hf as <-.
  eexists e, rest, _. cbn. repeat split; reflexivity || assumption.
Qed.

(** C6 (the tracking number is assigned once).  A creation stores its row
    with the tracking number generated for it; after any sequence of edits
    and appends, run by any views on any tracks and answered by the store
    in any way, every row of [tracks] still carries the identifier and the
    tracking number it had, the created row with the generated one
    included. *)
Theorem tracking_number_assigned_once user now rnd cs w actions :
  let created := CreateTrack.handleSubmit user now rnd cs w in
  CreateTrack.onBack_called created.1 = true ->
  exists id,
    map (fun r => (Track.id r, Track.tracking_number r))
        (Store.tracks (db (perform_all actions created.2)))
    = map (fun r => (Track.id r, Track.tracking_number r)) (Store.tracks (db w))
      ++ [(id, generateTrackingNumber now rnd)].
Proof.
  intros created Hback.
  destruct (handleSubmit_created user now rnd cs w Hback)
    as (e & rest & T & _ & Ht & _ & Hid & Htn & _).
  exists (Store.uuid e). rewrite perform_all_keeps_tracking_numbers.
  subst created. rewrite Ht, map_app. simpl. rewrite Hid, Htn. reflexivity.
Qed.

(** An instance: alice creates a track, appends to it (the track-status
    write is lost) and edits another track. *)
Lemma tracking_number_assigned_once_witness :
  exists id,
    map (fun r => (Track.id r, Track.tracking_number r))
        (Store.tracks
           (db (perform_all Ex.later_actions
                  (CreateTrack.handleSubmit (Some Ex.alice) 1700000010000 [1; 2; 35; 10; 7]%N
                     Ex.create_form (Ex.world Ex.nine_answers)).2)))
    = map (fun r => (Track.id r, Track.tracking_number r))
          (Store.tracks (db (Ex.world Ex.nine_answers)))
      ++ [(id, generateTrackingNumber 1700000010000 [1; 2; 35; 10; 7]%N)].
Proof.
  apply (tracking_number_assigned_once (Some Ex.alice) 1700000010000 [1; 2; 35; 10; 7]%N
           Ex.create_form (Ex.world Ex.nine_answers) Ex.later_actions).
  vm_compute. reflexivity.
Defined.

(* ===================================================================== *)
(** * Creation: the required title *)
(* ===================================================================== *)

(** C9 (a missing title is caught before any request).  Submitting the
    creation form with an empty title: the title input reports a missing
    value, the form is invalid and the submit handler does not run; so no
    request is sent, the world and the state of the form are as before and
    [onBack] is not called. *)
Theorem submit_empty_title_sends_nothing user now rnd s w :
  CreateTrack.Form.title (CreateTrack.form s) = ""%string ->
  let r := CreateTrack.submit user now rnd s w in
  existsb CreateTrack.valueMissing (CreateTrack.controls s) = true
  /\ CreateTrack.checkValidity (CreateTrack.controls s) = false
  /\ issued w r.2 = []
  /\ r.2 = w
  /\ CreateTrack.state r.1 = s
  /\ CreateTrack.onBack_called r.1 = false.
Proof.
  intros Htitle r. subst r.
  assert (Hinvalid : CreateTrack.checkValidity (CreateTrack.controls s) = false).
  { unfold CreateTrack.checkValidity, CreateTrack.controls. cbn [forallb].
    unfold CreateTrack.valueMissing at 1. cbn [CreateTrack.required CreateTrack.value].
    rewrite Htitle. reflexivity. }
  unfold CreateTrack.submit. rewrite Hinvalid. cbn [ret fst snd CreateTrack.state
    CreateTrack.onBack_called]. rewrite issued_refl.
  repeat split.
  unfold CreateTrack.controls. cbn [existsb].
  unfold CreateTrack.valueMissing at 1. cbn [CreateTrack.required CreateTrack.value].
  rewrite Htitle. reflexivity.
Qed.

(** With a title, the form is valid and submitting it runs the handler. *)
Lemma submit_with_title user now rnd s w :
  CreateTrack.Form.title (CreateTrack.form s) <> ""%string ->
  CreateTrack.submit user now rnd s w = CreateTrack.handleSubmit user now rnd s w.
Proof.
  intros Htitle. unfold CreateTrack.submit, CreateTrack.checkValidity, CreateTrack.controls.
  cbn [forallb]. unfold CreateTrack.valueMissing.
  cbn [CreateTrack.required CreateTrack.value andb negb].
  destruct (CreateTrack.Form.title (CreateTrack.form s)); [congruence|reflexivity].
Qed.

(** An instance: the form submitted with a description and no title. *)
Lemma submit_empty_title_sends_nothing_witness :
  issued (Ex.world Ex.nine_answers)
         (CreateTrack.submit (Some Ex.alice) 1700000010000 [18%N] Ex.blank_form
            (Ex.world Ex.nine_answers)).2 = [].
Proof.
  apply (submit_empty_title_sends_nothing (Some Ex.alice) 1700000010000 [18%N]
           Ex.blank_form (Ex.world Ex.nine_answers)).
  reflexivity.
Defined.

(** The check is the form's: the handler itself, were it run on an empty
    title, would send the insert as for any other title. *)
Lemma handleSubmit_sends_insert u now rnd s w :
  exists row ok,
    issued w (CreateTrack.handleSubmit (Some u) now rnd s w).2 = [(InsertTrack row, ok)]
    /\ TrackInsert.title row = CreateTrack.Form.title (CreateTrack.form s).
Proof.
  unfold CreateTrack.handleSubmit, supabase.insert_track. rewrite bind_run.
  match goal with |- context [send ?rq (write ?f) w] =>
    destruct (send_write_cases rq f w)
      as [(e & rest & d1 & Hs & He & Hf & Hrun) | (msg & Hrun)]; rewrite Hrun end;
    cbn [fst snd Store.error Store.ok Store.failed ret];
    eexists _, _; (split; [apply issued_app; reflexivity|reflexivity]).
Qed.

(* ===================================================================== *)
(** * The detail view presents the row's status *)
(* ===================================================================== *)

(** After an append whose track-status write was lost, the row of the
    track lags behind the ledger. *)
Example lagging_store :
  map Track.status (Store.tracks (db Ex.lagging)) = ["pending"; "completed"]%string
  /\ map (fun u => (TrackUpdate.track_id u, TrackUpdate.status u))
         (Store.track_updates (db Ex.lagging)) = [("t-1", "completed")]%string
  /\ map fst (sent Ex.lagging)
     = [InsertTrackUpdate (TrackUpdateInsert.mk "t-1" "completed" "delivered" "Oslo" "u-alice");
        UpdateTracks (TrackPatch.mk None None None None (Some "completed"%string)
                                    None None None None None) "t-1";
        SelectTrack "t-1" "u-alice";
        SelectTrackUpdates "t-1"]
  /\ map snd (sent Ex.lagging) = [true; false; false; false].
Proof. vm_compute. repeat split. Qed.

(** C3, as stated, fails: in the lagging store the view of the track, once
    loaded, holds the entry "completed" as the latest of the ledger and
    presents "pending", the status of the row. *)
Lemma prefers_ledger_fails :
  ~ prefers_ledger (Some Ex.alice) "t-1" Ex.detail Ex.lagging.
Proof.
  unfold prefers_ledger. intros H.
  specialize (H Ex.widget "completed"%string).
  assert (Hshown :
            presented_status
              (TrackDetail.render
                 (TrackDetail.loadTrackDetails (Some Ex.alice) "t-1" Ex.detail Ex.detail
                    Ex.lagging).1)
            = Some (TrackDetail.statusBadge "pending")).
  { vm_compute. reflexivity. }
  rewrite Hshown in H.
  assert (Hgoal : Some (TrackDetail.statusBadge "pending")
                  = Some (TrackDetail.statusBadge "completed")).
  { apply H.
    - vm_compute. reflexivity.
    - vm_compute. reflexivity.
    - discriminate. }
  vm_compute in Hgoal. discriminate.
Qed.

(** C3, amended (the view presents the row's status).  When the store
    answers the load of a track's details with the row [R], the view holds
    [R] and what it presents of the track's status is the status column of
    [R], whatever the ledger holds: out of edit mode the header shows the
    badge of [R]'s status; in edit mode (which the load leaves as it was)
    the header is the edit form, filled from [R].  The statuses of the
    ledger entries appear in the timeline only, in both modes. *)
Theorem loadTrackDetails_presents_row_status uid trackId s w e rest R :
  script w = e :: rest ->
  Store.reachable e = true ->
  Store.select_track uid trackId uid (db w) = [R] ->
  let s' := (TrackDetail.loadTrackDetails (Some (mkUser uid)) trackId s s w).1 in
  let timeline :=
    map (fun u => TrackDetail.statusBadge (TrackUpdate.status u))
        (TrackDetail.updates s') in
  TrackDetail.track s' = Some R
  /\ TrackDetail.isEditing s' = TrackDetail.isEditing s
  /\ TrackDetail.render s'
     = (if TrackDetail.isEditing s
        then TrackDetail.Editing
               {| TrackDetail.EditForm.title := Track.title R;
                  TrackDetail.EditForm.description := Track.description R;
                  TrackDetail.EditForm.status := Track.status R;
                  TrackDetail.EditForm.priority := Track.priority R |}
               timeline
        else TrackDetail.Details (Track.title R) (Track.tracking_number R)
               (TrackDetail.statusBadge (Track.status R)) (Track.priority R)
               timeline)
  /\ (TrackDetail.isEditing s = false ->
      presented_status (TrackDetail.render s')
      = Some (TrackDetail.statusBadge (Track.status R))).
Proof.
  intros Hs He Hsel s' timeline. subst timeline s'.
  unfold TrackDetail.loadTrackDetails. rewrite !bind_run.
  assert (Hres : Store.data
                   (supabase.select_track_maybeSingle uid trackId uid w).1 = Some R).
  { unfold supabase.select_track_maybeSingle, send. rewrite Hs, He, Hsel. reflexivity. }
  cbn [user_id ret fst]. rewrite Hres.
  destruct (Store.data (supabase.select_track_updates uid trackId _).1);
    cbn; (split; [reflexivity|]); (split; [reflexivity|]);
    (split; [destruct (TrackDetail.isEditing s); reflexivity|]);
    intros Hview; rewrite Hview; reflexivity.
Qed.

(** An instance: in the lagging store, whose ledger says "completed", the
    view of [widget] presents "pending" out of edit mode, and in edit mode
    the edit form filled from the row. *)
Lemma loadTrackDetails_presents_row_status_witness :
  presented_status
    (TrackDetail.render
       (TrackDetail.loadTrackDetails (Some (mkUser "u-alice")) "t-1" Ex.detail Ex.detail
          Ex.lagging).1)
  = Some (TrackDetail.statusBadge "pending")
  /\ TrackDetail.render
       (TrackDetail.loadTrackDetails (Some (mkUser "u-alice")) "t-1"
          (TrackDetail.setIsEditing true Ex.detail)
          (TrackDetail.setIsEditing true Ex.detail) Ex.lagging).1
     = TrackDetail.Editing
         (TrackDetail.EditForm.mk "Ship widget" "two boxes" "pending" "medium")
         [TrackDetail.statusBadge "completed"].
Proof.
  split.
  - refine (proj2 (proj2 (proj2
      (loadTrackDetails_presents_row_status "u-alice" "t-1" Ex.detail Ex.lagging
         _ _ Ex.widget _ _ _))) _).
    + vm_compute. reflexivity.
    + reflexivity.
    + vm_compute. reflexivity.
    + reflexivity.
  - refine (proj1 (proj2 (proj2
      (loadTrackDetails_presents_row_status "u-alice" "t-1"
         (TrackDetail.setIsEditing true Ex.detail) Ex.lagging
         _ _ Ex.widget _ _ _)))).
    + vm_compute. reflexivity.
    + reflexivity.
    + vm_compute. reflexivity.
Defined.

(* ===================================================================== *)
(** * Dashboard: the counts *)
(* ===================================================================== *)

Lemma count_status_rows st (l : list Track.t) :
  length (List.filter (fun t => String.eqb (Store.status t) st)
                      (map (fun r => Store.mkStatusRow (Track.status r)) l))
  = count_occ String.string_dec (map Track.status l) st.
Proof.
  induction l as [|r l IH]; simpl; [reflexivity|].
  destruct (String.string_dec (Track.status r) st) as [Heq|Hne].
  - apply String.eqb_eq in Heq. rewrite Heq. simpl. rewrite IH. reflexivity.
  - apply String.eqb_neq in Hne. rewrite Hne. apply IH.
Qed.

(** C4, as stated, fails: for five tracks of which two are cancelled, none
    of the numbers returned (5, 3, 0, 0) is the number of cancelled
    tracks. *)
Lemma cancelled_count_not_returned :
  ~ returns_count_of "cancelled"
      (map Track.status (Store.tracks (db Ex.five)))
      (Dashboard.loadStats (Some Ex.alice) Dashboard.initial Ex.five).1.
Proof.
  unfold returns_count_of. vm_compute. intros [H|[H|[H|[H|[]]]]]; discriminate.
Qed.

(** C4, amended (total and three counts).  When the store answers, the
    statistics loaded for a user are the number of the user's tracks and,
    for each of [pending], [in_progress] and [completed], the number of
    those tracks whose status is that value; these four numbers are all
    that is returned. *)
Theorem loadStats_counts uid stats w e rest :
  script w = e :: rest ->
  Store.reachable e = true ->
  let owned :=
    List.filter (fun r => String.eqb (Track.user_id r) uid) (Store.tracks (db w)) in
  let statuses := map Track.status owned in
  let r := (Dashboard.loadStats (Some (mkUser uid)) stats w).1 in
  Dashboard.total r = length owned
  /\ Dashboard.pending r = count_occ String.string_dec statuses "pending"
  /\ Dashboard.inProgress r = count_occ String.string_dec statuses "in_progress"
  /\ Dashboard.completed r = count_occ String.string_dec statuses "completed"
  /\ Dashboard.cards r
     = [length owned;
        count_occ String.string_dec statuses "pending";
        count_occ String.string_dec statuses "in_progress";
        count_occ String.string_dec statuses "completed"].
Proof.
  intros Hs He owned statuses r.
  assert (Hsel : Store.select_track_status uid uid (db w)
                 = map (fun r => Store.mkStatusRow (Track.status r)) owned).
  { unfold Store.select_track_status, owned. f_equal. apply filter_ext.
    intros t. unfold Store.owns_track. rewrite (String.eqb_sym uid).
    apply andb_diag. }
  assert (Hr : r = {| Dashboard.total := length owned;
                      Dashboard.pending := count_occ String.string_dec statuses "pending";
                      Dashboard.inProgress :=
                        count_occ String.string_dec statuses "in_progress";
                      Dashboard.completed :=
                        count_occ String.string_dec statuses "completed" |}).
  { subst r. unfold Dashboard.loadStats, supabase.select_track_status.
    rewrite bind_run. unfold send. rewrite Hs, He.
    cbn [fst snd Store.data Store.ok ret user_id]. rewrite Hsel.
    rewrite !count_status_rows, length_map. reflexivity. }
  rewrite Hr. cbn. auto 6.
Qed.

(** An instance: five tracks, three of them pending, two cancelled. *)
Lemma loadStats_counts_witness :
  Dashboard.cards (Dashboard.loadStats (Some (mkUser "u-alice")) Dashboard.initial Ex.five).1
  = [5; 3; 0; 0]%nat.
Proof.
  destruct (loadStats_counts "u-alice" Dashboard.initial Ex.five
              (Ex.online 1700000000000 "") [] eq_refl eq_refl)
    as (_ & _ & _ & _ & Hcards).
  rewrite Hcards. vm_compute. reflexivity.
Defined.

(* ===================================================================== *)
(** * The tracking number *)
(* ===================================================================== *)

Module StringFacts.

Lemma append_cons c s t : (String c s +:+ t)%string = String c (s +:+ t).
Proof. reflexivity. Qed.

Lemma append_nil_l t : ("" +:+ t)%string = t.
Proof. reflexivity. Qed.

Lemma append_nil_r s : (s +:+ "")%string = s.
Proof.
  induction s as [|c s IH]; [reflexivity|]. rewrite append_cons, IH. reflexivity.
Qed.

Lemma append_assoc s t u : ((s +:+ t) +:+ u)%string = (s +:+ t +:+ u)%string.
Proof.
  induction s as [|c s IH]; [reflexivity|]. rewrite !append_cons, IH. reflexivity.
Qed.

Lemma length_append s t :
  String.length (s +:+ t) = (String.length s + String.length t)%nat.
Proof.
  induction s as [|c s IH]; [reflexivity|].
  rewrite append_cons. cbn [String.length]. rewrite IH. reflexivity.
Qed.

Lemma map_string_append f s t :
  JsString.map_string f (s +:+ t)
  = (JsString.map_string f s +:+ JsString.map_string f t)%string.
Proof.
  induction s as [|c s IH]; [reflexivity|].
  rewrite append_cons. cbn [JsString.map_string]. rewrite append_cons, IH. reflexivity.
Qed.

Lemma length_map_string f s : String.length (JsString.map_string f s) = String.length s.
Proof. induction s as [|c s IH]; [reflexivity|]. cbn. rewrite IH. reflexivity. Qed.

End StringFacts.

Module Radix36Facts.
Import Radix36.

Lemma upperDigitValue_digitChar d :
  (d < 36)%N -> upperDigitValue (JsString.upper_ascii (digitChar d)) = Some d.
Proof.
  intros Hd.
  assert (Hall : forallb
                   (fun n => match upperDigitValue
                                     (JsString.upper_ascii (digitChar (N.of_nat n))) with
                             | Some d' => N.eqb (N.of_nat n) d'
                             | None => false
                             end)
                   (seq 0 36) = true) by (vm_compute; reflexivity).
  rewrite forallb_forall in Hall.
  specialize (Hall (N.to_nat d)). rewrite N2Nat.id in Hall.
  destruct (upperDigitValue _) as [d'|].
  - f_equal. symmetry. apply N.eqb_eq. apply Hall. apply in_seq. lia.
  - assert (false = true); [|discriminate]. apply Hall. apply in_seq. lia.
Qed.

Lemma toUpperCase_app s t :
  JsString.toUpperCase (s +:+ t) = (JsString.toUpperCase s +:+ JsString.toUpperCase t)%string.
Proof. apply StringFacts.map_string_append. Qed.

Lemma value_from_app s t a :
  value_from a (s +:+ t)
  = match value_from a s with
    | Some v => value_from v t
    | None => None
    end.
Proof.
  revert a. induction s as [|c s IH]; intros a; [reflexivity|].
  rewrite StringFacts.append_cons. cbn [value_from].
  destruct (upperDigitValue c); [apply IH|reflexivity].
Qed.

(** With enough fuel, [digits_from] puts in front of [acc] the digits of
    [n]: a non-empty numeral whose value is [n]. *)
Lemma digits_from_spec fuel :
  forall n acc,
    (n < 2 ^ N.of_nat fuel)%N -> fuel <> 0%nat ->
    exists ds,
      digits_from fuel n acc = (ds +:+ acc)%string
      /\ ds <> EmptyString
      /\ forall a,
          value_from a (JsString.toUpperCase ds)
          = Some (a * 36 ^ N.of_nat (String.length ds) + n)%N.
Proof.
  induction fuel as [|fuel IH]; intros n acc Hn Hfuel; [congruence|].
  cbn [digits_from]. cbv zeta.
  assert (Hdm : n = (36 * (n / 36) + n mod 36)%N) by (apply N.div_mod; lia).
  assert (Hmod : (n mod 36 < 36)%N) by (apply N.mod_lt; lia).
  destruct (N.eqb_spec (n / 36) 0) as [Hq|Hq].
  - exists (String (digitChar (n mod 36)) EmptyString). split; [reflexivity|].
    split; [discriminate|]. intros a. cbn [JsString.toUpperCase JsString.map_string value_from].
    rewrite upperDigitValue_digitChar by assumption. f_equal.
    cbn [String.length]. change (N.of_nat 1) with 1%N. rewrite N.pow_1_r. lia.
  - assert (Hq2 : (n / 36 < 2 ^ N.of_nat fuel)%N).
    { rewrite Nat2N.inj_succ, N.pow_succ_r' in Hn.
      apply N.Div0.div_lt_upper_bound. lia. }
    assert (Hfuel' : fuel <> 0%nat).
    { intros ->. change (2 ^ N.of_nat 0)%N with 1%N in Hq2. lia. }
    destruct (IH (n / 36)%N (String (digitChar (n mod 36)) acc) Hq2 Hfuel')
      as (ds & Heq & Hne & Hval).
    exists (ds +:+ String (digitChar (n mod 36)) EmptyString)%string.
    split; [|split].
    + rewrite Heq, StringFacts.append_assoc. reflexivity.
    + destruct ds; discriminate.
    + intros a. rewrite toUpperCase_app, value_from_app, Hval.
      cbn [JsString.toUpperCase JsString.map_string value_from].
      rewrite upperDigitValue_digitChar by assumption. f_equal.
      rewrite StringFacts.length_append. cbn [String.length].
      rewrite Nat.add_1_r, Nat2N.inj_succ, N.pow_succ_r'. lia.
Qed.

(** The numeral of a natural number reads back as that number: the fuel
    given by [toString_nat] is enough. *)
Lemma parse_upper_toString_nat n :
  parse_upper (JsString.toUpperCase (toString_nat n)) = Some n.
Proof.
  unfold toString_nat.
  destruct (digits_from_spec (S (N.to_nat (N.log2 n))) n EmptyString)
    as (ds & Heq & Hne & Hval).
  - rewrite Nat2N.inj_succ, N2Nat.id.
    destruct (N.eq_dec n 0%N) as [->|Hn0]; [reflexivity|].
    apply N.log2_spec. lia.
  - discriminate.
  - rewrite Heq, StringFacts.append_nil_r. unfold parse_upper.
    destruct ds as [|c ds]; [congruence|].
    cbn [JsString.toUpperCase JsString.map_string].
    change (String (JsString.upper_ascii c) (JsString.map_string JsString.upper_ascii ds))
      with (JsString.toUpperCase (String c ds)).
    rewrite Hval. f_equal.
Qed.

End Radix36Facts.

(** The timestamp part of a tracking number reads back as the
    timestamp. *)
Lemma timestamp_part_decodes now :
  0 <= now ->
  Radix36.parse_upper (JsString.toUpperCase (Radix36.toString now)) = Some (Z.to_N now).
Proof.
  intros Hnow. unfold Radix36.toString.
  destruct (Z.ltb_spec now 0); [lia|]. apply Radix36Facts.parse_upper_toString_nat.
Qed.

(** The parts of a tracking number: the prefix, the timestamp in upper-case
    base 36, and as suffix the first four of the digits printed for the
    random number, or all of them when there are fewer than four. *)
Lemma generateTrackingNumber_parts now rnd :
  generateTrackingNumber now rnd
  = ("TRK-" +:+ JsString.toUpperCase (Radix36.toString now) +:+ "-"
     +:+ JsString.toUpperCase
           (string_of_list_ascii (map Radix36.digitChar (take 4 rnd))))%string.
Proof.
  assert (Hrandom :
            JsString.substring (Radix36.toString_fraction rnd) 2 6
            = string_of_list_ascii (map Radix36.digitChar (take 4 rnd))).
  { destruct rnd as [|a [|b [|c [|d [|e rest]]]]]; reflexivity. }
  unfold generateTrackingNumber. rewrite Hrandom. reflexivity.
Qed.

Lemma random_suffix_length rnd :
  String.length
    (JsString.toUpperCase (string_of_list_ascii (map Radix36.digitChar (take 4 rnd))))
  = Nat.min 4 (length rnd).
Proof.
  assert (Hlen : forall s, String.length (JsString.toUpperCase s) = String.length s).
  { intros s. apply StringFacts.length_map_string. }
  assert (Hlist : forall l : list ascii, String.length (string_of_list_ascii l) = length l).
  { induction l as [|c l IH]; simpl; [reflexivity|]. f_equal. exact IH. }
  rewrite Hlen, Hlist, length_map, length_take. reflexivity.
Qed.

(** The characters of the suffix are upper-case base-36 digits. *)
Lemma random_suffix_chars rnd :
  Forall (fun d => (d < 36)%N) rnd ->
  Forall (fun c => Radix36.is_upper_digit c = true)
         (JsString.chars
            (JsString.toUpperCase
               (string_of_list_ascii (map Radix36.digitChar (take 4 rnd))))).
Proof.
  intros Hrnd.
  assert (Htake : Forall (fun d => (d < 36)%N) (take 4 rnd)) by (apply Forall_take, Hrnd).
  induction Htake as [|d l Hd Hl IH]; cbn; constructor; [|exact IH].
  unfold Radix36.is_upper_digit. rewrite Radix36Facts.upperDigitValue_digitChar by exact Hd.
  reflexivity.
Qed.

(** When at least four digits are printed for the random number, the
    tracking number has the full shape: prefix, timestamp, and a suffix of
    exactly four upper-case base-36 digits. *)
Lemma generateTrackingNumber_full_suffix now rnd :
  (4 <= length rnd)%nat ->
  Forall (fun d => (d < 36)%N) rnd ->
  exists suffix,
    generateTrackingNumber now rnd
    = ("TRK-" +:+ JsString.toUpperCase (Radix36.toString now) +:+ "-" +:+ suffix)%string
    /\ String.length suffix = 4%nat
    /\ Forall (fun c => Radix36.is_upper_digit c = true) (JsString.chars suffix).
Proof.
  intros Hlen Hrnd. eexists. split; [apply generateTrackingNumber_parts|].
  split; [rewrite random_suffix_length; lia|apply random_suffix_chars, Hrnd].
Qed.

(** C5 (the suffix can be shorter than four characters).  With the clock
    at 1700000000000 and [Math.random()] returning one half, which prints as
    ["0.i"] in base 36, the tracking number generated is ["TRK-LOYW3V28-I"]:
    its suffix has one character.  When [Math.random()] returns zero, which
    prints as ["0"], the suffix is empty. *)
Theorem generateTrackingNumber_short_suffix :
  Radix36.toString_fraction [18%N] = "0.i"%string
  /\ generateTrackingNumber 1700000000000 [18%N] = "TRK-LOYW3V28-I"%string
  /\ Radix36.toString_fraction [] = "0"%string
  /\ generateTrackingNumber 1700000000000 [] = "TRK-LOYW3V28-"%string.
Proof. repeat split; vm_compute; reflexivity. Qed.

(* ===================================================================== *)
(** * TrackList: filtering and sorting *)
(* ===================================================================== *)

Module IncludesFacts.
Import JsString.

Lemma startsWith_spec s q :
  startsWith s q = true <-> exists post, s = (q +:+ post)%string.
Proof.
  revert s. induction q as [|a q IH]; intros s.
  - destruct s; (split; [intros _; eexists; reflexivity | reflexivity]).
  - destruct s as [|b s]; cbn [startsWith].
    + split; [discriminate|]. intros [post H]. discriminate.
    + destruct (Ascii.eqb_spec a b) as [->|Hne].
      * rewrite IH. split; intros [post H]; exists post.
        -- rewrite StringFacts.append_cons, H. reflexivity.
        -- rewrite StringFacts.append_cons in H. congruence.
      * split; [discriminate|]. intros [post H].
        rewrite StringFacts.append_cons in H. congruence.
Qed.

(** [includes] decides the occurrence of [q] in [s]. *)
Lemma includes_spec s q : includes s q = true <-> Substring q s.
Proof.
  unfold Substring. split.
  - induction s as [|c s IH]; cbn [includes];
      destruct (startsWith _ q) eqn:Hsw.
    + intros _. apply startsWith_spec in Hsw as [post ->]. exists ""%string, post. reflexivity.
    + discriminate.
    + intros _. apply startsWith_spec in Hsw as [post ->]. exists ""%string, post. reflexivity.
    + intros H. destruct (IH H) as (pre & post & ->).
      exists (String c pre), post. reflexivity.
  - intros (pre & post & ->). induction pre as [|c pre IH].
    + rewrite StringFacts.append_nil_l.
      assert (Hsw : startsWith (q +:+ post) q = true) by (apply startsWith_spec; eauto).
      destruct (q +:+ post)%string; cbn [includes]; rewrite Hsw; reflexivity.
    + rewrite StringFacts.append_cons. cbn [includes]. rewrite IH.
      destruct (startsWith _ q); reflexivity.
Qed.

End IncludesFacts.

Module CaseFacts.
Import JsString.

Lemma is_upper_spec a :
  is_upper a = true <-> (65 <= nat_of_ascii a <= 90)%nat.
Proof.
  unfold is_upper. cbv zeta. rewrite andb_true_iff, !Nat.leb_le. reflexivity.
Qed.

Lemma nat_of_ascii_inj a b : nat_of_ascii a = nat_of_ascii b -> a = b.
Proof.
  intros H. rewrite <- (ascii_nat_embedding a), <- (ascii_nat_embedding b), H.
  reflexivity.
Qed.

Lemma lower_ascii_upper a :
  is_upper a = true -> nat_of_ascii (lower_ascii a) = (nat_of_ascii a + 32)%nat.
Proof.
  intros Ha. unfold lower_ascii. rewrite Ha.
  apply is_upper_spec in Ha. apply nat_ascii_embedding. lia.
Qed.

Lemma lower_ascii_other a : is_upper a = false -> lower_ascii a = a.
Proof. intros Ha. unfold lower_ascii. rewrite Ha. reflexivity. Qed.

(** Two characters have the same lower-case form exactly when they are
    the same letter. *)
Lemma lower_ascii_same_letter a b :
  lower_ascii a = lower_ascii b <-> same_letter a b.
Proof.
  unfold same_letter.
  destruct (is_upper a) eqn:Ha; destruct (is_upper b) eqn:Hb.
  - pose proof (lower_ascii_upper a Ha) as Hla.
    pose proof (lower_ascii_upper b Hb) as Hlb.
    apply is_upper_spec in Ha. apply is_upper_spec in Hb.
    split.
    + intros H. left. apply nat_of_ascii_inj. rewrite H in Hla. lia.
    + intros [H|[[_ H]|[_ H]]]; [subst; reflexivity|lia|lia].
  - pose proof (lower_ascii_upper a Ha) as Hla.
    rewrite (lower_ascii_other b Hb).
    split.
    + intros H. right. left. split; [reflexivity|]. rewrite <- H. exact Hla.
    + intros [H|[[_ H]|[H _]]]; [subst; congruence| |discriminate].
      apply nat_of_ascii_inj. lia.
  - pose proof (lower_ascii_upper b Hb) as Hlb.
    rewrite (lower_ascii_other a Ha).
    split.
    + intros H. right. right. split; [reflexivity|]. rewrite H. exact Hlb.
    + intros [H|[[H _]|[_ H]]]; [subst; congruence|discriminate|].
      apply nat_of_ascii_inj. lia.
  - rewrite (lower_ascii_other a Ha), (lower_ascii_other b Hb).
    split; [auto|].
    intros [H|[[H _]|[H _]]]; [exact H|discriminate|discriminate].
Qed.

(** A mapped string that splits in two is the image of a split. *)
Lemma map_string_split f s a b :
  map_string f s = (a +:+ b)%string ->
  exists s1 s2, s = (s1 +:+ s2)%string /\ map_string f s1 = a /\ map_string f s2 = b.
Proof.
  revert s. induction a as [|c a IH]; intros s H.
  - exists ""%string, s. auto.
  - destruct s as [|d s]; [discriminate|].
    rewrite StringFacts.append_cons in H. cbn [map_string] in H.
    injection H as Hc H.
    destruct (IH s H) as (s1 & s2 & -> & H1 & H2).
    exists (String d s1), s2. rewrite StringFacts.append_cons. cbn [map_string].
    rewrite Hc, H1. auto.
Qed.

Lemma map_lower_same_letters q mid :
  map_string lower_ascii q = map_string lower_ascii mid
  <-> Forall2 same_letter (chars q) (chars mid).
Proof.
  unfold chars. revert mid. induction q as [|a q IH]; intros [|b mid]; cbn.
  - split; [constructor|reflexivity].
  - split; [discriminate|]. intros H. inversion H.
  - split; [discriminate|]. intros H. inversion H.
  - split.
    + intros H. injection H as Hab H. constructor.
      * apply lower_ascii_same_letter. exact Hab.
      * apply IH. exact H.
    + intros H. inversion H as [|? ? ? ? Hab Hrest]; subst.
      apply lower_ascii_same_letter in Hab. apply IH in Hrest.
      rewrite Hab, Hrest. reflexivity.
Qed.

(** On lower-cased ASCII text, occurring is occurring up to the case of
    the letters. *)
Lemma Substring_lower q s :
  Substring (map_string lower_ascii q) (map_string lower_ascii s)
  <-> OccursIgnoringCase q s.
Proof.
  unfold Substring, OccursIgnoringCase. split.
  - intros (pre' & post' & H).
    apply map_string_split in H as (pre & rest & -> & _ & H).
    apply map_string_split in H as (mid & post & -> & H & _).
    exists pre, mid, post. split; [reflexivity|].
    apply map_lower_same_letters. symmetry. exact H.
  - intros (pre & mid & post & -> & H).
    apply map_lower_same_letters in H.
    exists (map_string lower_ascii pre), (map_string lower_ascii post).
    rewrite !StringFacts.map_string_append, H. reflexivity.
Qed.

End CaseFacts.

Module SortFacts.

Lemma StronglySorted_weaken {A} (R R' : A -> A -> Prop) l :
  (forall a b, R a b -> R' a b) -> StronglySorted R l -> StronglySorted R' l.
Proof.
  intros HR. induction 1 as [|x l Hl IH Hall]; constructor; [exact IH|].
  eapply Forall_impl; [exact Hall|]. intros b. apply HR.
Qed.

Section Sort.
Context {A : Type} (cmp : A -> A -> Z).

Lemma insert_by_perm x l : Permutation (insert_by cmp x l) (x :: l).
Proof.
  induction l as [|y l IH]; cbn [insert_by]; [reflexivity|].
  destruct (cmp x y <=? 0); [reflexivity|].
  rewrite IH. apply perm_swap.
Qed.

(** Sorting rearranges: nothing is added, dropped or duplicated. *)
Lemma stable_sort_perm l : Permutation (stable_sort cmp l) l.
Proof.
  induction l as [|x l IH]; [reflexivity|].
  unfold stable_sort in *. cbn [fold_right]. rewrite insert_by_perm, IH. reflexivity.
Qed.

Lemma insert_by_sorted x l :
  Consistent cmp ->
  StronglySorted (fun a b => cmp a b <= 0) l ->
  StronglySorted (fun a b => cmp a b <= 0) (insert_by cmp x l).
Proof.
  intros [Htotal Htrans] Hl. induction l as [|y l IH]; cbn [insert_by].
  - constructor; constructor.
  - inversion Hl as [|? ? Hsorted Hall]; subst.
    destruct (Z.leb_spec (cmp x y) 0) as [Hle|Hgt].
    + constructor; [exact Hl|]. constructor; [exact Hle|].
      eapply Forall_impl; [exact Hall|]. intros z Hz. eapply Htrans; eauto.
    + constructor; [apply IH, Hsorted|].
      assert (Hyx : cmp y x <= 0) by (destruct (Htotal x y); [lia|assumption]).
      apply Forall_forall. intros z Hz.
      apply list_elem_of_In in Hz.
      apply (Permutation_in _ (insert_by_perm x l)) in Hz as [<-|Hz]; [exact Hyx|].
      rewrite Forall_forall in Hall. apply Hall, list_elem_of_In, Hz.
Qed.

(** With a comparator that orders, the result is in order. *)
Lemma stable_sort_sorted l :
  Consistent cmp -> StronglySorted (fun a b => cmp a b <= 0) (stable_sort cmp l).
Proof.
  intros Hc. induction l as [|x l IH]; [constructor|].
  unfold stable_sort in *. cbn [fold_right]. apply insert_by_sorted; assumption.
Qed.

End Sort.

End SortFacts.

Module HeapFacts.
Import Heap.

Lemma read_new v h : read (length h) (h ++ [v]) = v.
Proof.
  unfold read. rewrite lookup_app_r by lia. rewrite Nat.sub_diag. reflexivity.
Qed.

Lemma read_old a k h : (a < length h)%nat -> read a (h ++ k) = read a h.
Proof. intros Ha. unfold read. rewrite lookup_app_l by assumption. reflexivity. Qed.

Lemma read_write_same a v h : (a < length h)%nat -> read a (write a v h) = v.
Proof.
  intros Ha. unfold read, write. rewrite list_lookup_insert_eq by assumption. reflexivity.
Qed.

Lemma read_write_other a b v h : a <> b -> read a (write b v h) = read a h.
Proof. intros Hab. unfold read, write. rewrite list_lookup_insert_ne by auto. reflexivity. Qed.

End HeapFacts.

Ltac heap_simpl :=
  repeat first
    [ rewrite HeapFacts.read_new
    | rewrite HeapFacts.read_write_same by (rewrite ?length_app; simpl; lia)
    | rewrite HeapFacts.read_write_other by (rewrite ?length_app; simpl; lia)
    | rewrite HeapFacts.read_old by (rewrite ?length_app; simpl; lia) ].

(** What a run of [filterAndSortTracks] leaves: [filteredTracks] names an
    array made by the run, holding the selected tracks sorted; every array
    that existed before is as it was. *)
Lemma filterAndSortTracks_run toLowerCase localeCompare s h :
  let r := TrackList.filterAndSortTracks toLowerCase localeCompare s h in
  r.1 = TrackList.setFilteredTracks (TrackList.filteredTracks r.1) s
  /\ (length h <= TrackList.filteredTracks r.1)%nat
  /\ Heap.read (TrackList.filteredTracks r.1) r.2
     = stable_sort (TrackList.compareTracks localeCompare (TrackList.sortBy s))
                   (selected toLowerCase s (Heap.read (TrackList.tracks s) h))
  /\ (forall a, (a < length h)%nat -> Heap.read a r.2 = Heap.read a h).
Proof.
  unfold TrackList.filterAndSortTracks, selected, Heap.spread, Heap.filter, Heap.sort,
    Heap.alloc.
  destruct (JsString.truthy _), (negb (String.eqb (TrackList.statusFilter s) _)),
    (negb (String.eqb (TrackList.priorityFilter s) _));
    cbn [fst snd TrackList.filteredTracks TrackList.setFilteredTracks];
    (split; [reflexivity|]); (split; [rewrite ?length_app; simpl; lia|]);
    (split; [|intros a Ha]); heap_simpl; reflexivity.
Qed.

(** Membership in the selection, filter by filter. *)
Lemma In_selected toLowerCase s l T :
  In T (selected toLowerCase s l)
  <-> In T l
      /\ (JsString.truthy (TrackList.searchQuery s) = true ->
          TrackList.matchesQuery toLowerCase (toLowerCase (TrackList.searchQuery s)) T = true)
      /\ (TrackList.statusFilter s = "all"%string
          \/ Track.status T = TrackList.statusFilter s)
      /\ (TrackList.priorityFilter s = "all"%string
          \/ Track.priority T = TrackList.priorityFilter s).
Proof.
  unfold selected.
  destruct (JsString.truthy _);
    destruct (String.eqb_spec (TrackList.statusFilter s) "all") as [Hs|Hs];
    destruct (String.eqb_spec (TrackList.priorityFilter s) "all") as [Hp|Hp];
    cbn [negb]; rewrite ?filter_In, ?String.eqb_eq; intuition congruence.
Qed.

(** C8, as stated, fails: with the status filter at "completed", the
    pending track [widget] is not shown for the query "trk-", which occurs
    in its lower-cased tracking number. *)
Lemma query_alone_decides_fails :
  ~ query_alone_decides asciiToLowerCase codeUnitCompare
      (Ex.list_state "trk-" "completed" "all" TrackList.date) Ex.heap Ex.widget.
Proof.
  unfold query_alone_decides. intros H.
  assert (Hshown : In Ex.widget
                     (TrackList.shown asciiToLowerCase codeUnitCompare
                        (Ex.list_state "trk-" "completed" "all" TrackList.date) Ex.heap)).
  { apply H.
    - discriminate.
    - left. reflexivity.
    - right. left. exists ""%string, "loyw3v28-12za"%string. reflexivity. }
  vm_compute in Hshown. exact Hshown.
Qed.

(** C8, amended (the free-text filter among the other filters).  With a
    non-empty query, a track is shown by the list exactly when it is one of
    the loaded tracks, the lower-cased query occurs in its lower-cased
    title, or in its lower-cased tracking number, or in its lower-cased
    description, and it passes the status and priority filters (each lets
    every track pass when set to "all").  On ASCII text, where lower-casing
    maps [A..Z] to [a..z], the condition on the text is that the query
    occurs in one of the three fields up to the case of the letters. *)
Theorem filter_matches_query toLowerCase localeCompare s h T :
  TrackList.searchQuery s <> ""%string ->
  let query := toLowerCase (TrackList.searchQuery s) in
  let passes :=
    (TrackList.statusFilter s = "all"%string
     \/ Track.status T = TrackList.statusFilter s)
    /\ (TrackList.priorityFilter s = "all"%string
        \/ Track.priority T = TrackList.priorityFilter s) in
  (In T (TrackList.shown toLowerCase localeCompare s h)
   <-> In T (Heap.read (TrackList.tracks s) h)
       /\ (Substring query (toLowerCase (Track.title T))
           \/ Substring query (toLowerCase (Track.tracking_number T))
           \/ Substring query (toLowerCase (Track.description T)))
       /\ passes)
  /\ (LowersAscii toLowerCase ->
      is_ascii_text (TrackList.searchQuery s) = true ->
      is_ascii_text (Track.title T) = true ->
      is_ascii_text (Track.tracking_number T) = true ->
      is_ascii_text (Track.description T) = true ->
      (In T (TrackList.shown toLowerCase localeCompare s h)
       <-> In T (Heap.read (TrackList.tracks s) h)
           /\ (OccursIgnoringCase (TrackList.searchQuery s) (Track.title T)
               \/ OccursIgnoringCase (TrackList.searchQuery s) (Track.tracking_number T)
               \/ OccursIgnoringCase (TrackList.searchQuery s) (Track.description T))
           /\ passes)).
Proof.
  intros Hq query passes.
  assert (Htruthy : JsString.truthy (TrackList.searchQuery s) = true).
  { destruct (TrackList.searchQuery s); [congruence|reflexivity]. }
  assert (Hshown : TrackList.shown toLowerCase localeCompare s h
                   = stable_sort (TrackList.compareTracks localeCompare (TrackList.sortBy s))
                                 (selected toLowerCase s (Heap.read (TrackList.tracks s) h))).
  { unfold TrackList.shown.
    pose proof (filterAndSortTracks_run toLowerCase localeCompare s h) as (_ & _ & Hread & _).
    destruct (TrackList.filterAndSortTracks toLowerCase localeCompare s h). exact Hread. }
  assert (Hmatch : TrackList.matchesQuery toLowerCase query T = true
                   <-> Substring query (toLowerCase (Track.title T))
                       \/ Substring query (toLowerCase (Track.tracking_number T))
                       \/ Substring query (toLowerCase (Track.description T))).
  { unfold TrackList.matchesQuery. rewrite !orb_true_iff, !IncludesFacts.includes_spec.
    tauto. }
  assert (Hperm : In T (stable_sort (TrackList.compareTracks localeCompare (TrackList.sortBy s))
                          (selected toLowerCase s (Heap.read (TrackList.tracks s) h)))
                  <-> In T (selected toLowerCase s (Heap.read (TrackList.tracks s) h))).
  { split; apply Permutation_in;
      [|symmetry]; apply SortFacts.stable_sort_perm. }
  assert (Hiff : In T (TrackList.shown toLowerCase localeCompare s h)
                 <-> In T (Heap.read (TrackList.tracks s) h)
                     /\ (Substring query (toLowerCase (Track.title T))
                         \/ Substring query (toLowerCase (Track.tracking_number T))
                         \/ Substring query (toLowerCase (Track.description T)))
                     /\ passes).
  { rewrite Hshown, Hperm, In_selected, <- Hmatch. fold query. subst passes. tauto. }
  split; [exact Hiff|].
  intros Hlower Hquery Htitle Hnumber Hdescription.
  rewrite Hiff. subst query.
  rewrite (Hlower _ Hquery), (Hlower _ Htitle), (Hlower _ Hnumber),
          (Hlower _ Hdescription), !CaseFacts.Substring_lower.
  reflexivity.
Qed.

(** An instance: the query "Trk-", typed in mixed case, shows the track
    whose tracking number starts with "TRK-" and not the one whose fields
    do not hold it. *)
Lemma filter_matches_query_witness :
  In Ex.widget (TrackList.shown asciiToLowerCase codeUnitCompare
                  (Ex.list_state "Trk-" "all" "all" TrackList.date) Ex.heap)
  /\ ~ In Ex.gadget (TrackList.shown asciiToLowerCase codeUnitCompare
                       (Ex.list_state "Trk-" "all" "all" TrackList.date) Ex.heap).
Proof.
  split.
  - apply (proj1 (filter_matches_query asciiToLowerCase codeUnitCompare
                    (Ex.list_state "Trk-" "all" "all" TrackList.date) Ex.heap Ex.widget
                    ltac:(discriminate))).
    split; [left; reflexivity|]. split.
    + right. left. exists ""%string, "loyw3v28-12za"%string. reflexivity.
    + split; left; reflexivity.
  - intros Hin.
    apply (proj2 (filter_matches_query asciiToLowerCase codeUnitCompare
                    (Ex.list_state "Trk-" "all" "all" TrackList.date) Ex.heap Ex.gadget
                    ltac:(discriminate))) in Hin.
    + destruct Hin as (_ & Hoccurs & _).
      rewrite <- !CaseFacts.Substring_lower, <- !IncludesFacts.includes_spec in Hoccurs.
      vm_compute in Hoccurs. intuition discriminate.
    + intros text _. reflexivity.
    + reflexivity.
    + reflexivity.
    + reflexivity.
    + reflexivity.
Defined.

(** The query "TRK-" against a track with that tracking-number prefix and
    one without shows the first only, in whatever case the query is
    typed. *)
Example filter_by_tracking_prefix :
  TrackList.shown asciiToLowerCase codeUnitCompare (Ex.list_state "TRK-" "all" "all" TrackList.date) Ex.heap
  = [Ex.widget]
  /\ TrackList.shown asciiToLowerCase codeUnitCompare (Ex.list_state "trk-" "all" "all" TrackList.title) Ex.heap
     = [Ex.widget].
Proof. split; vm_compute; reflexivity. Qed.

(** Both filters at "all": the free-text query alone decides. *)
Lemma filter_by_query_only toLowerCase localeCompare s h T :
  TrackList.searchQuery s <> ""%string ->
  TrackList.statusFilter s = "all"%string ->
  TrackList.priorityFilter s = "all"%string ->
  In T (Heap.read (TrackList.tracks s) h) ->
  In T (TrackList.shown toLowerCase localeCompare s h)
  <-> TrackList.matchesQuery toLowerCase (toLowerCase (TrackList.searchQuery s)) T = true.
Proof.
  intros Hq Hs Hp HT.
  assert (Htruthy : JsString.truthy (TrackList.searchQuery s) = true).
  { destruct (TrackList.searchQuery s); [congruence|reflexivity]. }
  unfold TrackList.shown.
  pose proof (filterAndSortTracks_run toLowerCase localeCompare s h) as (_ & _ & Hread & _).
  destruct (TrackList.filterAndSortTracks toLowerCase localeCompare s h) as [s' h'].
  cbn [fst snd] in Hread. rewrite Hread.
  split.
  - intros Hin. eapply Permutation_in in Hin; [|apply SortFacts.stable_sort_perm].
    apply In_selected in Hin as (_ & Hm & _). auto.
  - intros Hm. eapply Permutation_in; [symmetry; apply SortFacts.stable_sort_perm|].
    apply In_selected. auto.
Qed.

(** The collation of the examples orders. *)
Lemma codeUnitCompare_consistent : Consistent codeUnitCompare.
Proof.
  assert (Hle : forall a b, codeUnitCompare a b <= 0 <-> String.le a b).
  { intros a b. unfold codeUnitCompare, String.le, String.leb.
    destruct (String.compare a b); simpl; split; intros; (lia || tauto). }
  split.
  - intros a b. rewrite !Hle. destruct (total String.le a b); auto.
  - intros a b c. rewrite !Hle. intros Hab Hbc. etransitivity; eassumption.
Qed.

(** C10 (no filter: the same tracks, sorted).  With an empty query and
    both filters at "all", the tracks shown are a rearrangement of the
    loaded tracks, in the order of the sort key: latest update first for
    [date], the collation's order for [title] when the collation orders;
    the array of loaded tracks is not the one shown and is as it was, as is
    every other array that existed before. *)
Theorem filterAndSortTracks_unfiltered toLowerCase localeCompare s h :
  TrackList.searchQuery s = ""%string ->
  TrackList.statusFilter s = "all"%string ->
  TrackList.priorityFilter s = "all"%string ->
  (TrackList.tracks s < length h)%nat ->
  let r := TrackList.filterAndSortTracks toLowerCase localeCompare s h in
  let shown := Heap.read (TrackList.filteredTracks r.1) r.2 in
  Permutation shown (Heap.read (TrackList.tracks s) h)
  /\ TrackList.tracks r.1 = TrackList.tracks s
  /\ TrackList.filteredTracks r.1 <> TrackList.tracks s
  /\ Heap.read (TrackList.tracks s) r.2 = Heap.read (TrackList.tracks s) h
  /\ (forall a, (a < length h)%nat -> Heap.read a r.2 = Heap.read a h)
  /\ (TrackList.sortBy s = TrackList.date ->
      StronglySorted (fun a b => Track.updated_at b <= Track.updated_at a) shown)
  /\ (TrackList.sortBy s = TrackList.title ->
      Consistent localeCompare ->
      StronglySorted (fun a b => localeCompare (Track.title a) (Track.title b) <= 0) shown).
Proof.
  intros Hq Hs Hp Hvalid r shown.
  destruct (filterAndSortTracks_run toLowerCase localeCompare s h) as (Hstate & Hfresh & Hread & Hold).
  fold r in Hstate, Hfresh, Hread, Hold. fold shown in Hread.
  assert (Hsel : selected toLowerCase s (Heap.read (TrackList.tracks s) h)
                 = Heap.read (TrackList.tracks s) h).
  { unfold selected. rewrite Hq, Hs, Hp. reflexivity. }
  rewrite Hsel in Hread.
  split; [rewrite Hread; apply SortFacts.stable_sort_perm|].
  split; [rewrite Hstate; reflexivity|].
  split; [lia|].
  split; [apply Hold, Hvalid|].
  split; [exact Hold|].
  split.
  - intros Hdate. rewrite Hread, Hdate.
    eapply SortFacts.StronglySorted_weaken; [|apply SortFacts.stable_sort_sorted].
    + intros a b. cbn [TrackList.compareTracks]. lia.
    + split; cbn [TrackList.compareTracks]; intros; lia.
  - intros Htitle [Htotal Htrans]. rewrite Hread, Htitle.
    apply (SortFacts.stable_sort_sorted
             (TrackList.compareTracks localeCompare TrackList.title)).
    split; cbn [TrackList.compareTracks]; eauto.
Qed.

(** An instance: the two tracks of the example, sorted by title. *)
Lemma filterAndSortTracks_unfiltered_witness :
  Permutation
    (Heap.read
       (TrackList.filteredTracks
          (TrackList.filterAndSortTracks asciiToLowerCase codeUnitCompare
             (Ex.list_state "" "all" "all" TrackList.title) Ex.heap).1)
       (TrackList.filterAndSortTracks asciiToLowerCase codeUnitCompare
          (Ex.list_state "" "all" "all" TrackList.title) Ex.heap).2)
    (Heap.read 0%nat Ex.heap).
Proof.
  apply (filterAndSortTracks_unfiltered asciiToLowerCase codeUnitCompare
           (Ex.list_state "" "all" "all" TrackList.title) Ex.heap).
  - reflexivity.
  - reflexivity.
  - reflexivity.
  - simpl. lia.
Defined.

(** Sorted by title, the two tracks of the example change places in the
    array shown; the array of loaded tracks keeps its order. *)
Example unfiltered_by_title :
  TrackList.shown asciiToLowerCase codeUnitCompare (Ex.list_state "" "all" "all" TrackList.title) Ex.heap
  = [Ex.gadget; Ex.widget]
  /\ Heap.read 0%nat
       (TrackList.filterAndSortTracks asciiToLowerCase codeUnitCompare
          (Ex.list_state "" "all" "all" TrackList.title) Ex.heap).2
     = [Ex.widget; Ex.gadget].
Proof. split; vm_compute; reflexivity. Qed.

(* ===================================================================== *)
(** * The scenario of the specification *)
(* ===================================================================== *)

(** Create a track as pending: it is pending and has no update.  Add the
    update "in_progress": the track is in progress and has one update.  Add
    the update "completed": the track is completed and has two updates, the
    newest first. *)
Example scenario_ship_widget :
  (map Track.status (Store.tracks (db Ex.created)) = ["pending"]%string
   /\ Store.track_updates (db Ex.created) = [])
  /\ (map Track.status (Store.tracks (db Ex.first_update.2)) = ["in_progress"]%string
      /\ map TrackUpdate.status (TrackDetail.updates Ex.first_update.1)
         = ["in_progress"]%string)
  /\ (map Track.status (Store.tracks (db Ex.second_update.2)) = ["completed"]%string
      /\ map TrackUpdate.status (TrackDetail.updates Ex.second_update.1)
         = ["completed"; "in_progress"]%string
      /\ presented_status (TrackDetail.render Ex.second_update.1)
         = Some (TrackDetail.statusBadge "completed")
      /\ map Track.tracking_number (Store.tracks (db Ex.second_update.2))
         = ["TRK-LOYW3V28-12ZA"]%string).
Proof. vm_compute. repeat split. Qed.

(* ===================================================================== *)
(** * More on the tracking number *)
(* ===================================================================== *)

Lemma value_from_digits s :
  forall a v,
    Radix36.value_from a s = Some v ->
    Forall (fun c => Radix36.is_upper_digit c = true) (JsString.chars s).
Proof.
  induction s as [|c s IH]; intros a v Hv; cbn; [constructor|].
  cbn [Radix36.value_from] in Hv.
  destruct (Radix36.upperDigitValue c) as [d|] eqn:Hd; [|discriminate].
  constructor; [|eapply IH, Hv].
  unfold Radix36.is_upper_digit. rewrite Hd. reflexivity.
Qed.

Lemma parse_upper_value s v :
  Radix36.parse_upper s = Some v -> Radix36.value_from 0%N s = Some v.
Proof. destruct s; [discriminate|]. intros H. exact H. Qed.

(** Two numerals followed by a dash and anything: the numerals are the
    text before the first dash. *)
Lemma numeral_before_dash a :
  forall b x y acc1 acc2 va vb,
    Radix36.value_from acc1 a = Some va ->
    Radix36.value_from acc2 b = Some vb ->
    (a +:+ "-" +:+ x)%string = (b +:+ "-" +:+ y)%string ->
    a = b.
Proof.
  induction a as [|c a IH]; intros [|c' b] x y acc1 acc2 va vb Ha Hb Heq.
  - reflexivity.
  - rewrite StringFacts.append_nil_l, !StringFacts.append_cons in Heq.
    injection Heq as <- _. discriminate.
  - rewrite StringFacts.append_nil_l, !StringFacts.append_cons in Heq.
    injection Heq as -> _. discriminate.
  - rewrite !StringFacts.append_cons in Heq. injection Heq as <- Heq.
    cbn [Radix36.value_from] in Ha, Hb.
    destruct (Radix36.upperDigitValue c); [|discriminate].
    f_equal. eapply IH; eauto.
Qed.

(** X1 (a later millisecond gives another tracking number).  Tracking
    numbers generated at two different timestamps (not before the epoch)
    are different, whatever the random numbers drawn: equal tracking numbers
    were generated in the same millisecond. *)
Theorem generateTrackingNumber_timestamp_inj now1 now2 rnd1 rnd2 :
  0 <= now1 -> 0 <= now2 ->
  generateTrackingNumber now1 rnd1 = generateTrackingNumber now2 rnd2 ->
  now1 = now2.
Proof.
  intros H1 H2 Heq. rewrite !generateTrackingNumber_parts in Heq.
  apply String.app_inj in Heq.
  pose proof (timestamp_part_decodes now1 H1) as Hp1.
  pose proof (timestamp_part_decodes now2 H2) as Hp2.
  apply parse_upper_value in Hp1 as Hv1. apply parse_upper_value in Hp2 as Hv2.
  pose proof (numeral_before_dash _ _ _ _ _ _ _ _ Hv1 Hv2 Heq) as Hts.
  rewrite Hts, Hp2 in Hp1. injection Hp1 as Hn. lia.
Qed.

Lemma generateTrackingNumber_timestamp_inj_witness :
  1700000000000 = 1700000000000.
Proof.
  apply (generateTrackingNumber_timestamp_inj 1700000000000 1700000000000
           [1; 2; 3; 4]%N [1; 2; 3; 4; 5]%N); [lia|lia|].
  vm_compute. reflexivity.
Defined.

(** X2 (the full shape, when four digits are printed).  At a timestamp not
    before the epoch and for a random number printed with at least four
    base-36 digits after the point, the tracking number is "TRK-", then a
    numeral of upper-case base-36 digits that reads back as the timestamp,
    then "-", then exactly four upper-case base-36 digits. *)
Theorem generateTrackingNumber_wellformed now rnd :
  0 <= now ->
  (4 <= length rnd)%nat ->
  Forall (fun d => (d < 36)%N) rnd ->
  exists timestamp suffix,
    generateTrackingNumber now rnd = ("TRK-" +:+ timestamp +:+ "-" +:+ suffix)%string
    /\ Radix36.parse_upper timestamp = Some (Z.to_N now)
    /\ Forall (fun c => Radix36.is_upper_digit c = true) (JsString.chars timestamp)
    /\ String.length suffix = 4%nat
    /\ Forall (fun c => Radix36.is_upper_digit c = true) (JsString.chars suffix).
Proof.
  intros Hnow Hlen Hrnd.
  destruct (generateTrackingNumber_full_suffix now rnd Hlen Hrnd) as (suffix & Heq & Hl & Hc).
  exists (JsString.toUpperCase (Radix36.toString now)), suffix.
  pose proof (timestamp_part_decodes now Hnow) as Hp.
  repeat split; auto.
  eapply value_from_digits, parse_upper_value, Hp.
Qed.

Lemma generateTrackingNumber_wellformed_witness :
  exists timestamp suffix,
    generateTrackingNumber 1700000000000 [1; 2; 35; 10; 7]%N
    = ("TRK-" +:+ timestamp +:+ "-" +:+ suffix)%string
    /\ Radix36.parse_upper timestamp = Some (Z.to_N 1700000000000)
    /\ Forall (fun c => Radix36.is_upper_digit c = true) (JsString.chars timestamp)
    /\ String.length suffix = 4%nat
    /\ Forall (fun c => Radix36.is_upper_digit c = true) (JsString.chars suffix).
Proof.
  apply (generateTrackingNumber_wellformed 1700000000000 [1; 2; 35; 10; 7]%N).
  - lia.
  - simpl. lia.
  - repeat constructor.
Defined.

(* ===================================================================== *)
(** * More on creation *)
(* ===================================================================== *)

Lemma distinct_app_last l x : Store.distinct (l ++ [x]) = true -> ~ In x l.
Proof.
  induction l as [|y l IH]; simpl; [tauto|].
  intros H [->|Hin].
  - apply andb_prop in H as [H _]. apply negb_true_iff in H.
    assert (existsb (String.eqb x) (l ++ [x]) = true); [|congruence].
    apply existsb_exists. exists x. split; [apply in_or_app; right; left; reflexivity|].
    apply String.eqb_refl.
  - apply andb_prop in H as [_ H]. exact (IH H Hin).
Qed.

(** The three ways a run of [handleSubmit] ends. *)
Lemma handleSubmit_cases user now rnd cs w :
  let r := CreateTrack.handleSubmit user now rnd cs w in
  (user = None /\ r = (CreateTrack.mkOutcome cs false, w))
  \/ (exists msg,
         db r.2 = db w
         /\ r.1 = CreateTrack.mkOutcome
                    {| CreateTrack.loading := false;
                       CreateTrack.error := Some msg;
                       CreateTrack.form := CreateTrack.form cs |} false)
  \/ (exists u e rest T,
         user = Some u /\ script w = e :: rest /\ Store.reachable e = true
         /\ Store.insert_track (user_id u)
              {| TrackInsert.title := CreateTrack.Form.title (CreateTrack.form cs);
                 TrackInsert.description :=
                   CreateTrack.Form.description (CreateTrack.form cs);
                 TrackInsert.status := CreateTrack.Form.status (CreateTrack.form cs);
                 TrackInsert.priority := CreateTrack.Form.priority (CreateTrack.form cs);
                 TrackInsert.tracking_number := generateTrackingNumber now rnd;
                 TrackInsert.user_id := user_id u |} e (db w)
            = Some (db r.2)
         /\ Store.tracks (db r.2) = Store.tracks (db w) ++ [T]
         /\ r.1 = CreateTrack.mkOutcome
                    {| CreateTrack.loading := false;
                       CreateTrack.error := None;
                       CreateTrack.form := CreateTrack.form cs |} true).
Proof.
  intros r. subst r. unfold CreateTrack.handleSubmit.
  destruct user as [u|]; [|left; auto]. right.
  unfold supabase.insert_track. rewrite bind_run.
  match goal with |- context [send ?rq (write ?f) w] =>
    destruct (send_write_cases rq f w)
      as [(e & rest & d1 & Hs & He & Hf & Hrun) | (msg & Hrun)]; rewrite Hrun end;
    cbn [fst snd Store.error Store.ok Store.failed ret db].
  - right. pose proof Hf as Hf'. unfold Store.insert_track in Hf'.
    destruct (_ && _) in Hf'; [|discriminate]. injection Hf' as <-.
    eexists u, e, rest, _. repeat split; try eassumption; reflexivity.
  - left. exists msg. split; reflexivity.
Qed.

(** X3 (what a creation stores).  A creation that ends with [onBack()]
    has added exactly one row, the last of the table: it carries the form's
    title, description, status and priority, the generated tracking number,
    the user's identifier, no category, and the store's clock as both
    creation and modification time; the ledger has gained no entry, and the
    form shows no error and is no longer busy. *)
Theorem handleSubmit_stores_form user now rnd cs w :
  let r := CreateTrack.handleSubmit user now rnd cs w in
  CreateTrack.onBack_called r.1 = true ->
  exists u e rest,
    user = Some u /\ script w = e :: rest
    /\ Store.tracks (db r.2)
       = Store.tracks (db w)
         ++ [ {| Track.id := Store.uuid e;
                 Track.title := CreateTrack.Form.title (CreateTrack.form cs);
                 Track.description := CreateTrack.Form.description (CreateTrack.form cs);
                 Track.category_id := None;
                 Track.status := CreateTrack.Form.status (CreateTrack.form cs);
                 Track.priority := CreateTrack.Form.priority (CreateTrack.form cs);
                 Track.tracking_number := generateTrackingNumber now rnd;
                 Track.user_id := user_id u;
                 Track.created_at := Store.now e;
                 Track.updated_at := Store.now e |} ]
    /\ Store.track_updates (db r.2) = Store.track_updates (db w)
    /\ CreateTrack.error (CreateTrack.state r.1) = None
    /\ CreateTrack.loading (CreateTrack.state r.1) = false.
Proof.
  intros r Hback. subst r.
  destruct (handleSubmit_cases user now rnd cs w)
    as [[_ Hr] | [(msg & _ & Hr) | (u & e & rest & T & Hu & Hs & He & Hins & _ & Hr)]].
  - rewrite Hr in Hback. discriminate.
  - rewrite Hr in Hback. discriminate.
  - exists u, e, rest. rewrite Hr. unfold Store.insert_track in Hins.
    destruct (_ && _) in Hins; [|discriminate]. injection Hins as Hdb.
    rewrite <- Hdb. cbn. repeat split; assumption.
Qed.

(** An instance: the creation of the scenario. *)
Lemma handleSubmit_stores_form_witness :
  exists u e rest,
    Some Ex.alice = Some u /\ script Ex.fresh = e :: rest
    /\ Store.tracks
         (db (CreateTrack.handleSubmit (Some Ex.alice) 1700000000000 [1; 2; 35; 10; 7]%N
                Ex.widget_form Ex.fresh).2)
       = Store.tracks (db Ex.fresh)
         ++ [ {| Track.id := Store.uuid e;
                 Track.title := "Ship widget";
                 Track.description := "";
                 Track.category_id := None;
                 Track.status := "pending";
                 Track.priority := "medium";
                 Track.tracking_number :=
                   generateTrackingNumber 1700000000000 [1; 2; 35; 10; 7]%N;
                 Track.user_id := user_id u;
                 Track.created_at := Store.now e;
                 Track.updated_at := Store.now e |} ].
Proof.
  destruct (handleSubmit_stores_form (Some Ex.alice) 1700000000000 [1; 2; 35; 10; 7]%N
              Ex.widget_form Ex.fresh)
    as (u & e & rest & Hu & Hs & Ht & _).
  - vm_compute. reflexivity.
  - exists u, e, rest. repeat split; assumption.
Defined.

(** X4 (a tracking number already taken).  When the generated tracking
    number is already carried by a row of the store, whoever owns it, the
    creation stores nothing: the store is as before, [onBack] is not called,
    and the form shows an error and is no longer busy. *)
Theorem handleSubmit_collision u now rnd cs w R :
  In R (Store.tracks (db w)) ->
  Track.tracking_number R = generateTrackingNumber now rnd ->
  let r := CreateTrack.handleSubmit (Some u) now rnd cs w in
  db r.2 = db w
  /\ CreateTrack.onBack_called r.1 = false
  /\ CreateTrack.error (CreateTrack.state r.1) <> None
  /\ CreateTrack.loading (CreateTrack.state r.1) = false
  /\ CreateTrack.form (CreateTrack.state r.1) = CreateTrack.form cs.
Proof.
  intros HR Htn r. subst r.
  destruct (handleSubmit_cases (Some u) now rnd cs w)
    as [[Hu _] | [(msg & Hdb & Hr) | (u' & e & rest & T & _ & _ & _ & Hins & _ & _)]].
  - discriminate.
  - rewrite Hr, Hdb. cbn. repeat split. discriminate.
  - exfalso. unfold Store.insert_track in Hins.
    destruct (String.eqb _ _); [|discriminate]. cbn [andb] in Hins.
    destruct (Store.distinct (map Track.id _)); [|discriminate]. cbn [andb] in Hins.
    destruct (Store.distinct (map Track.tracking_number _)) eqn:Hd; [|discriminate].
    rewrite map_app in Hd. cbn [map Track.tracking_number] in Hd.
    apply distinct_app_last in Hd. apply Hd. cbn [TrackInsert.tracking_number].
    rewrite <- Htn. apply in_map, HR.
Qed.

(** An instance: the tracking number of [widget] is generated again. *)
Lemma handleSubmit_collision_witness :
  db (CreateTrack.handleSubmit (Some Ex.alice) 1700000000000 [1; 2; 35; 10; 7]%N
        Ex.create_form (Ex.world Ex.nine_answers)).2
  = db (Ex.world Ex.nine_answers).
Proof.
  apply (handleSubmit_collision Ex.alice 1700000000000 [1; 2; 35; 10; 7]%N
           Ex.create_form (Ex.world Ex.nine_answers) Ex.widget).
  - left. reflexivity.
  - vm_compute. reflexivity.
Defined.

(* ===================================================================== *)
(** * More on editing *)
(* ===================================================================== *)

(** An acknowledged edit patches the rows of [tracks] one by one. *)
Lemma edit_acknowledged u trackId s w :
  let r := TrackDetail.handleUpdateTrack (Some u) trackId s w in
  (exists rest, issued w r.2 = (UpdateTracks (edit_patch s) trackId, true) :: rest) ->
  exists e rest,
    script w = e :: rest
    /\ Store.tracks (db r.2)
       = map (Store.update_row (user_id u) (edit_patch s) trackId e) (Store.tracks (db w))
    /\ Store.track_updates (db r.2) = Store.track_updates (db w).
Proof.
  intros r [rest0 Hissued]. subst r.
  destruct (handleUpdateTrack_cases (Some u) trackId s w)
    as [[_ Hu] | [(_ & _ & Hsent) | (u' & e & rest & l & Hu & Hs & _ & Hupd & _)]].
  - discriminate.
  - apply issued_app in Hsent. rewrite Hsent in Hissued. discriminate.
  - injection Hu as <-. exists e, rest.
    apply update_tracks_updates in Hupd as [Hupds Htracks]. auto.
Qed.

Lemma update_row_owned uid patch trackId e T :
  Track.id T = trackId -> Track.user_id T = uid ->
  Store.update_row uid patch trackId e T
  = Store.update_updated_at_column e (TrackPatch.apply patch T).
Proof.
  intros Hid Hown. unfold Store.update_row, Store.owns_track.
  rewrite Hid, Hown, !String.eqb_refl. reflexivity.
Qed.

Lemma update_row_other uid patch trackId e R :
  Track.id R <> trackId \/ Track.user_id R <> uid ->
  Store.update_row uid patch trackId e R = R.
Proof.
  intros H. unfold Store.update_row, Store.owns_track.
  destruct (String.eqb_spec uid (Track.user_id R)) as [Hu|Hu];
    destruct (String.eqb_spec (Track.id R) trackId) as [Hi|Hi];
    try reflexivity.
  destruct H; congruence.
Qed.

(** X5 (what an edit writes).  An acknowledged edit of a track the user
    owns sets the title, description, status and priority of its row to the
    values of the edit form and its modification time to the store's clock;
    identifier, category, tracking number, owner and creation time are as
    before.  Every row with another identifier or another owner is left as
    it is. *)
Theorem handleUpdateTrack_writes_form u trackId s w i T :
  let r := TrackDetail.handleUpdateTrack (Some u) trackId s w in
  (exists rest, issued w r.2 = (UpdateTracks (edit_patch s) trackId, true) :: rest) ->
  Store.tracks (db w) !! i = Some T ->
  Track.id T = trackId ->
  Track.user_id T = user_id u ->
  (exists e rest,
      script w = e :: rest
      /\ Store.tracks (db r.2) !! i
         = Some {| Track.id := Track.id T;
                   Track.title := TrackDetail.EditForm.title (TrackDetail.editForm s);
                   Track.description :=
                     TrackDetail.EditForm.description (TrackDetail.editForm s);
                   Track.category_id := Track.category_id T;
                   Track.status := TrackDetail.EditForm.status (TrackDetail.editForm s);
                   Track.priority := TrackDetail.EditForm.priority (TrackDetail.editForm s);
                   Track.tracking_number := Track.tracking_number T;
                   Track.user_id := Track.user_id T;
                   Track.created_at := Track.created_at T;
                   Track.updated_at := Store.now e |})
  /\ (forall j R,
         Store.tracks (db w) !! j = Some R ->
         Track.id R <> trackId \/ Track.user_id R <> user_id u ->
         Store.tracks (db r.2) !! j = Some R).
Proof.
  intros r Hack HT Hid Hown.
  destruct (edit_acknowledged u trackId s w Hack) as (e & rest & Hs & Ht & _).
  fold r in Ht. split.
  - exists e, rest. split; [exact Hs|].
    rewrite Ht, list_lookup_fmap, HT. cbn [fmap option_fmap option_map].
    rewrite update_row_owned by assumption. reflexivity.
  - intros j R HR Hother.
    rewrite Ht, list_lookup_fmap, HR. cbn [fmap option_fmap option_map].
    rewrite update_row_other by assumption. reflexivity.
Qed.

(** An instance: alice saves the edit form of [widget] with another title
    and status. *)
Lemma handleUpdateTrack_writes_form_witness :
  exists e rest,
    script (Ex.world Ex.four_answers) = e :: rest
    /\ Store.tracks
         (db (TrackDetail.handleUpdateTrack (Some Ex.alice) "t-1" More.editing
                (Ex.world Ex.four_answers)).2) !! 0%nat
       = Some {| Track.id := "t-1";
                 Track.title := "Ship two widgets";
                 Track.description := "two boxes";
                 Track.category_id := None;
                 Track.status := "cancelled";
                 Track.priority := "medium";
                 Track.tracking_number := "TRK-LOYW3V28-12ZA";
                 Track.user_id := "u-alice";
                 Track.created_at := 1700000000000;
                 Track.updated_at := Store.now e |}.
Proof.
  destruct (handleUpdateTrack_writes_form Ex.alice "t-1" More.editing
              (Ex.world Ex.four_answers) 0%nat Ex.widget) as [H _].
  - eexists. vm_compute. reflexivity.
  - reflexivity.
  - reflexivity.
  - reflexivity.
  - exact H.
Defined.

(** X6 (an edit that is not acknowledged changes nothing).  Unless the
    write of an edit comes back without error, the store is as before and
    so is the view: the edit form stays open with what was typed. *)
Theorem handleUpdateTrack_failure user trackId s w :
  let r := TrackDetail.handleUpdateTrack user trackId s w in
  (forall rest, issued w r.2 <> (UpdateTracks (edit_patch s) trackId, true) :: rest) ->
  r.1 = s /\ db r.2 = db w.
Proof.
  intros r Hnack. subst r.
  destruct (handleUpdateTrack_cases user trackId s w)
    as [[Hr _] | [(Hst & Hdb & _) | (u' & e & rest & l & _ & _ & _ & _ & Hsent & _)]].
  - rewrite Hr. auto.
  - auto.
  - exfalso. apply issued_app in Hsent. eapply Hnack, Hsent.
Qed.

(** An instance: the store is not reached. *)
Lemma handleUpdateTrack_failure_witness :
  (TrackDetail.handleUpdateTrack (Some Ex.alice) "t-1" More.editing
     (Ex.world [Ex.offline])).1 = More.editing.
Proof.
  apply (handleUpdateTrack_failure (Some Ex.alice) "t-1" More.editing
           (Ex.world [Ex.offline])).
  intros rest. vm_compute. discriminate.
Defined.

(** What a load that finds the row leaves in the view. *)
Lemma loadTrackDetails_found uid trackId captured cur w e rest R :
  script w = e :: rest ->
  Store.reachable e = true ->
  Store.select_track uid trackId uid (db w) = [R] ->
  let s' := (TrackDetail.loadTrackDetails (Some (mkUser uid)) trackId captured cur w).1 in
  TrackDetail.track s' = Some R
  /\ TrackDetail.editForm s'
     = {| TrackDetail.EditForm.title := Track.title R;
          TrackDetail.EditForm.description := Track.description R;
          TrackDetail.EditForm.status := Track.status R;
          TrackDetail.EditForm.priority := Track.priority R |}
  /\ TrackDetail.updateForm s'
     = {| TrackDetail.UpdateForm.status := Track.status R;
          TrackDetail.UpdateForm.message :=
            TrackDetail.UpdateForm.message (TrackDetail.updateForm captured);
          TrackDetail.UpdateForm.location :=
            TrackDetail.UpdateForm.location (TrackDetail.updateForm captured) |}
  /\ TrackDetail.loading s' = false
  /\ TrackDetail.showUpdateForm s' = TrackDetail.showUpdateForm cur
  /\ TrackDetail.isEditing s' = TrackDetail.isEditing cur.
Proof.
  intros Hs He Hsel s'. subst s'.
  unfold TrackDetail.loadTrackDetails. rewrite !bind_run.
  assert (Hres : Store.data
                   (supabase.select_track_maybeSingle uid trackId uid w).1 = Some R).
  { unfold supabase.select_track_maybeSingle, send. rewrite Hs, He, Hsel. reflexivity. }
  cbn [user_id ret fst]. rewrite Hres.
  destruct (Store.data (supabase.select_track_updates uid trackId _).1);
    cbn; repeat split.
Qed.

(** X7 (editing the title only).  The view of a track having been loaded
    from the store, an acknowledged edit in which only the title of the
    edit form was changed leaves the description, status, priority and
    tracking number of the row as they were and sets its title to the new
    one. *)
Theorem edit_title_only u trackId s w e1 rest1 i R title :
  script w = e1 :: rest1 ->
  Store.reachable e1 = true ->
  Store.select_track (user_id u) trackId (user_id u) (db w) = [R] ->
  Store.tracks (db w) !! i = Some R ->
  let loaded := TrackDetail.loadTrackDetails (Some u) trackId s s w in
  let r := TrackDetail.handleUpdateTrack (Some u) trackId (retitle title loaded.1) loaded.2 in
  (exists rest,
      issued loaded.2 r.2
      = (UpdateTracks (edit_patch (retitle title loaded.1)) trackId, true) :: rest) ->
  exists T',
    Store.tracks (db r.2) !! i = Some T'
    /\ Track.title T' = title
    /\ Track.description T' = Track.description R
    /\ Track.status T' = Track.status R
    /\ Track.priority T' = Track.priority R
    /\ Track.tracking_number T' = Track.tracking_number R
    /\ Track.id T' = Track.id R.
Proof.
  intros Hs He Hsel HR loaded r Hack.
  assert (HinR : In R (Store.select_track (user_id u) trackId (user_id u) (db w))).
  { rewrite Hsel. left. reflexivity. }
  unfold Store.select_track in HinR. apply filter_In in HinR as [_ Hp].
  apply andb_prop in Hp as [Hp Huid]. apply andb_prop in Hp as [_ Hid].
  apply String.eqb_eq in Hid, Huid.
  destruct u as [uid]. cbn [user_id] in *.
  destruct (loadTrackDetails_found uid trackId s s w e1 rest1 R Hs He Hsel)
    as (_ & Hform & _).
  destruct (loadTrackDetails_reads (Some (mkUser uid)) trackId s s w) as [Hdb _].
  fold loaded in Hform, Hdb.
  destruct (edit_acknowledged (mkUser uid) trackId (retitle title loaded.1) loaded.2 Hack)
    as (e & rest & _ & Ht & _).
  fold r in Ht. cbn [user_id] in Ht. clearbody r. clearbody loaded.
  eexists. split.
  - rewrite Ht, Hdb, list_lookup_fmap, HR. cbn [fmap option_fmap option_map].
    rewrite update_row_owned by assumption. reflexivity.
  - unfold retitle. cbn. rewrite Hform. cbn. repeat split.
Qed.

(** An instance: alice opens [widget] and changes its title. *)
Lemma edit_title_only_witness :
  exists T',
    Store.tracks
      (db (TrackDetail.handleUpdateTrack (Some Ex.alice) "t-1"
             (retitle "Ship gizmo"
                (TrackDetail.loadTrackDetails (Some Ex.alice) "t-1" TrackDetail.initial
                   TrackDetail.initial (Ex.world Ex.four_answers)).1)
             (TrackDetail.loadTrackDetails (Some Ex.alice) "t-1" TrackDetail.initial
                TrackDetail.initial (Ex.world Ex.four_answers)).2).2) !! 0%nat
    = Some T'
    /\ Track.title T' = "Ship gizmo"%string
    /\ Track.status T' = "pending"%string.
Proof.
  destruct (edit_title_only Ex.alice "t-1" TrackDetail.initial (Ex.world Ex.four_answers)
              (Ex.online 1700000009000 "id-1") (tail Ex.four_answers) 0%nat Ex.widget
              "Ship gizmo")
    as (T' & Hl & Ht & _ & Hst & _).
  - reflexivity.
  - reflexivity.
  - vm_compute. reflexivity.
  - reflexivity.
  - eexists. vm_compute. reflexivity.
  - exists T'. repeat split; assumption.
Defined.

(* ===================================================================== *)
(** * Edits and appends: whose rows, which entries *)
(* ===================================================================== *)

(** What one action does to the two tables: the rows of [tracks] are
    patched one by one, the rows of other owners not at all; the ledger
    keeps its entries and gains at most one, authored by the acting user. *)
Lemma perform_tables u a w :
  run_by u a ->
  (exists f : Track.t -> Track.t,
      Store.tracks (db (perform a w).2) = map f (Store.tracks (db w))
      /\ forall R, Track.user_id R <> user_id u -> f R = R)
  /\ (exists new,
         Store.track_updates (db (perform a w).2) = Store.track_updates (db w) ++ new
         /\ (length new <= 1)%nat
         /\ Forall (fun x => TrackUpdate.user_id x = user_id u) new).
Proof.
  assert (Hid : forall d : Store.Database,
             (exists f : Track.t -> Track.t,
                 Store.tracks d = map f (Store.tracks d)
                 /\ forall R, Track.user_id R <> user_id u -> f R = R)
             /\ (exists new,
                    Store.track_updates d = Store.track_updates d ++ new
                    /\ (length new <= 1)%nat
                    /\ Forall (fun x => TrackUpdate.user_id x = user_id u) new)).
  { intros d. split.
    - exists (fun R => R). split; [symmetry; apply map_id|reflexivity].
    - exists []. split; [symmetry; apply app_nil_r|]. split; [simpl; lia|constructor]. }
  destruct a as [user trackId s | user trackId s]; cbn [run_by perform]; intros ->.
  - destruct (handleUpdateTrack_cases (Some u) trackId s w)
      as [[Hr _] | [(_ & Hdb & _) | (u' & e & rest & l & Hu & _ & _ & Hupd & _)]].
    + rewrite Hr. apply Hid.
    + rewrite Hdb. apply Hid.
    + injection Hu as <-. apply update_tracks_updates in Hupd as [Hupds Ht]. split.
      * eexists. split; [exact Ht|]. intros R HR. apply update_row_other. auto.
      * exists []. rewrite Hupds, app_nil_r. split; [reflexivity|].
        split; [simpl; lia|constructor].
  - destruct (handleAddUpdate_cases (Some u) trackId s w)
      as [[Hr _] | [(u' & _ & _ & Hdb & _) | Hstored]].
    + rewrite Hr. apply Hid.
    + rewrite Hdb. apply Hid.
    + destruct Hstored
        as (u' & e & rest & d1 & ok & d2 & l & Hu & _ & _ & Hins & Hupd & Hdb & _).
      injection Hu as <-. rewrite Hdb.
      assert (Hd1 : Store.tracks d1 = Store.tracks (db w)
                    /\ exists x, Store.track_updates d1 = Store.track_updates (db w) ++ [x]
                                 /\ TrackUpdate.user_id x = user_id u).
      { unfold Store.insert_track_update in Hins.
        destruct (_ && _) in Hins; [|discriminate]. injection Hins as <-.
        cbn. eauto. }
      destruct Hd1 as (Ht1 & x & Hu1 & Hx).
      assert (Hnew : exists new,
                 Store.track_updates d1 = Store.track_updates (db w) ++ new
                 /\ (length new <= 1)%nat
                 /\ Forall (fun x => TrackUpdate.user_id x = user_id u) new).
      { exists [x]. split; [exact Hu1|]. split; [simpl; lia|]. repeat constructor. exact Hx. }
      destruct ok.
      * destruct Hupd as (e2 & rest2 & _ & _ & Hupd).
        apply update_tracks_updates in Hupd as [Hupds Ht]. split.
        -- eexists. split; [rewrite Ht, Ht1; reflexivity|].
           intros R HR. apply update_row_other. auto.
        -- rewrite Hupds. exact Hnew.
      * subst d2. split; [|exact Hnew].
        exists (fun R => R). rewrite Ht1. split; [symmetry; apply map_id|reflexivity].
Qed.

(** X8 (writes stay within the owner's rows).  Whatever edits and appends
    a user runs and whatever the store answers, every row of [tracks] owned
    by someone else is, at its place in the table, exactly as it was. *)
Theorem writes_stay_within_owner u actions w j R :
  Forall (run_by u) actions ->
  Store.tracks (db w) !! j = Some R ->
  Track.user_id R <> user_id u ->
  Store.tracks (db (perform_all actions w)) !! j = Some R.
Proof.
  intros Hrun. revert w. induction Hrun as [|a actions Ha _ IH]; intros w HR Hown.
  - exact HR.
  - cbn [perform_all]. apply IH; [|exact Hown].
    destruct (perform_tables u a w Ha) as [(f & Ht & Hf) _].
    rewrite Ht, list_lookup_fmap, HR. cbn [fmap option_fmap option_map].
    rewrite Hf by exact Hown. reflexivity.
Qed.

(** An instance: alice edits and appends with the identifier of a track of
    bob. *)
Lemma writes_stay_within_owner_witness :
  Store.tracks (db (perform_all More.on_crate More.shared)) !! 1%nat = Some More.crate.
Proof.
  apply (writes_stay_within_owner Ex.alice More.on_crate More.shared 1%nat More.crate).
  - repeat constructor.
  - reflexivity.
  - discriminate.
Defined.

(** X9 (the ledger is append-only under edits and appends).  After any
    sequence of edits and appends run by a user, the table of updates is
    the one before followed by new entries, all authored by that user and
    at most one per action: no entry is changed, removed or moved. *)
Theorem ledger_append_only u actions w :
  Forall (run_by u) actions ->
  exists new,
    Store.track_updates (db (perform_all actions w)) = Store.track_updates (db w) ++ new
    /\ (length new <= length actions)%nat
    /\ Forall (fun x => TrackUpdate.user_id x = user_id u) new.
Proof.
  intros Hrun. revert w. induction Hrun as [|a actions Ha _ IH]; intros w.
  - exists []. split; [symmetry; apply app_nil_r|]. split; [simpl; lia|constructor].
  - cbn [perform_all].
    destruct (perform_tables u a w Ha) as [_ (new1 & H1 & Hl1 & Hu1)].
    destruct (IH (perform a w).2) as (new2 & H2 & Hl2 & Hu2).
    exists (new1 ++ new2). rewrite H2, H1, <- app_assoc. split; [reflexivity|].
    split; [rewrite length_app; simpl; lia|]. apply Forall_app. auto.
Qed.

(** An instance: two appends and an edit by alice on the store of the
    examples. *)
Lemma ledger_append_only_witness :
  exists new,
    Store.track_updates (db (perform_all More.three_actions (Ex.world More.twelve_answers)))
    = Store.track_updates (db (Ex.world More.twelve_answers)) ++ new
    /\ (length new <= 3)%nat.
Proof.
  destruct (ledger_append_only Ex.alice More.three_actions (Ex.world More.twelve_answers))
    as (new & H & Hl & _).
  - repeat constructor.
  - exists new. split; assumption.
Defined.

(** X10 (no append to a track of someone else).  When the store holds no
    track with the view's identifier that the user owns, an append stores
    nothing: the store and the view are as before. *)
Theorem handleAddUpdate_foreign_track u trackId s w :
  (forall R, In R (Store.tracks (db w)) -> Track.id R = trackId ->
             Track.user_id R <> user_id u) ->
  let r := TrackDetail.handleAddUpdate (Some u) trackId s w in
  r.1 = s /\ db r.2 = db w.
Proof.
  intros Hforeign r. subst r.
  destruct (handleAddUpdate_cases (Some u) trackId s w)
    as [[Hr _] | [(u' & _ & Hst & Hdb & _) | Hstored]].
  - rewrite Hr. auto.
  - auto.
  - exfalso.
    destruct Hstored as (u' & e & rest & d1 & ok & d2 & l & Hu & _ & _ & Hins & _).
    injection Hu as <-.
    apply insert_track_update_owner in Hins as (R & Hin & Hid & Hown).
    exact (Hforeign R Hin Hid Hown).
Qed.

(** An instance: alice's view, left open on the identifier of bob's track,
    adds an update. *)
Lemma handleAddUpdate_foreign_track_witness :
  db (TrackDetail.handleAddUpdate (Some Ex.alice) "t-9" Ex.detail More.shared).2
  = db More.shared.
Proof.
  apply (handleAddUpdate_foreign_track Ex.alice "t-9" Ex.detail More.shared).
  intros R [<-|[<-|[]]]; intros H; [discriminate H|discriminate].
Defined.

(* ===================================================================== *)
(** * Appends: the ledger as it is read back *)
(* ===================================================================== *)

(** An element that sorts strictly before all the others and was added
    last comes first. *)
Lemma stable_sort_newest {A} (cmp : A -> A -> Z) (l : list A) (n : A) :
  (forall x, In x l -> 0 < cmp x n) ->
  stable_sort cmp (l ++ [n]) = n :: stable_sort cmp l.
Proof.
  unfold stable_sort. rewrite fold_right_app. cbn [fold_right insert_by].
  induction l as [|x l IH]; intros Hl; [reflexivity|].
  cbn [fold_right]. rewrite IH by (intros y Hy; apply Hl; right; exact Hy).
  cbn [insert_by].
  destruct (Z.leb_spec (cmp x n) 0) as [Hle|Hgt]; [|reflexivity].
  specialize (Hl x (or_introl eq_refl)). lia.
Qed.

Lemma owns_parent_track_tracks uid d d' x :
  Store.tracks d' = Store.tracks d ->
  Store.owns_parent_track uid d' x = Store.owns_parent_track uid d x.
Proof. intros H. unfold Store.owns_parent_track. rewrite H. reflexivity. Qed.

(** What an append whose insert is acknowledged does to the store: the new
    entry is the last of the ledger, and the updates read back are those of
    the ledger so extended (whether or not the track-status write was
    stored). *)
Lemma append_acknowledged u trackId s w :
  let r := TrackDetail.handleAddUpdate (Some u) trackId s w in
  (exists rest, issued w r.2 = (InsertTrackUpdate (append_row trackId s u), true) :: rest) ->
  exists e rest d1,
    script w = e :: rest
    /\ Store.insert_track_update (user_id u) (append_row trackId s u) e (db w) = Some d1
    /\ Store.tracks d1 = Store.tracks (db w)
    /\ Store.track_updates d1
       = Store.track_updates (db w)
         ++ [ {| TrackUpdate.id := Store.uuid e;
                 TrackUpdate.track_id := trackId;
                 TrackUpdate.status :=
                   TrackDetail.UpdateForm.status (TrackDetail.updateForm s);
                 TrackUpdate.message :=
                   TrackDetail.UpdateForm.message (TrackDetail.updateForm s);
                 TrackUpdate.location :=
                   TrackDetail.UpdateForm.location (TrackDetail.updateForm s);
                 TrackUpdate.user_id := user_id u;
                 TrackUpdate.created_at := Store.now e |} ]
    /\ Store.track_updates (db r.2) = Store.track_updates d1
    /\ forall uid track_id,
         Store.select_track_updates uid track_id (db r.2)
         = Store.select_track_updates uid track_id d1.
Proof.
  intros r [rest0 Hissued]. subst r.
  destruct (handleAddUpdate_cases (Some u) trackId s w)
    as [[Hr _] | [(u' & _ & _ & _ & Hsent) | Hstored]].
  - rewrite Hr in Hissued. cbn [snd] in Hissued. rewrite issued_refl in Hissued.
    discriminate.
  - apply issued_app in Hsent. rewrite Hsent in Hissued. discriminate.
  - destruct Hstored
      as (u' & e & rest & d1 & ok & d2 & l & Hu & Hs & _ & Hins & Hupd & Hdb & _).
    injection Hu as <-. exists e, rest, d1. rewrite Hdb.
    split; [exact Hs|]. split; [exact Hins|].
    assert (Hd1 : d1 = {| Store.tracks := Store.tracks (db w);
                         Store.track_updates :=
                           Store.track_updates (db w)
                           ++ [ {| TrackUpdate.id := Store.uuid e;
                                   TrackUpdate.track_id := trackId;
                                   TrackUpdate.status :=
                                     TrackDetail.UpdateForm.status (TrackDetail.updateForm s);
                                   TrackUpdate.message :=
                                     TrackDetail.UpdateForm.message (TrackDetail.updateForm s);
                                   TrackUpdate.location :=
                                     TrackDetail.UpdateForm.location (TrackDetail.updateForm s);
                                   TrackUpdate.user_id := user_id u;
                                   TrackUpdate.created_at := Store.now e |} ] |}).
    { unfold Store.insert_track_update in Hins.
      destruct (_ && _) in Hins; [|discriminate]. injection Hins as <-. reflexivity. }
    split; [rewrite Hd1; reflexivity|]. split; [rewrite Hd1; reflexivity|].
    destruct ok.
    + destruct Hupd as (e2 & rest2 & _ & _ & Hupd).
      apply update_tracks_updates in Hupd as [Hupds Ht]. split; [exact Hupds|].
      intros uid track_id. eapply select_track_updates_patched; eauto.
      intros R. edestruct update_row_inv as (H1 & _ & H3 & _);
        [..|split; [exact H1|exact H3]]; reflexivity.
    + subst d2. auto.
Qed.

(** X11 (the new entry is read back first).  After an append whose insert
    is acknowledged, at a store clock later than the creation times of the
    track's entries, the updates read back for the track are the new entry,
    carrying the status, message and location of the form, followed by the
    updates read back before; this holds whether or not the track-status
    write was stored. *)
Theorem handleAddUpdate_newest_first u trackId s w e rest :
  script w = e :: rest ->
  let r := TrackDetail.handleAddUpdate (Some u) trackId s w in
  (exists rest', issued w r.2
                 = (InsertTrackUpdate (append_row trackId s u), true) :: rest') ->
  (forall x, In x (Store.track_updates (db w)) ->
             TrackUpdate.track_id x = trackId ->
             TrackUpdate.created_at x < Store.now e) ->
  Store.select_track_updates (user_id u) trackId (db r.2)
  = {| TrackUpdate.id := Store.uuid e;
       TrackUpdate.track_id := trackId;
       TrackUpdate.status := TrackDetail.UpdateForm.status (TrackDetail.updateForm s);
       TrackUpdate.message := TrackDetail.UpdateForm.message (TrackDetail.updateForm s);
       TrackUpdate.location := TrackDetail.UpdateForm.location (TrackDetail.updateForm s);
       TrackUpdate.user_id := user_id u;
       TrackUpdate.created_at := Store.now e |}
    :: Store.select_track_updates (user_id u) trackId (db w).
Proof.
  intros Hs r Hack Hnewer.
  destruct (append_acknowledged u trackId s w Hack)
    as (e' & rest' & d1 & Hs' & Hins & Ht1 & Hu1 & _ & Hsel).
  fold r in Hsel. rewrite Hs in Hs'. injection Hs' as <- <-.
  rewrite Hsel. unfold Store.select_track_updates. rewrite Hu1, List.filter_app.
  set (new := {| TrackUpdate.id := Store.uuid e |}) in *.
  assert (Hkeep : List.filter
                    (fun x => Store.owns_parent_track (user_id u) d1 x
                              && String.eqb (TrackUpdate.track_id x) trackId) [new]
                  = [new]).
  { cbn [List.filter].
    assert (Hown : Store.owns_parent_track (user_id u) d1 new = true).
    { rewrite (owns_parent_track_tracks _ (db w)) by exact Ht1.
      unfold Store.insert_track_update in Hins.
      destruct (String.eqb _ _); [|discriminate]. cbn [andb] in Hins.
      destruct (Store.owns_parent_track _ _ _) eqn:Hown in Hins; [|discriminate].
      exact Hown. }
    rewrite Hown. subst new. cbn [TrackUpdate.track_id]. rewrite String.eqb_refl.
    reflexivity. }
  rewrite Hkeep.
  assert (Hold : List.filter
                   (fun x => Store.owns_parent_track (user_id u) d1 x
                             && String.eqb (TrackUpdate.track_id x) trackId)
                   (Store.track_updates (db w))
                 = List.filter
                     (fun x => Store.owns_parent_track (user_id u) (db w) x
                               && String.eqb (TrackUpdate.track_id x) trackId)
                     (Store.track_updates (db w))).
  { apply filter_ext. intros x.
    rewrite (owns_parent_track_tracks _ (db w)) by exact Ht1. reflexivity. }
  rewrite Hold. apply stable_sort_newest.
  intros x Hx. apply filter_In in Hx as [Hin Hp].
  apply andb_prop in Hp as [_ Hid]. apply String.eqb_eq in Hid.
  specialize (Hnewer x Hin Hid). subst new. cbn [TrackUpdate.created_at]. lia.
Qed.

(** An instance: the second update of the scenario is read back before the
    first. *)
Lemma handleAddUpdate_newest_first_witness :
  map TrackUpdate.status
      (Store.select_track_updates (user_id Ex.alice) "t-1" (db Ex.second_update.2))
  = "completed"%string
    :: map TrackUpdate.status
           (Store.select_track_updates (user_id Ex.alice) "t-1" (db Ex.first_update.2)).
Proof.
  pose proof (handleAddUpdate_newest_first Ex.alice "t-1"
                (Ex.fill "completed" "" Ex.first_update.1) Ex.first_update.2
                (Ex.online 400 "up-2")
                [Ex.online 401 ""; Ex.online 402 ""; Ex.online 403 ""]) as H.
  cbv zeta in H. unfold Ex.second_update. rewrite H.
  - reflexivity.
  - vm_compute. reflexivity.
  - eexists. vm_compute. reflexivity.
  - intros x Hx _. vm_compute in Hx. destruct Hx as [<-|[]]. vm_compute. reflexivity.
Defined.

(** An append whose insert is acknowledged ends by loading the details
    again, from the closure of the render that ran it and on the state with
    the update form cleared and closed. *)
Lemma handleAddUpdate_then_load u trackId s w e1 e2 rest :
  TrackDetail.track s <> None ->
  script w = e1 :: e2 :: rest ->
  (exists rest', issued w (TrackDetail.handleAddUpdate (Some u) trackId s w).2
                 = (InsertTrackUpdate (append_row trackId s u), true) :: rest') ->
  exists w2,
    script w2 = rest
    /\ TrackDetail.handleAddUpdate (Some u) trackId s w
       = TrackDetail.loadTrackDetails (Some u) trackId s
           (TrackDetail.setShowUpdateForm false
              (TrackDetail.setUpdateForm
                 {| TrackDetail.UpdateForm.status :=
                      TrackDetail.UpdateForm.status (TrackDetail.updateForm s);
                    TrackDetail.UpdateForm.message := "";
                    TrackDetail.UpdateForm.location := "" |} s))
           w2.
Proof.
  intros Htrack Hs [rest' Hissued]. revert Hissued.
  unfold TrackDetail.handleAddUpdate.
  destruct (TrackDetail.track s) as [t|]; [|congruence].
  fold (append_row trackId s u). fold (append_patch s).
  unfold supabase.insert_track_update. rewrite bind_run.
  destruct (send_write_cases (InsertTrackUpdate (append_row trackId s u))
              (Store.insert_track_update (user_id u) (append_row trackId s u)) w)
    as [(e & rest0 & d1 & Hs0 & He & Hf & Hrun) | (msg & Hrun)]; rewrite Hrun;
    cbn [fst snd Store.error Store.ok Store.failed ret].
  - intros _. rewrite Hs in Hs0. injection Hs0 as <- <-.
    unfold supabase.update_tracks. rewrite bind_run.
    match goal with |- context [send ?rq (write ?f) ?w1] =>
      destruct (send_write_cases rq f w1)
        as [(e2' & rest2 & d2 & Hs2 & He2 & Hf2 & Hrun2) | (msg & Hrun2)]; rewrite Hrun2 end;
      cbn [fst snd].
    + cbn [script] in Hs2. injection Hs2 as <- <-. eexists. split; [|reflexivity].
      reflexivity.
    + eexists. split; [|reflexivity]. reflexivity.
  - intros Hissued. exfalso.
    rewrite (issued_app w _ [(InsertTrackUpdate (append_row trackId s u), false)])
      in Hissued by reflexivity.
    discriminate.
Qed.

(** X12 (the update form after an append).  After an append whose insert
    is acknowledged and whose reload finds the track, the view holds the
    row as loaded, the update form is closed, and the form's fields are the
    status of the loaded row together with the message and the location
    that were just submitted: the reload, run from the closure of the render
    that submitted them, puts them back over the cleared form. *)
Theorem handleAddUpdate_form_after_reload u trackId s w e1 e2 e3 rest R :
  TrackDetail.track s <> None ->
  script w = e1 :: e2 :: e3 :: rest ->
  Store.reachable e3 = true ->
  let r := TrackDetail.handleAddUpdate (Some u) trackId s w in
  (exists rest', issued w r.2
                 = (InsertTrackUpdate (append_row trackId s u), true) :: rest') ->
  Store.select_track (user_id u) trackId (user_id u) (db r.2) = [R] ->
  TrackDetail.track r.1 = Some R
  /\ TrackDetail.showUpdateForm r.1 = false
  /\ TrackDetail.updateForm r.1
     = {| TrackDetail.UpdateForm.status := Track.status R;
          TrackDetail.UpdateForm.message :=
            TrackDetail.UpdateForm.message (TrackDetail.updateForm s);
          TrackDetail.UpdateForm.location :=
            TrackDetail.UpdateForm.location (TrackDetail.updateForm s) |}.
Proof.
  intros Htrack Hs He3 r Hack Hsel.
  destruct (handleAddUpdate_then_load u trackId s w e1 e2 (e3 :: rest) Htrack Hs Hack)
    as (w2 & Hs2 & Hrun).
  subst r. rewrite Hrun in Hsel |- *.
  match type of Hsel with context [TrackDetail.loadTrackDetails ?a ?b ?c ?d ?w2] =>
    destruct (loadTrackDetails_reads a b c d w2) as [Hdb _] end.
  rewrite Hdb in Hsel. destruct u as [uid]. cbn [user_id] in *.
  match goal with |- context [TrackDetail.loadTrackDetails _ _ _ ?cur _] =>
    destruct (loadTrackDetails_found uid trackId s cur w2 e3 rest R Hs2 He3 Hsel)
      as (Ht & _ & Hform & _ & Hshow & _) end.
  split; [exact Ht|]. split; [rewrite Hshow; reflexivity|exact Hform].
Qed.

(** An instance: alice adds "completed" with the message "delivered" to
    [widget]; the form ends closed and holds "delivered" again. *)
Lemma handleAddUpdate_form_after_reload_witness :
  TrackDetail.UpdateForm.message
    (TrackDetail.updateForm
       (TrackDetail.handleAddUpdate (Some Ex.alice) "t-1" Ex.detail
          (Ex.world Ex.four_answers)).1)
  = "delivered"%string.
Proof.
  edestruct (handleAddUpdate_form_after_reload Ex.alice "t-1" Ex.detail
               (Ex.world Ex.four_answers)) as (_ & _ & Hform).
  - discriminate.
  - reflexivity.
  - reflexivity.
  - eexists. vm_compute. reflexivity.
  - vm_compute. reflexivity.
  - rewrite Hform. reflexivity.
Defined.

(* ===================================================================== *)
(** * Loading the details of a track *)
(* ===================================================================== *)

Lemma created_at_desc_consistent :
  Consistent (fun a b : TrackUpdate.t => TrackUpdate.created_at b - TrackUpdate.created_at a).
Proof. split; intros; lia. Qed.

(** The track a load leaves in the view. *)
Lemma loadTrackDetails_track uid trackId captured cur w :
  let s' := (TrackDetail.loadTrackDetails (Some (mkUser uid)) trackId captured cur w).1 in
  TrackDetail.track s' = TrackDetail.track cur
  \/ exists R, TrackDetail.track s' = Some R
               /\ In R (Store.tracks (db w))
               /\ Track.id R = trackId
               /\ Track.user_id R = uid.
Proof.
  intros s'. subst s'. unfold TrackDetail.loadTrackDetails. rewrite !bind_run.
  cbn [user_id ret fst].
  assert (Hdata : Store.data (supabase.select_track_maybeSingle uid trackId uid w).1 = None
                  \/ exists R, Store.data (supabase.select_track_maybeSingle uid trackId uid w).1
                               = Some R
                               /\ In R (Store.select_track uid trackId uid (db w))).
  { unfold supabase.select_track_maybeSingle, send.
    destruct (script w) as [|e rest]; [left; reflexivity|].
    destruct (Store.reachable e); [|left; reflexivity].
    destruct (Store.select_track uid trackId uid (db w)) as [|R [|R' l]];
      cbn; [left; reflexivity| |left; reflexivity].
    right. exists R. split; [reflexivity|left; reflexivity]. }
  destruct Hdata as [Hnone | (R & Hsome & Hin)].
  - left. rewrite Hnone.
    destruct (Store.data (supabase.select_track_updates uid trackId _).1); reflexivity.
  - right. exists R. rewrite Hsome.
    unfold Store.select_track in Hin. apply filter_In in Hin as [Hin Hp].
    apply andb_prop in Hp as [Hp Hu]. apply andb_prop in Hp as [_ Hi].
    apply String.eqb_eq in Hi, Hu.
    destruct (Store.data (supabase.select_track_updates uid trackId _).1);
      cbn; repeat split; assumption.
Qed.

(** X13 (what a load puts in the view).  After a load, the track in the
    view is either the one it held before or a row of the store with the
    view's identifier, owned by the user.  When the request for the updates
    is answered, the updates in the view are exactly the entries of the
    ledger that refer to that identifier and whose track the user owns,
    newest first. *)
Theorem loadTrackDetails_own_data uid trackId s w e1 e2 rest :
  script w = e1 :: e2 :: rest ->
  Store.reachable e2 = true ->
  let s' := (TrackDetail.loadTrackDetails (Some (mkUser uid)) trackId s s w).1 in
  (TrackDetail.track s' = TrackDetail.track s
   \/ exists R, TrackDetail.track s' = Some R
                /\ In R (Store.tracks (db w))
                /\ Track.id R = trackId
                /\ Track.user_id R = uid)
  /\ (forall x, In x (TrackDetail.updates s')
                <-> In x (Store.track_updates (db w))
                    /\ TrackUpdate.track_id x = trackId
                    /\ exists R, In R (Store.tracks (db w))
                                 /\ Track.id R = trackId
                                 /\ Track.user_id R = uid)
  /\ StronglySorted (fun a b => TrackUpdate.created_at b <= TrackUpdate.created_at a)
                    (TrackDetail.updates s').
Proof.
  intros Hs He2 s'. split; [apply loadTrackDetails_track|].
  assert (Hupd : TrackDetail.updates s' = Store.select_track_updates uid trackId (db w)).
  { subst s'. unfold TrackDetail.loadTrackDetails. rewrite !bind_run.
    cbn [user_id ret fst].
    set (w1 := (supabase.select_track_maybeSingle uid trackId uid w).2).
    assert (Hw1 : script w1 = e2 :: rest /\ db w1 = db w).
    { subst w1. unfold supabase.select_track_maybeSingle, send. rewrite Hs.
      destruct (Store.reachable e1); [|split; reflexivity].
      destruct (Store.select_track uid trackId uid (db w)) as [|? [|? ?]];
        split; reflexivity. }
    destruct Hw1 as [Hs1 Hdb1].
    assert (Hres : Store.data (supabase.select_track_updates uid trackId w1).1
                   = Some (Store.select_track_updates uid trackId (db w))).
    { unfold supabase.select_track_updates, send. rewrite Hs1, He2, Hdb1. reflexivity. }
    rewrite Hres.
    destruct (Store.data (supabase.select_track_maybeSingle uid trackId uid w).1);
      reflexivity. }
  rewrite Hupd. unfold Store.select_track_updates. split.
  - intros x. split.
    + intros Hx. eapply Permutation_in in Hx; [|apply SortFacts.stable_sort_perm].
      apply filter_In in Hx as [Hin Hp]. apply andb_prop in Hp as [Hown Hid].
      apply String.eqb_eq in Hid. split; [exact Hin|]. split; [exact Hid|].
      unfold Store.owns_parent_track in Hown. apply existsb_exists in Hown as (R & HR & Hp).
      apply andb_prop in Hp as [H1 H2]. apply String.eqb_eq in H1, H2.
      exists R. repeat split; congruence.
    + intros (Hin & Hid & R & HR & HRid & HRown).
      eapply Permutation_in; [symmetry; apply SortFacts.stable_sort_perm|].
      apply filter_In. split; [exact Hin|]. apply andb_true_intro. split.
      * unfold Store.owns_parent_track. apply existsb_exists. exists R.
        split; [exact HR|]. rewrite HRid, Hid, HRown, !String.eqb_refl. reflexivity.
      * apply String.eqb_eq, Hid.
  - eapply SortFacts.StronglySorted_weaken;
      [|apply SortFacts.stable_sort_sorted, created_at_desc_consistent].
    intros a b. cbv beta. lia.
Qed.

(** An instance: the view of the scenario after its two updates. *)
Lemma loadTrackDetails_own_data_witness :
  StronglySorted (fun a b => TrackUpdate.created_at b <= TrackUpdate.created_at a)
    (TrackDetail.updates
       (TrackDetail.loadTrackDetails (Some (mkUser "u-alice")) "t-1" TrackDetail.initial
          TrackDetail.initial More.after_scenario).1).
Proof.
  edestruct (loadTrackDetails_own_data "u-alice" "t-1" TrackDetail.initial
               More.after_scenario) as (_ & _ & Hsorted).
  - vm_compute. reflexivity.
  - reflexivity.
  - exact Hsorted.
Defined.

(** X14 (when the view says "Track not found").  A view opened on an
    identifier shows "Track not found" once its load is over, both when the
    store holds no track with that identifier owned by the user and when the
    request for the track does not reach the store: the two cases are not
    told apart. *)
Theorem loadTrackDetails_not_found uid trackId w :
  (forall R, In R (Store.tracks (db w)) -> Track.id R = trackId -> Track.user_id R <> uid)
  \/ (forall e rest, script w = e :: rest -> Store.reachable e = false) ->
  TrackDetail.render
    (TrackDetail.loadTrackDetails (Some (mkUser uid)) trackId TrackDetail.initial
       TrackDetail.initial w).1
  = TrackDetail.TrackNotFound.
Proof.
  intros H. unfold TrackDetail.loadTrackDetails. rewrite !bind_run.
  cbn [user_id ret fst].
  assert (Hnone : Store.data (supabase.select_track_maybeSingle uid trackId uid w).1 = None).
  { unfold supabase.select_track_maybeSingle, send.
    destruct (script w) as [|e rest] eqn:Hs; [reflexivity|].
    destruct (Store.reachable e) eqn:He; [|reflexivity].
    destruct H as [Hforeign | Hoff]; [|rewrite (Hoff e rest eq_refl) in He; discriminate].
    destruct (Store.select_track uid trackId uid (db w)) as [|R l] eqn:Hsel;
      [reflexivity|].
    exfalso.
    assert (Hin : In R (Store.select_track uid trackId uid (db w)))
      by (rewrite Hsel; left; reflexivity).
    unfold Store.select_track in Hin. apply filter_In in Hin as [Hin Hp].
    apply andb_prop in Hp as [Hp Hu]. apply andb_prop in Hp as [_ Hi].
    apply String.eqb_eq in Hi, Hu. exact (Hforeign R Hin Hi Hu). }
  rewrite Hnone.
  destruct (Store.data (supabase.select_track_updates uid trackId _).1); reflexivity.
Qed.

(** An instance: alice opens the identifier of bob's track. *)
Lemma loadTrackDetails_not_found_witness :
  TrackDetail.render
    (TrackDetail.loadTrackDetails (Some (mkUser "u-alice")) "t-9" TrackDetail.initial
       TrackDetail.initial More.shared).1
  = TrackDetail.TrackNotFound.
Proof.
  apply (loadTrackDetails_not_found "u-alice" "t-9" More.shared).
  left. intros R [<-|[<-|[]]]; intros H; [discriminate H|discriminate].
Defined.

(* ===================================================================== *)
(** * More on the counts of the dashboard *)
(* ===================================================================== *)

(** The statistics an answered load computes, from the user's rows. *)
Lemma loadStats_answered uid stats w e rest :
  script w = e :: rest ->
  Store.reachable e = true ->
  (Dashboard.loadStats (Some (mkUser uid)) stats w).1
  = {| Dashboard.total := length (owned_tracks uid (db w));
       Dashboard.pending :=
         length (List.filter (fun r => String.eqb (Track.status r) "pending")
                             (owned_tracks uid (db w)));
       Dashboard.inProgress :=
         length (List.filter (fun r => String.eqb (Track.status r) "in_progress")
                             (owned_tracks uid (db w)));
       Dashboard.completed :=
         length (List.filter (fun r => String.eqb (Track.status r) "completed")
                             (owned_tracks uid (db w))) |}.
Proof.
  intros Hs He.
  assert (Hsel : Store.select_track_status uid uid (db w)
                 = map (fun r => Store.mkStatusRow (Track.status r))
                       (owned_tracks uid (db w))).
  { unfold Store.select_track_status, owned_tracks. f_equal. apply filter_ext.
    intros t. unfold Store.owns_track. rewrite (String.eqb_sym uid). apply andb_diag. }
  assert (Hcount : forall st (l : list Track.t),
             length (List.filter (fun t => String.eqb (Store.status t) st)
                                 (map (fun r => Store.mkStatusRow (Track.status r)) l))
             = length (List.filter (fun r => String.eqb (Track.status r) st) l)).
  { intros st l. induction l as [|r l IH]; [reflexivity|]. cbn.
    destruct (String.eqb (Track.status r) st); cbn; rewrite IH; reflexivity. }
  unfold Dashboard.loadStats, supabase.select_track_status.
  rewrite bind_run. unfold send. rewrite Hs, He.
  cbn [fst snd Store.data Store.ok ret user_id]. rewrite Hsel, !Hcount, length_map.
  reflexivity.
Qed.

Lemma count_by_status (l : list Track.t) :
  length l
  = (length (List.filter (fun r => String.eqb (Track.status r) "pending") l)
     + length (List.filter (fun r => String.eqb (Track.status r) "in_progress") l)
     + length (List.filter (fun r => String.eqb (Track.status r) "completed") l)
     + length (List.filter
                 (fun r => negb (String.eqb (Track.status r) "pending"
                             || String.eqb (Track.status r) "in_progress"
                             || String.eqb (Track.status r) "completed")) l))%nat.
Proof.
  induction l as [|r l IH]; [reflexivity|]. cbn [List.filter length]. cbv beta.
  destruct (String.eqb_spec (Track.status r) "pending") as [H1|H1];
    [rewrite H1; cbn; lia|].
  destruct (String.eqb_spec (Track.status r) "in_progress") as [H2|H2];
    [rewrite H2; cbn; lia|].
  destruct (String.eqb_spec (Track.status r) "completed") as [H3|H3];
    cbn; lia.
Qed.

(** X15 (the counts and the total).  In the statistics of an answered
    load, the counts of pending, in-progress and completed tracks together
    never exceed the total, and what is missing to the total is the number
    of the user's tracks whose status is none of these three (the cancelled
    ones among them): those are counted in the total only. *)
Theorem loadStats_total_covers_counts uid stats w e rest :
  script w = e :: rest ->
  Store.reachable e = true ->
  let r := (Dashboard.loadStats (Some (mkUser uid)) stats w).1 in
  (Dashboard.pending r + Dashboard.inProgress r + Dashboard.completed r
   <= Dashboard.total r)%nat
  /\ (Dashboard.total r
      = Dashboard.pending r + Dashboard.inProgress r + Dashboard.completed r
        + length (List.filter
                    (fun t => negb (String.eqb (Track.status t) "pending"
                                || String.eqb (Track.status t) "in_progress"
                                || String.eqb (Track.status t) "completed"))
                    (owned_tracks uid (db w))))%nat.
Proof.
  intros Hs He r. subst r. rewrite (loadStats_answered uid stats w e rest Hs He).
  cbn [Dashboard.total Dashboard.pending Dashboard.inProgress Dashboard.completed].
  pose proof (count_by_status (owned_tracks uid (db w))) as H. lia.
Qed.

(** An instance: five tracks, two of them cancelled. *)
Lemma loadStats_total_covers_counts_witness :
  (Dashboard.total (Dashboard.loadStats (Some (mkUser "u-alice")) Dashboard.initial Ex.five).1
   = Dashboard.pending
       (Dashboard.loadStats (Some (mkUser "u-alice")) Dashboard.initial Ex.five).1
     + Dashboard.inProgress
         (Dashboard.loadStats (Some (mkUser "u-alice")) Dashboard.initial Ex.five).1
     + Dashboard.completed
         (Dashboard.loadStats (Some (mkUser "u-alice")) Dashboard.initial Ex.five).1
     + 2)%nat.
Proof.
  destruct (loadStats_total_covers_counts "u-alice" Dashboard.initial Ex.five
              (Ex.online 1700000000000 "") [] eq_refl eq_refl) as [_ H].
  rewrite H. reflexivity.
Defined.

(** X16 (statistics when the load fails).  When the request does not
    reach the store, or no user is signed in, the statistics are left as
    they were: the cards keep the numbers of the last answered load and
    nothing in the store changes. *)
Theorem loadStats_unanswered user stats w :
  user = None \/ (forall e rest, script w = e :: rest -> Store.reachable e = false) ->
  (Dashboard.loadStats user stats w).1 = stats
  /\ db (Dashboard.loadStats user stats w).2 = db w.
Proof.
  intros H. unfold Dashboard.loadStats. destruct user as [u|]; [|split; reflexivity].
  destruct H as [H|Hoff]; [discriminate|].
  unfold supabase.select_track_status. rewrite bind_run. unfold send.
  destruct (script w) as [|e rest] eqn:Hs; [split; reflexivity|].
  rewrite (Hoff e rest eq_refl). split; reflexivity.
Qed.

(** An instance: the store is not reached. *)
Lemma loadStats_unanswered_witness :
  (Dashboard.loadStats (Some Ex.alice) (Dashboard.mkStats 5 3 0 0) (Ex.world [Ex.offline])).1
  = Dashboard.mkStats 5 3 0 0.
Proof.
  apply (loadStats_unanswered (Some Ex.alice) (Dashboard.mkStats 5 3 0 0)
           (Ex.world [Ex.offline])).
  right. intros e rest [= <- <-]. reflexivity.
Defined.

(* ===================================================================== *)
(** * Deleting a track *)
(* ===================================================================== *)

Lemma filter_filter_ext {A} (p q pq : A -> bool) (l : list A) :
  (forall x, In x l -> q x && p x = pq x) ->
  List.filter q (List.filter p l) = List.filter pq l.
Proof.
  induction l as [|x l IH]; intros H; [reflexivity|]. cbn [List.filter].
  pose proof (H x (or_introl eq_refl)) as Hx.
  assert (IH' : List.filter q (List.filter p l) = List.filter pq l)
    by (apply IH; intros y Hy; apply H; right; exact Hy).
  destruct (p x); cbn [List.filter].
  - rewrite andb_true_r in Hx. rewrite Hx, IH'. reflexivity.
  - rewrite andb_false_r in Hx. rewrite <- Hx. exact IH'.
Qed.

(** Whether the parent of an update is a track of the user does not
    depend on the rows a delete removes under another identifier. *)
Lemma owns_parent_track_after_delete uid trackId uid' d x :
  TrackUpdate.track_id x <> trackId ->
  Store.owns_parent_track uid' (delete_tracks uid trackId d) x
  = Store.owns_parent_track uid' d x.
Proof.
  intros Hx. unfold Store.owns_parent_track, delete_tracks. cbn [Store.tracks].
  induction (Store.tracks d) as [|R l IH]; [reflexivity|]. cbn [List.filter existsb].
  destruct (String.eqb_spec (Track.id R) trackId) as [Hid|Hid].
  - assert (Hno : String.eqb (Track.id R) (TrackUpdate.track_id x) = false)
      by (apply String.eqb_neq; congruence).
    rewrite Hno. cbn [andb orb]. rewrite andb_true_r.
    destruct (Store.owns_track uid R); cbn [negb]; [exact IH|].
    cbn [existsb]. rewrite Hno. exact IH.
  - rewrite andb_false_r. cbn [negb existsb]. rewrite IH. reflexivity.
Qed.

(** X17 (a delete removes the track and its updates).  After a confirmed
    delete that reaches the store, the user reads no track and no update
    under the view's identifier; when the store held such a track of the
    user, no entry of the ledger refers to the identifier any more.
    [onBack] is called in any case, also when no row was there to remove. *)
Theorem handleDeleteTrack_removes u trackId e d :
  Store.reachable e = true ->
  let r := handleDeleteTrack (Some u) trackId true e d in
  r.2 = true
  /\ Store.select_track (user_id u) trackId (user_id u) r.1 = []
  /\ Store.select_track_updates (user_id u) trackId r.1 = []
  /\ ((exists R, In R (Store.tracks d) /\ Track.id R = trackId
                 /\ Track.user_id R = user_id u) ->
      forall x, In x (Store.track_updates r.1) -> TrackUpdate.track_id x <> trackId).
Proof.
  intros He r. subst r. unfold handleDeleteTrack. rewrite He. cbn [negb fst snd].
  assert (Hgone : forall R, In R (Store.tracks (delete_tracks (user_id u) trackId d)) ->
                            Track.id R = trackId -> Track.user_id R <> user_id u).
  { intros R HR Hid Hown. unfold delete_tracks in HR. cbn [Store.tracks] in HR.
    apply filter_In in HR as [_ Hp]. unfold Store.owns_track in Hp.
    rewrite Hid, Hown, !String.eqb_refl in Hp. discriminate. }
  split; [reflexivity|]. split; [|split].
  - unfold Store.select_track.
    destruct (List.filter _ _) as [|R l] eqn:Hf; [reflexivity|]. exfalso.
    assert (Hin : In R (R :: l)) by (left; reflexivity).
    rewrite <- Hf in Hin. apply filter_In in Hin as [Hin Hp].
    apply andb_prop in Hp as [Hp Hu]. apply andb_prop in Hp as [_ Hi].
    apply String.eqb_eq in Hi, Hu. exact (Hgone R Hin Hi Hu).
  - unfold Store.select_track_updates.
    destruct (List.filter _ _) as [|x l] eqn:Hf; [reflexivity|]. exfalso.
    assert (Hin : In x (x :: l)) by (left; reflexivity).
    rewrite <- Hf in Hin. apply filter_In in Hin as [_ Hp].
    apply andb_prop in Hp as [Hown Hid]. apply String.eqb_eq in Hid.
    unfold Store.owns_parent_track in Hown. apply existsb_exists in Hown as (R & HR & Hp).
    apply andb_prop in Hp as [H1 H2]. apply String.eqb_eq in H1, H2.
    apply (Hgone R HR); congruence.
  - intros (R & HR & HRid & HRown) x Hx Hid.
    unfold delete_tracks in Hx. cbn [Store.track_updates] in Hx.
    apply filter_In in Hx as [_ Hp]. apply negb_true_iff in Hp.
    assert (Hex : existsb (fun r => String.eqb (Track.id r) (TrackUpdate.track_id x))
                    (List.filter
                       (fun r => Store.owns_track (user_id u) r
                                 && String.eqb (Track.id r) trackId)
                       (Store.tracks d)) = true); [|congruence].
    apply existsb_exists. exists R. split.
    + apply filter_In. split; [exact HR|]. unfold Store.owns_track.
      rewrite HRid, HRown, !String.eqb_refl. reflexivity.
    + rewrite HRid, Hid. apply String.eqb_refl.
Qed.

(** An instance: alice deletes the track of the scenario, which has two
    updates. *)
Lemma handleDeleteTrack_removes_witness :
  Store.select_track_updates (user_id Ex.alice) "t-1"
    (handleDeleteTrack (Some Ex.alice) "t-1" true (Ex.online 500 "")
       (db Ex.second_update.2)).1 = [].
Proof.
  destruct (handleDeleteTrack_removes Ex.alice "t-1" (Ex.online 500 "")
              (db Ex.second_update.2) eq_refl) as (_ & _ & Hnone & _).
  exact Hnone.
Defined.

(** X18 (a delete leaves the rest alone).  A delete, whatever it is given,
    keeps every track with another identifier or another owner, in table
    order, and keeps every update that refers to another identifier; the
    updates read back for any other identifier, by any user, are as before.
    A delete that is declined or does not reach the store changes
    nothing. *)
Theorem handleDeleteTrack_keeps_others user trackId confirm e d :
  let r := handleDeleteTrack user trackId confirm e d in
  (exists keep : Track.t -> bool,
      Store.tracks r.1 = List.filter keep (Store.tracks d)
      /\ forall R, Track.id R <> trackId \/ Some (mkUser (Track.user_id R)) <> user ->
                   keep R = true)
  /\ (forall x, TrackUpdate.track_id x <> trackId ->
                In x (Store.track_updates d) -> In x (Store.track_updates r.1))
  /\ (forall uid track_id,
         track_id <> trackId ->
         Store.select_track_updates uid track_id r.1
         = Store.select_track_updates uid track_id d)
  /\ (confirm = false \/ Store.reachable e = false -> r = (d, false)).
Proof.
  intros r.
  assert (Hsame : forall d0 : Store.Database,
             (exists keep : Track.t -> bool,
                 Store.tracks d0 = List.filter keep (Store.tracks d0)
                 /\ forall R, Track.id R <> trackId \/ Some (mkUser (Track.user_id R)) <> user ->
                              keep R = true)).
  { intros d0. exists (fun _ => true). split; [|reflexivity].
    induction (Store.tracks d0) as [|R l IH]; cbn; [reflexivity|]. f_equal. exact IH. }
  subst r. unfold handleDeleteTrack.
  destruct user as [[uid]|];
    [|split; [apply Hsame|]; split; [auto|]; split; [reflexivity|]; reflexivity].
  destruct confirm; cbn [negb];
    [|split; [apply Hsame|]; split; [auto|]; split; [reflexivity|]; reflexivity].
  destruct (Store.reachable e);
    [|split; [apply Hsame|]; split; [auto|]; split; [reflexivity|]; reflexivity].
  cbn [fst snd user_id].
  assert (Hnotgone : forall x, TrackUpdate.track_id x <> trackId ->
             existsb (fun r => String.eqb (Track.id r) (TrackUpdate.track_id x))
               (List.filter
                  (fun r => Store.owns_track uid r && String.eqb (Track.id r) trackId)
                  (Store.tracks d)) = false).
  { intros x Hx. destruct (existsb _ _) eqn:Hex; [|reflexivity]. exfalso.
    apply existsb_exists in Hex as (R & HR & Hid). apply filter_In in HR as [_ Hp].
    apply andb_prop in Hp as [_ Hi]. apply String.eqb_eq in Hi, Hid. congruence. }
  split; [|split; [|split]].
  - eexists. split; [reflexivity|]. intros R [Hid|Hown]; cbv beta.
    + apply String.eqb_neq in Hid. rewrite Hid, andb_false_r. reflexivity.
    + unfold Store.owns_track.
      destruct (String.eqb_spec uid (Track.user_id R)) as [->|]; [congruence|reflexivity].
  - intros x Hx Hin. unfold delete_tracks. cbn [Store.track_updates].
    apply filter_In. split; [exact Hin|]. rewrite Hnotgone by exact Hx. reflexivity.
  - intros uid' track_id Hne. unfold Store.select_track_updates. f_equal.
    unfold delete_tracks at 2. cbn [Store.track_updates].
    apply filter_filter_ext. intros x _.
    destruct (String.eqb_spec (TrackUpdate.track_id x) track_id) as [Hx|Hx];
      [|rewrite !andb_false_r; reflexivity].
    rewrite !andb_true_r. rewrite Hnotgone by congruence. cbn [negb]. rewrite andb_true_r.
    apply owns_parent_track_after_delete. congruence.
  - intros [H|H]; discriminate.
Qed.

(* ===================================================================== *)
(** * Loading and refreshing the list *)
(* ===================================================================== *)

Lemma track_created_at_desc_consistent :
  Consistent (fun a b : Track.t => Track.created_at b - Track.created_at a).
Proof. split; intros; lia. Qed.

(** The two ways a run of [loadTracks] for a signed-in user ends. *)
Lemma loadTracks_cases uid s h w :
  let r := (loadTracks (Some (mkUser uid)) s h w).1 in
  (Store.data (supabase.select_tracks uid uid w).1 = None
   /\ r = (setListLoading false (setListLoading true s), h))
  \/ (exists e rest,
         script w = e :: rest /\ Store.reachable e = true
         /\ r = (setListLoading false (setTracks (length h) (setListLoading true s)),
                 h ++ [Store.select_tracks uid uid (db w)])).
Proof.
  intros r. subst r. unfold loadTracks. rewrite bind_run. cbn [user_id].
  unfold supabase.select_tracks, send.
  destruct (script w) as [|e rest] eqn:Hs; [left; split; reflexivity|].
  destruct (Store.reachable e) eqn:He; [|left; split; reflexivity].
  right. exists e, rest. split; [reflexivity|]. split; [exact He|]. reflexivity.
Qed.

(** X19 (the tracks a load brings).  After an answered load, the list
    holds, in a new array, exactly the rows of the store the user owns, the
    latest created first; it is no longer busy, and the arrays that existed
    before, the one shown among them, are as they were. *)
Theorem loadTracks_own_newest uid s h w e rest :
  script w = e :: rest ->
  Store.reachable e = true ->
  let r := (loadTracks (Some (mkUser uid)) s h w).1 in
  let loaded := Heap.read (TrackList.tracks r.1) r.2 in
  Permutation loaded (owned_tracks uid (db w))
  /\ StronglySorted (fun a b => Track.created_at b <= Track.created_at a) loaded
  /\ TrackList.loading r.1 = false
  /\ (length h <= TrackList.tracks r.1)%nat
  /\ TrackList.filteredTracks r.1 = TrackList.filteredTracks s
  /\ (forall a, (a < length h)%nat -> Heap.read a r.2 = Heap.read a h).
Proof.
  intros Hs He r loaded. subst loaded r.
  destruct (loadTracks_cases uid s h w) as [[Hnone _] | (e' & rest' & _ & _ & Hr)].
  - exfalso. revert Hnone. unfold supabase.select_tracks, send. rewrite Hs, He. discriminate.
  - rewrite Hr. cbn [fst snd setListLoading setTracks TrackList.tracks TrackList.loading
                     TrackList.filteredTracks].
    rewrite HeapFacts.read_new.
    assert (Hsel : Store.select_tracks uid uid (db w)
                   = stable_sort (fun a b => Track.created_at b - Track.created_at a)
                                 (owned_tracks uid (db w))).
    { unfold Store.select_tracks, owned_tracks. f_equal. apply filter_ext.
      intros t. unfold Store.owns_track. rewrite (String.eqb_sym uid). apply andb_diag. }
    rewrite Hsel. split; [apply SortFacts.stable_sort_perm|]. split.
    + eapply SortFacts.StronglySorted_weaken;
        [|apply SortFacts.stable_sort_sorted, track_created_at_desc_consistent].
      intros a b. cbv beta. lia.
    + split; [reflexivity|]. split; [lia|]. split; [reflexivity|].
      intros a Ha. apply HeapFacts.read_old, Ha.
Qed.

(** An instance: alice's list loads her track from the store she shares
    with bob. *)
Lemma loadTracks_own_newest_witness :
  Permutation
    (Heap.read
       (TrackList.tracks
          (loadTracks (Some (mkUser "u-alice"))
             (Ex.list_state "" "all" "all" TrackList.date) Ex.heap More.shared).1.1)
       (loadTracks (Some (mkUser "u-alice"))
          (Ex.list_state "" "all" "all" TrackList.date) Ex.heap More.shared).1.2)
    (owned_tracks "u-alice" (db More.shared)).
Proof.
  edestruct (loadTracks_own_newest "u-alice" (Ex.list_state "" "all" "all" TrackList.date)
               Ex.heap More.shared) as (Hperm & _).
  - reflexivity.
  - reflexivity.
  - exact Hperm.
Defined.

(** X20 (a load that is not answered).  When the request does not reach
    the store, the list keeps the tracks it had loaded (the same array,
    unchanged) and is no longer busy: a failed refresh does not empty the
    list. *)
Theorem loadTracks_unanswered uid s h w :
  (forall e rest, script w = e :: rest -> Store.reachable e = false) ->
  let r := (loadTracks (Some (mkUser uid)) s h w).1 in
  TrackList.tracks r.1 = TrackList.tracks s
  /\ r.2 = h
  /\ TrackList.loading r.1 = false
  /\ db (loadTracks (Some (mkUser uid)) s h w).2 = db w.
Proof.
  intros Hoff r. subst r.
  assert (Hdb : db (loadTracks (Some (mkUser uid)) s h w).2 = db w).
  { unfold loadTracks. rewrite bind_run. cbn [user_id].
    unfold supabase.select_tracks.
    match goal with |- context [send ?rq ?x w] =>
      pose proof (send_read_db rq x w (fun _ _ => eq_refl)) as H;
      destruct (send rq x w) as [res w'] end.
    cbn [fst snd] in *. destruct (Store.data res), (Store.error res); cbn; exact H. }
  destruct (loadTracks_cases uid s h w) as [[_ Hr] | (e & rest & Hs & He & _)].
  - rewrite Hr. repeat split. exact Hdb.
  - rewrite (Hoff e rest Hs) in He. discriminate.
Qed.

(** An instance: the store is not reached. *)
Lemma loadTracks_unanswered_witness :
  Heap.read
    (TrackList.tracks
       (loadTracks (Some (mkUser "u-alice")) (Ex.list_state "" "all" "all" TrackList.date)
          Ex.heap (Ex.world [Ex.offline])).1.1)
    (loadTracks (Some (mkUser "u-alice")) (Ex.list_state "" "all" "all" TrackList.date)
       Ex.heap (Ex.world [Ex.offline])).1.2
  = [Ex.widget; Ex.gadget].
Proof.
  edestruct (loadTracks_unanswered "u-alice" (Ex.list_state "" "all" "all" TrackList.date)
               Ex.heap (Ex.world [Ex.offline])) as (Ht & Hh & _).
  - intros e rest [= <- <-]. reflexivity.
  - rewrite Ht, Hh. reflexivity.
Defined.

(** X21 (what the list shows after a refresh).  After a refresh whose
    load is answered, every track shown is a row of the store owned by the
    user and passes the filters in force; with an empty query and both
    filters at "all", the tracks shown are exactly the user's rows, and with
    the sort by date they come latest modification first. *)
Theorem refresh_shows_own_tracks toLowerCase localeCompare uid s h w e rest :
  script w = e :: rest ->
  Store.reachable e = true ->
  let r := (refresh toLowerCase localeCompare (Some (mkUser uid)) s h w).1 in
  let shown := Heap.read (TrackList.filteredTracks r.1) r.2 in
  (forall T, In T shown -> In T (Store.tracks (db w)) /\ Track.user_id T = uid)
  /\ Permutation shown
       (selected toLowerCase s (stable_sort (fun a b => Track.created_at b - Track.created_at a)
                                (owned_tracks uid (db w))))
  /\ (TrackList.searchQuery s = ""%string ->
      TrackList.statusFilter s = "all"%string ->
      TrackList.priorityFilter s = "all"%string ->
      Permutation shown (owned_tracks uid (db w)))
  /\ (TrackList.sortBy s = TrackList.date ->
      StronglySorted (fun a b => Track.updated_at b <= Track.updated_at a) shown).
Proof.
  intros Hs He r shown. subst shown r. unfold refresh. rewrite bind_run. cbn [ret fst].
  destruct (loadTracks_cases uid s h w) as [[Hnone _] | (e' & rest' & _ & _ & Hr)].
  { exfalso. revert Hnone. unfold supabase.select_tracks, send. rewrite Hs, He.
    discriminate. }
  rewrite Hr. cbn [fst snd].
  set (s1 := setListLoading false (setTracks (length h) (setListLoading true s))).
  set (h1 := h ++ [Store.select_tracks uid uid (db w)]).
  destruct (filterAndSortTracks_run toLowerCase localeCompare s1 h1) as (_ & _ & Hread & _).
  rewrite Hread.
  assert (Hloaded : Heap.read (TrackList.tracks s1) h1
                    = stable_sort (fun a b => Track.created_at b - Track.created_at a)
                                  (owned_tracks uid (db w))).
  { subst s1 h1. cbn [setListLoading setTracks TrackList.tracks].
    rewrite HeapFacts.read_new. unfold Store.select_tracks, owned_tracks. f_equal.
    apply filter_ext. intros t. unfold Store.owns_track. rewrite (String.eqb_sym uid).
    apply andb_diag. }
  rewrite Hloaded.
  assert (Hsel : forall l, selected toLowerCase s1 l = selected toLowerCase s l) by reflexivity.
  rewrite Hsel.
  assert (Hsort : TrackList.sortBy s1 = TrackList.sortBy s) by reflexivity.
  rewrite Hsort.
  set (sorted := stable_sort (fun a b => Track.created_at b - Track.created_at a)
                             (owned_tracks uid (db w))).
  assert (Hperm : Permutation
                    (stable_sort (TrackList.compareTracks localeCompare (TrackList.sortBy s))
                                 (selected toLowerCase s sorted))
                    (selected toLowerCase s sorted)) by apply SortFacts.stable_sort_perm.
  split; [|split; [exact Hperm|split]].
  - intros T HT. eapply Permutation_in in HT; [|exact Hperm].
    apply In_selected in HT as [HT _]. subst sorted.
    eapply Permutation_in in HT; [|apply SortFacts.stable_sort_perm].
    unfold owned_tracks in HT. apply filter_In in HT as [Hin Hu].
    apply String.eqb_eq in Hu. auto.
  - intros Hq Hst Hp. rewrite Hperm.
    assert (Hall : selected toLowerCase s sorted = sorted).
    { unfold selected. rewrite Hq, Hst, Hp. reflexivity. }
    rewrite Hall. apply SortFacts.stable_sort_perm.
  - intros Hdate. rewrite Hdate.
    eapply SortFacts.StronglySorted_weaken; [|apply SortFacts.stable_sort_sorted].
    + intros a b. cbn [TrackList.compareTracks]. lia.
    + split; cbn [TrackList.compareTracks]; intros; lia.
Qed.

(** An instance: alice refreshes her list on the store she shares with
    bob. *)
Lemma refresh_shows_own_tracks_witness :
  Permutation
    (Heap.read
       (TrackList.filteredTracks
          (refresh asciiToLowerCase codeUnitCompare (Some (mkUser "u-alice"))
             (Ex.list_state "" "all" "all" TrackList.date) Ex.heap More.shared).1.1)
       (refresh asciiToLowerCase codeUnitCompare (Some (mkUser "u-alice"))
          (Ex.list_state "" "all" "all" TrackList.date) Ex.heap More.shared).1.2)
    (owned_tracks "u-alice" (db More.shared)).
Proof.
  edestruct (refresh_shows_own_tracks asciiToLowerCase codeUnitCompare "u-alice"
               (Ex.list_state "" "all" "all" TrackList.date) Ex.heap More.shared)
    as (_ & _ & Hall & _).
  - reflexivity.
  - reflexivity.
  - apply Hall; reflexivity.
Defined.

(* ===================================================================== *)
(** * More on filtering *)
(* ===================================================================== *)

Lemma truthy_map_string f q : JsString.truthy (JsString.map_string f q) = JsString.truthy q.
Proof. destruct q; reflexivity. Qed.

(** X22 (the case of the query does not matter).  Two queries that differ
    only in the case of their letters, that is with the same lower-case
    form, show the same tracks in the same order.  Of the engine's
    [toLowerCase] this uses that it keeps the empty string, and only it,
    empty. *)
Theorem search_ignores_query_case toLowerCase localeCompare s h q1 q2 :
  (forall q, JsString.truthy (toLowerCase q) = JsString.truthy q) ->
  toLowerCase q1 = toLowerCase q2 ->
  TrackList.shown toLowerCase localeCompare (setSearchQuery q1 s) h
  = TrackList.shown toLowerCase localeCompare (setSearchQuery q2 s) h.
Proof.
  intros Hempty Hlower.
  assert (Htruthy : JsString.truthy q1 = JsString.truthy q2).
  { rewrite <- (Hempty q1), <- (Hempty q2), Hlower. reflexivity. }
  assert (Hshown : forall s', TrackList.shown toLowerCase localeCompare s' h
                   = stable_sort (TrackList.compareTracks localeCompare (TrackList.sortBy s'))
                                 (selected toLowerCase s' (Heap.read (TrackList.tracks s') h))).
  { intros s'. unfold TrackList.shown.
    pose proof (filterAndSortTracks_run toLowerCase localeCompare s' h) as (_ & _ & Hread & _).
    destruct (TrackList.filterAndSortTracks toLowerCase localeCompare s' h). exact Hread. }
  rewrite !Hshown. unfold selected.
  cbn [setSearchQuery TrackList.searchQuery TrackList.tracks TrackList.statusFilter
       TrackList.priorityFilter TrackList.sortBy].
  rewrite Htruthy, Hlower. reflexivity.
Qed.

(** An instance: "TRK-" and "trk-". *)
Lemma search_ignores_query_case_witness :
  TrackList.shown asciiToLowerCase codeUnitCompare
    (setSearchQuery "TRK-" (Ex.list_state "" "all" "all" TrackList.date)) Ex.heap
  = TrackList.shown asciiToLowerCase codeUnitCompare
      (setSearchQuery "trk-" (Ex.list_state "" "all" "all" TrackList.date)) Ex.heap.
Proof.
  apply (search_ignores_query_case asciiToLowerCase codeUnitCompare
           (Ex.list_state "" "all" "all" TrackList.date) Ex.heap "TRK-" "trk-").
  - intros q. apply truthy_map_string.
  - reflexivity.
Defined.

Lemma filter_sublist {A} (p : A -> bool) (l : list A) : sublist (List.filter p l) l.
Proof.
  induction l as [|x l IH]; cbn [List.filter]; [constructor|].
  destruct (p x); [apply sublist_skip|apply sublist_cons]; exact IH.
Qed.

Lemma selected_sublist toLowerCase s l : sublist (selected toLowerCase s l) l.
Proof.
  unfold selected.
  repeat match goal with
         | |- context [if ?c then _ else _] => destruct c
         end;
    repeat (etransitivity; [apply filter_sublist|]); reflexivity.
Qed.

(** X23 (filters only take tracks away).  Whatever the query, the filters
    and the sort key, the tracks shown are a rearrangement of a part of the
    loaded tracks taken in their order: none is added and none shown more
    often than it was loaded.  Each track shown has the status of the status
    filter and the priority of the priority filter, unless the filter is
    "all"; and with the sort by date the tracks shown come latest
    modification first. *)
Theorem filterAndSortTracks_selects toLowerCase localeCompare s h :
  let shown := TrackList.shown toLowerCase localeCompare s h in
  let loaded := Heap.read (TrackList.tracks s) h in
  (exists part, Permutation shown part /\ sublist part loaded)
  /\ (length shown <= length loaded)%nat
  /\ (forall T, In T shown ->
                (TrackList.statusFilter s = "all"%string
                 \/ Track.status T = TrackList.statusFilter s)
                /\ (TrackList.priorityFilter s = "all"%string
                    \/ Track.priority T = TrackList.priorityFilter s))
  /\ (TrackList.sortBy s = TrackList.date ->
      StronglySorted (fun a b => Track.updated_at b <= Track.updated_at a) shown).
Proof.
  intros shown loaded.
  assert (Hshown : shown
                   = stable_sort (TrackList.compareTracks localeCompare (TrackList.sortBy s))
                                 (selected toLowerCase s loaded)).
  { subst shown loaded. unfold TrackList.shown.
    pose proof (filterAndSortTracks_run toLowerCase localeCompare s h) as (_ & _ & Hread & _).
    destruct (TrackList.filterAndSortTracks toLowerCase localeCompare s h). exact Hread. }
  assert (Hperm : Permutation shown (selected toLowerCase s loaded))
    by (rewrite Hshown; apply SortFacts.stable_sort_perm).
  split; [|split; [|split]].
  - exists (selected toLowerCase s loaded). split; [exact Hperm|apply selected_sublist].
  - rewrite (Permutation_length Hperm). apply sublist_length, selected_sublist.
  - intros T HT. eapply Permutation_in in HT; [|exact Hperm].
    apply In_selected in HT as (_ & _ & Hst & Hp). auto.
  - intros Hdate. rewrite Hshown, Hdate.
    eapply SortFacts.StronglySorted_weaken; [|apply SortFacts.stable_sort_sorted].
    + intros a b. cbn [TrackList.compareTracks]. lia.
    + split; cbn [TrackList.compareTracks]; intros; lia.
Qed.

(* ===================================================================== *)
(** * The screens of the dashboard *)
(* ===================================================================== *)

Module DashboardViewFacts.
Import DashboardView.

Lemma run_invariant evs :
  forall s,
    Forall carries_id evs ->
    Selected s ->
    Selected (run evs s)
    /\ refreshKey (run evs s) = refreshKey s + Z.of_nat (length (List.filter is_back evs)).
Proof.
  induction evs as [|ev evs IH]; intros s Hevs Hsel.
  - split; [exact Hsel|]. cbn. lia.
  - inversion Hevs as [|? ? Hev Hrest]; subst. cbn [run fold_left].
    assert (Hstep : Selected (step s ev)).
    { destruct ev as [trackId| |]; cbn [step].
      - intros _. exists trackId. split; [reflexivity|exact Hev].
      - intros H. discriminate.
      - intros H. discriminate. }
    destruct (IH (step s ev) Hrest Hstep) as [Hinv Hkey].
    split; [exact Hinv|]. unfold run in Hkey. rewrite Hkey.
    destruct ev; cbn [step handleViewTrack handleBack newTrack refreshKey List.filter
                      is_back length]; lia.
Qed.

End DashboardViewFacts.

(** X24 (the dashboard always shows a screen).  From the initial state
    and after any sequence of opening a track (with a non-empty
    identifier), going back and pressing "New Track", the main area mounts
    the list, a detail view or the creation form, never nothing; and the
    refresh key, on whose change the statistics and the list are loaded
    again, is the number of times "back" was run. *)
Theorem dashboard_never_blank evs :
  Forall DashboardView.carries_id evs ->
  let s := DashboardView.run evs DashboardView.initial in
  DashboardView.mounted s <> DashboardView.Blank
  /\ DashboardView.refreshKey s
     = Z.of_nat (length (List.filter DashboardView.is_back evs)).
Proof.
  intros Hevs s.
  destruct (DashboardViewFacts.run_invariant evs DashboardView.initial Hevs) as [Hinv Hkey].
  { intros H. discriminate. }
  fold s in Hinv, Hkey. split; [|rewrite Hkey; reflexivity].
  unfold DashboardView.mounted. unfold DashboardView.Selected in Hinv.
  destruct (DashboardView.view s); [discriminate| |discriminate].
  destruct (Hinv eq_refl) as (trackId & -> & Hne).
  destruct trackId; [congruence|]. discriminate.
Qed.

(** An instance: open a track, go back, start a creation, go back, open
    another track. *)
Lemma dashboard_never_blank_witness :
  DashboardView.mounted
    (DashboardView.run
       [DashboardView.ViewTrack "t-1"; DashboardView.Back; DashboardView.NewTrack;
        DashboardView.Back; DashboardView.ViewTrack "t-2"]
       DashboardView.initial)
  <> DashboardView.Blank.
Proof.
  apply (dashboard_never_blank
           [DashboardView.ViewTrack "t-1"; DashboardView.Back; DashboardView.NewTrack;
            DashboardView.Back; DashboardView.ViewTrack "t-2"]).
  repeat constructor; discriminate.
Defined.
